(** * The strategy configurator: schema validation and payload encoding

    A shallow embedding of [src/components/StrategyForm.tsx]: the zod schema
    [StrategySchema], the encoder [toBase64] and the part of the component
    [StrategyForm] that derives the payload and the connector command from
    the form state.  The JavaScript and zod built-ins the source calls
    ([Number], [JSON.stringify], [encodeURIComponent], [unescape], [btoa],
    [z.object], [z.coerce.number], ...) are modelled by executable
    definitions that follow ECMA-262, the HTML standard and zod 3. *)

From Stdlib Require Import ZArith Lia List String Ascii DecimalString.
From Stdlib Require DecimalFacts DecimalPos DecimalN.
From Stdlib Require Import Floats.SpecFloat.
From stdpp Require Import base option list gmap strings.

Local Open Scope Z_scope.

(** ** JavaScript values *)

Module JS.

(** A JavaScript string is a sequence of UTF-16 code units. *)
Definition jsstring := list Z.

Definition is_char16 (c : Z) : bool := (0 <=? c) && (c <? 65536).

(** Every element is a 16-bit code unit. *)
Definition wf_jsstring (s : jsstring) : Prop := forallb is_char16 s = true.

(** String literals of the source are ASCII. *)
Definition js (s : string) : jsstring :=
  map (fun a => Z.of_N (N_of_ascii a)) (list_ascii_of_string s).

(** A JavaScript number is an IEEE 754 binary64 value. *)
Definition number := spec_float.

Definition prec := 53.
Definition emax := 1024.

#[global] Instance number_eq_dec : EqDecision number.
Proof. solve_decision. Defined.

Definition NaN : number := S754_nan.
Definition Infinity : number := S754_infinity false.

(** [dec m e] is the Number value for the decimal [m * 10 ^ e]: the
    numeric value rounded to the nearest binary64, ties to even. *)
Definition dec (m e : Z) : number :=
  match m with
  | Z0 => S754_zero false
  | _ =>
      if 0 <=? e then binary_normalize prec emax (m * 10 ^ e) 0 false
      else SFdiv prec emax
             (S754_finite (m <? 0) (Z.to_pos (Z.abs m)) 0)
             (S754_finite false (Z.to_pos (10 ^ (- e))) 0)
  end.

(** Integer literals such as [3] or [424242]. *)
Definition int (z : Z) : number := dec z 0.

Definition isNaN (x : number) : bool :=
  match x with S754_nan => true | _ => false end.

(** The comparisons [<], [>], [<=] and [>=] on Numbers (false when either
    is NaN). *)
Definition lt (x y : number) : bool := SFltb x y.
Definition gt (x y : number) : bool := SFltb y x.
Definition le (x y : number) : bool := SFleb x y.
Definition ge (x y : number) : bool := SFleb y x.

(** [Number.isInteger]. *)
Definition isInteger (x : number) : bool :=
  match x with
  | S754_zero _ => true
  | S754_finite _ m e => (0 <=? e) || (Z.pos m mod 2 ^ (- e) =? 0)
  | _ => false
  end.

(** The primitive values that a field of the form can hold: a control
    yields a string and the initial state holds numbers; [undefined] is
    what reading an absent property gives. *)
Inductive JSValue :=
  | JUndefined
  | JNull
  | JBool (b : bool)
  | JNum (x : number)
  | JStr (s : jsstring).

#[global] Instance JSValue_eq_dec : EqDecision JSValue.
Proof. solve_decision. Defined.

(** *** [Number(value)]: ToNumber on primitives *)

(** StrWhiteSpaceChar: WhiteSpace and LineTerminator code points. *)
Definition is_whitespace (c : Z) : bool :=
  ((9 <=? c) && (c <=? 13)) || (c =? 32) || (c =? 160) || (c =? 5760)
  || ((8192 <=? c) && (c <=? 8202)) || (c =? 8232) || (c =? 8233)
  || (c =? 8239) || (c =? 8287) || (c =? 12288) || (c =? 65279).

Fixpoint trimStart (s : jsstring) : jsstring :=
  match s with
  | c :: r => if is_whitespace c then trimStart r else s
  | [] => []
  end.

Definition trimEnd (s : jsstring) : jsstring := rev (trimStart (rev s)).

Definition trim (s : jsstring) : jsstring := trimEnd (trimStart s).

Definition is_digit (c : Z) : bool := (48 <=? c) && (c <=? 57).

(** The value of a digit in base 2, 8, 10 or 16, if it is one. *)
Definition digit_value (base c : Z) : option Z :=
  let v :=
    if (48 <=? c) && (c <=? 57) then c - 48
    else if (97 <=? c) && (c <=? 102) then c - 87
    else if (65 <=? c) && (c <=? 70) then c - 55
    else base in
  if v <? base then Some v else None.

(** Splits off the longest prefix of decimal digits. *)
Fixpoint span_digits (s : jsstring) : list Z * jsstring :=
  match s with
  | c :: r =>
      if is_digit c then
        let '(ds, r') := span_digits r in (c - 48 :: ds, r')
      else ([], s)
  | [] => ([], [])
  end.

Definition digits_value (base : Z) (ds : list Z) : Z :=
  fold_left (fun acc d => base * acc + d) ds 0.

(** All of [s] as digits of [base]; [None] when [s] is empty or holds
    another character. *)
Definition all_digits (base : Z) (s : jsstring) : option Z :=
  match s with
  | [] => None
  | _ => digits_value base <$> mapM (digit_value base) s
  end.

(** ExponentPart, which must reach the end of the text. *)
Definition ExponentPart (s : jsstring) : option Z :=
  match s with
  | [] => Some 0
  | c :: r =>
      if (c =? 101) || (c =? 69) then
        match r with
        | 43 :: r' => all_digits 10 r'
        | 45 :: r' => Z.opp <$> all_digits 10 r'
        | _ => all_digits 10 r
        end
      else None
  end.

Definition StrUnsignedDecimalLiteral (s : jsstring) : option number :=
  if bool_decide (s = js "Infinity") then Some Infinity
  else
    let '(ip, r1) := span_digits s in
    let '(fp, r2) :=
      match r1 with
      | 46 :: r => span_digits r
      | _ => ([], r1)
      end in
    match ip ++ fp with
    | [] => None
    | ds =>
        e ← ExponentPart r2;
        Some (dec (digits_value 10 ds) (e - Z.of_nat (length fp)))
    end.

Definition StrDecimalLiteral (s : jsstring) : option number :=
  match s with
  | c :: r =>
      if c =? 43 then StrUnsignedDecimalLiteral r
      else if c =? 45 then SFopp <$> StrUnsignedDecimalLiteral r
      else StrUnsignedDecimalLiteral s
  | [] => None
  end.

Definition NonDecimalIntegerLiteral (s : jsstring) : option number :=
  match s with
  | c0 :: c :: r =>
      if negb (c0 =? 48) then None
      else if (c =? 120) || (c =? 88) then int <$> all_digits 16 r
      else if (c =? 111) || (c =? 79) then int <$> all_digits 8 r
      else if (c =? 98) || (c =? 66) then int <$> all_digits 2 r
      else None
  | _ => None
  end.

Definition StrNumericLiteral (s : jsstring) : option number :=
  match NonDecimalIntegerLiteral s with
  | Some x => Some x
  | None => StrDecimalLiteral s
  end.

(** StringToNumber: the empty or blank string is [+0], text outside the
    grammar is [NaN]. *)
Definition StringToNumber (str : jsstring) : number :=
  match trim str with
  | [] => S754_zero false
  | text => default NaN (StrNumericLiteral text)
  end.

Definition Number (value : JSValue) : number :=
  match value with
  | JUndefined => NaN
  | JNull => S754_zero false
  | JBool true => int 1
  | JBool false => S754_zero false
  | JNum x => x
  | JStr s => StringToNumber s
  end.

(** *** [Number::toString], radix 10 *)

Definition Z_digits (z : Z) : string :=
  NilZero.string_of_uint (N.to_uint (Z.to_N z)).

Fixpoint zeros (n : nat) : string :=
  match n with
  | O => EmptyString
  | S n' => String "0" (zeros n')
  end.

(** The [n] with [10 ^ (n - 1) <= num / den < 10 ^ n], for a positive
    ratio. *)
Definition decimal_exponent (num den : Z) : Z :=
  if den <=? num then Z.of_nat (String.length (Z_digits (num / den)))
  else 1 - Z.of_nat (String.length (Z_digits ((den - 1) / num))).

(** floor of [(num / den) / 10 ^ p]. *)
Definition scaled_floor (num den p : Z) : Z :=
  if 0 <=? p then num / (den * 10 ^ p) else (num * 10 ^ (- p)) / den.

(** Compares [num / den] with [(s + 1/2) * 10 ^ p]. *)
Definition compare_midpoint (num den s p : Z) : comparison :=
  if 0 <=? p then 2 * num ?= (2 * s + 1) * 10 ^ p * den
  else 2 * num * 10 ^ (- p) ?= (2 * s + 1) * den.

(** The integer [s] of [k] digits such that [s * 10 ^ (n - k)] is the
    Number [x], when there is one; the closest to [x] when there are two. *)
Definition digits_candidate (x : number) (num den n k : Z) : option Z :=
  let p := n - k in
  let s := scaled_floor num den p in
  let lo := bool_decide (dec s p = x) in
  let hi := bool_decide (dec (s + 1) p = x) in
  match lo, hi with
  | true, true =>
      match compare_midpoint num den s p with
      | Lt => Some s
      | Gt => Some (s + 1)
      | Eq => Some (if Z.even s then s else s + 1)
      end
  | true, false => Some s
  | false, true => Some (s + 1)
  | false, false => None
  end.

(** The smallest number of digits that identifies [x], searched upwards;
    seventeen digits always do. *)
Fixpoint shortest_digits (fuel : nat) (x : number) (num den n k : Z) : Z * Z :=
  match digits_candidate x num den n k with
  | Some s => (s, n - k)
  | None =>
      match fuel with
      | O => (scaled_floor num den (n - k), n - k)
      | S fuel' => shortest_digits fuel' x num den n (k + 1)
      end
  end.

Fixpoint strip_zeros (fuel : nat) (s p : Z) : Z * Z :=
  match fuel with
  | O => (s, p)
  | S fuel' =>
      if (s mod 10 =? 0) && negb (s =? 0)
      then strip_zeros fuel' (s / 10) (p + 1) else (s, p)
  end.

Definition format_decimal (ds : string) (n : Z) : string :=
  let k := Z.of_nat (String.length ds) in
  if (k <=? n) && (n <=? 21) then ds +:+ zeros (Z.to_nat (n - k))
  else if (0 <? n) && (n <=? 21) then
    substring 0 (Z.to_nat n) ds +:+ "." +:+
    substring (Z.to_nat n) (Z.to_nat (k - n)) ds
  else if (-6 <? n) && (n <=? 0) then "0." +:+ zeros (Z.to_nat (- n)) +:+ ds
  else
    let e := n - 1 in
    let es := (if e <? 0 then "-" else "+") +:+ Z_digits (Z.abs e) in
    if k =? 1 then ds +:+ "e" +:+ es
    else substring 0 1 ds +:+ "." +:+ substring 1 (Z.to_nat (k - 1)) ds
         +:+ "e" +:+ es.

Definition Number_toString (x : number) : string :=
  match x with
  | S754_nan => "NaN"
  | S754_zero _ => "0"
  | S754_infinity s => if s then "-Infinity" else "Infinity"
  | S754_finite sg m e =>
      let num := if 0 <=? e then Z.pos m * 2 ^ e else Z.pos m in
      let den := if 0 <=? e then 1 else 2 ^ (- e) in
      let n := decimal_exponent num den in
      let '(s, p) := shortest_digits 16 (S754_finite false m e) num den n 1 in
      let '(s, p) := strip_zeros 20 s p in
      let ds := Z_digits s in
      (if sg then "-" else EmptyString) +:+
      format_decimal ds (p + Z.of_nat (String.length ds))
  end.

(** *** UTF-16 and UTF-8 *)

Definition is_lead (c : Z) : bool := (55296 <=? c) && (c <=? 56319).
Definition is_trail (c : Z) : bool := (56320 <=? c) && (c <=? 57343).

(** UTF16SurrogatePairToCodePoint. *)
Definition pair_code_point (lead trail : Z) : Z :=
  (lead - 55296) * 1024 + (trail - 56320) + 65536.

(** The octets of the UTF-8 transformation of a code point. *)
Definition utf8_octets (cp : Z) : list Z :=
  if cp <? 128 then [cp]
  else if cp <? 2048 then [192 + cp / 64; 128 + cp mod 64]
  else if cp <? 65536 then
    [224 + cp / 4096; 128 + cp / 64 mod 64; 128 + cp mod 64]
  else
    [240 + cp / 262144; 128 + cp / 4096 mod 64; 128 + cp / 64 mod 64;
     128 + cp mod 64].

(** *** [JSON.stringify] on an object of primitives *)

Definition hex_lower (v : Z) : Z := if v <? 10 then 48 + v else 87 + v.
Definition hex_upper (v : Z) : Z := if v <? 10 then 48 + v else 55 + v.

(** UnicodeEscape: a backslash, [u] and four lowercase hexadecimal digits. *)
Definition UnicodeEscape (c : Z) : jsstring :=
  [92; 117; hex_lower (c / 4096 mod 16); hex_lower (c / 256 mod 16);
   hex_lower (c / 16 mod 16); hex_lower (c mod 16)].

(** One code point that is not an unpaired surrogate. *)
Definition quote_code_unit (c : Z) : jsstring :=
  if c =? 8 then js "\b"
  else if c =? 9 then js "\t"
  else if c =? 10 then js "\n"
  else if c =? 12 then js "\f"
  else if c =? 13 then js "\r"
  else if c =? 34 then [92; 34]
  else if c =? 92 then [92; 92]
  else if c <? 32 then UnicodeEscape c
  else [c].

Fixpoint quote_code_points (s : jsstring) : jsstring :=
  match s with
  | [] => []
  | c :: r =>
      if is_lead c then
        match r with
        | d :: r' =>
            if is_trail d then c :: d :: quote_code_points r'
            else UnicodeEscape c ++ quote_code_points r
        | [] => UnicodeEscape c
        end
      else if is_trail c then UnicodeEscape c ++ quote_code_points r
      else quote_code_unit c ++ quote_code_points r
  end.

Definition QuoteJSONString (value : jsstring) : jsstring :=
  [34] ++ quote_code_points value ++ [34].

(** SerializeJSONProperty; [None] is the result [undefined]. *)
Definition SerializeJSONProperty (value : JSValue) : option jsstring :=
  match value with
  | JUndefined => None
  | JNull => Some (js "null")
  | JBool true => Some (js "true")
  | JBool false => Some (js "false")
  | JNum x =>
      match x with
      | S754_nan | S754_infinity _ => Some (js "null")
      | _ => Some (js (Number_toString x))
      end
  | JStr s => Some (QuoteJSONString s)
  end.

(** An object, as its own enumerable properties in creation order. *)
Definition JSObject := list (string * JSValue).

Definition get (o : JSObject) (key : string) : JSValue :=
  default JUndefined (snd <$> find (fun kv => bool_decide (kv.1 = key)) o).

Fixpoint join_comma (parts : list jsstring) : jsstring :=
  match parts with
  | [] => []
  | [x] => x
  | x :: rest => x ++ [44] ++ join_comma rest
  end.

Definition JSON_member (kv : string * JSValue) : option jsstring :=
  strP ← SerializeJSONProperty kv.2;
  Some (QuoteJSONString (js kv.1) ++ [58] ++ strP).

(** SerializeJSONObject without gap. *)
Definition JSON_stringify (o : JSObject) : jsstring :=
  [123] ++ join_comma (omap JSON_member o) ++ [125].

(** *** [encodeURIComponent], [unescape] and [btoa] *)

(** The characters [encodeURIComponent] leaves alone: letters, digits and
    [-_.!~*'()]. *)
Definition uriUnreserved (c : Z) : bool :=
  ((65 <=? c) && (c <=? 90)) || ((97 <=? c) && (c <=? 122))
  || ((48 <=? c) && (c <=? 57))
  || (c =? 45) || (c =? 95) || (c =? 46) || (c =? 33) || (c =? 126)
  || (c =? 42) || (c =? 39) || (c =? 40) || (c =? 41).

Definition percent_octet (b : Z) : jsstring :=
  [37; hex_upper (b / 16); hex_upper (b mod 16)].

Definition percent_encode (cp : Z) : jsstring :=
  concat (map percent_octet (utf8_octets cp)).

(** [None] is the URIError thrown at an unpaired surrogate. *)
Fixpoint encodeURIComponent (s : jsstring) : option jsstring :=
  match s with
  | [] => Some []
  | c :: r =>
      if uriUnreserved c then (c ::.) <$> encodeURIComponent r
      else if is_lead c then
        match r with
        | d :: r' =>
            if is_trail d then
              (percent_encode (pair_code_point c d) ++.)
                <$> encodeURIComponent r'
            else None
        | [] => None
        end
      else if is_trail c then None
      else (percent_encode c ++.) <$> encodeURIComponent r
  end.

Definition hex2 (a b : Z) : option Z :=
  x ← digit_value 16 a; y ← digit_value 16 b; Some (16 * x + y).

(** The code unit that [unescape] produces at a [%] followed by [r], and
    how many further code units it consumes. *)
Definition unescape_percent (r : jsstring) : Z * nat :=
  match r with
  | u :: a :: b :: c :: d :: _ =>
      if u =? 117 then
        match hex2 a b, hex2 c d with
        | Some x, Some y => (256 * x + y, 5%nat)
        | _, _ => (37, 0%nat)
        end
      else
        match hex2 u a with
        | Some x => (x, 2%nat)
        | None => (37, 0%nat)
        end
  | a :: b :: _ =>
      match hex2 a b with
      | Some x => (x, 2%nat)
      | None => (37, 0%nat)
      end
  | _ => (37, 0%nat)
  end.

Fixpoint unescape_from (skip : nat) (s : jsstring) : jsstring :=
  match s with
  | [] => []
  | c :: r =>
      match skip with
      | S k => unescape_from k r
      | O =>
          let '(C, advance) :=
            if c =? 37 then unescape_percent r else (c, 0%nat) in
          C :: unescape_from advance r
      end
  end.

Definition unescape (s : jsstring) : jsstring := unescape_from 0 s.

(** The base-64 alphabet [A-Za-z0-9+/]. *)
Definition base64_char (i : Z) : Z :=
  if i <? 26 then 65 + i
  else if i <? 52 then 71 + i
  else if i <? 62 then i - 4
  else if i =? 62 then 43
  else 47.

Fixpoint base64_encode (bytes : list Z) : jsstring :=
  match bytes with
  | [] => []
  | [a] => [base64_char (a / 4); base64_char (a mod 4 * 16); 61; 61]
  | [a; b] =>
      [base64_char (a / 4); base64_char (a mod 4 * 16 + b / 16);
       base64_char (b mod 16 * 4); 61]
  | a :: b :: c :: r =>
      [base64_char (a / 4); base64_char (a mod 4 * 16 + b / 16);
       base64_char (b mod 16 * 4 + c / 64); base64_char (c mod 64)]
      ++ base64_encode r
  end.

Definition is_byte (c : Z) : bool := (0 <=? c) && (c <=? 255).

(** [None] is the InvalidCharacterError thrown at a code unit above 255. *)
Definition btoa (data : jsstring) : option jsstring :=
  if forallb is_byte data then Some (base64_encode data) else None.

End JS.

(** ** zod: the schema combinators the source uses *)

Module Zod.
Import JS.

Inductive ZodParsedType :=
  | zpt_string | zpt_nan | zpt_number | zpt_integer | zpt_float
  | zpt_boolean | zpt_undefined | zpt_null.

Definition getParsedType (data : JSValue) : ZodParsedType :=
  match data with
  | JUndefined => zpt_undefined
  | JNull => zpt_null
  | JBool _ => zpt_boolean
  | JNum x => if isNaN x then zpt_nan else zpt_number
  | JStr _ => zpt_string
  end.

(** What a validator was asked for: a type name, or the values of an
    enum. *)
Inductive Expected :=
  | expected_type (t : ZodParsedType)
  | expected_values (values : list jsstring).

(** An issue, without its message (the message is derived from the other
    fields by the error map). *)
Inductive ZodIssueCode :=
  | invalid_type (expected : Expected) (received : ZodParsedType)
  | invalid_enum_value (received : JSValue) (options : list jsstring)
  | too_small (minimum : number) (inclusive : bool)
  | too_big (maximum : number) (inclusive : bool).

Record ZodIssue := { code : ZodIssueCode; path : list string }.

#[global] Instance ZodParsedType_eq_dec : EqDecision ZodParsedType.
Proof. solve_decision. Defined.
#[global] Instance Expected_eq_dec : EqDecision Expected.
Proof. solve_decision. Defined.
#[global] Instance ZodIssueCode_eq_dec : EqDecision ZodIssueCode.
Proof. solve_decision. Defined.
#[global] Instance ZodIssue_eq_dec : EqDecision ZodIssue.
Proof. solve_decision. Defined.

Inductive ZodNumberCheck :=
  | check_int
  | check_min (value : number) (inclusive : bool)
  | check_max (value : number) (inclusive : bool).

Inductive ZodType :=
  | ZodString
  | ZodEnum (values : list jsstring)
  | ZodNumber (coerce : bool) (checks : list ZodNumberCheck)
  | ZodDefault (innerType : ZodType) (defaultValue : JSValue).

Record ZodObject := { shape : list (string * ZodType) }.

(** The status of a parse: valid, dirty (a value, but issues) or aborted. *)
Inductive ParseReturn (A : Type) :=
  | OK (value : A)
  | DIRTY (value : A)
  | INVALID.
Arguments OK {A} value.
Arguments DIRTY {A} value.
Arguments INVALID {A}.

(** A parse returns its status together with the issues it added to the
    context. *)
Definition Parsed (A : Type) : Type := ParseReturn A * list ZodIssue.

(** One check of [ZodNumber._parse]: the issue it adds, if any. *)
Definition number_check (x : number) (path : list string)
    (check : ZodNumberCheck) : list ZodIssue :=
  match check with
  | check_int =>
      if negb (isInteger x)
      then [{| code := invalid_type (expected_type zpt_integer) zpt_float;
               path := path |}]
      else []
  | check_min value inclusive =>
      let tooSmall := if inclusive then lt x value else le x value in
      if tooSmall
      then [{| code := too_small value inclusive; path := path |}] else []
  | check_max value inclusive =>
      let tooBig := if inclusive then gt x value else ge x value in
      if tooBig
      then [{| code := too_big value inclusive; path := path |}] else []
  end.

Definition invalid (code : ZodIssueCode) (path : list string)
    : Parsed JSValue :=
  (INVALID, [{| code := code; path := path |}]).

(** [ZodNumber._parse]: coercion by [Number], the type test, then every
    check in turn; a failed check adds its issue and dirties the status. *)
Definition ZodNumber_parse (coerce : bool) (checks : list ZodNumberCheck)
    (path : list string) (data : JSValue) : Parsed JSValue :=
  let data := if coerce then JNum (Number data) else data in
  match data with
  | JNum x =>
      if isNaN x then
        invalid (invalid_type (expected_type zpt_number) zpt_nan) path
      else
        match flat_map (number_check x path) checks with
        | [] => (OK data, [])
        | issues => (DIRTY data, issues)
        end
  | _ =>
      invalid (invalid_type (expected_type zpt_number) (getParsedType data))
        path
  end.

Fixpoint _parse (t : ZodType) (path : list string) (data : JSValue)
    : Parsed JSValue :=
  match t with
  | ZodString =>
      match data with
      | JStr _ => (OK data, [])
      | _ =>
          invalid
            (invalid_type (expected_type zpt_string) (getParsedType data))
            path
      end
  | ZodEnum values =>
      match data with
      | JStr s =>
          if bool_decide (s ∈ values) then (OK data, [])
          else invalid (invalid_enum_value data values) path
      | _ =>
          invalid
            (invalid_type (expected_values values) (getParsedType data))
            path
      end
  | ZodNumber coerce checks => ZodNumber_parse coerce checks path data
  | ZodDefault innerType defaultValue =>
      let data :=
        match data with JUndefined => defaultValue | _ => data end in
      _parse innerType path data
  end.

(** [ZodObject._parse]: every key of the shape is parsed, then the
    results are merged. *)
Record ParsedPair := {
  pair_key : string;
  pair_value : ParseReturn JSValue;
  alwaysSet : bool
}.

Definition object_pairs (o : ZodObject) (data : gmap string JSValue)
    : list (ParsedPair * list ZodIssue) :=
  map (fun '(key, keyValidator) =>
         let '(value, issues) :=
           _parse keyValidator [key] (default JUndefined (data !! key)) in
         ({| pair_key := key; pair_value := value;
             alwaysSet := bool_decide (is_Some (data !! key)) |}, issues))
      (shape o).

Definition set_property (entry : ParsedPair) (value : JSValue)
    (finalObject : JSObject) : JSObject :=
  if bool_decide (pair_key entry ≠ "__proto__")
     && (negb (bool_decide (value = JUndefined)) || alwaysSet entry)
  then (pair_key entry, value) :: finalObject else finalObject.

(** [ParseStatus.mergeObjectSync]. *)
Fixpoint mergeObjectSync (pairs : list ParsedPair) : ParseReturn JSObject :=
  match pairs with
  | [] => OK []
  | entry :: rest =>
      match pair_value entry with
      | INVALID => INVALID
      | OK value =>
          match mergeObjectSync rest with
          | INVALID => INVALID
          | OK finalObject => OK (set_property entry value finalObject)
          | DIRTY finalObject => DIRTY (set_property entry value finalObject)
          end
      | DIRTY value =>
          match mergeObjectSync rest with
          | INVALID => INVALID
          | OK finalObject | DIRTY finalObject =>
              DIRTY (set_property entry value finalObject)
          end
      end
  end.

Definition _parseObject (o : ZodObject) (data : gmap string JSValue)
    : Parsed JSObject :=
  let pairs := object_pairs o data in
  (mergeObjectSync (map fst pairs), concat (map snd pairs)).

Inductive SafeParseReturn :=
  | Success (data : JSObject)
  | Failure (issues : list ZodIssue).

Definition safeParse (o : ZodObject) (data : gmap string JSValue)
    : SafeParseReturn :=
  match _parseObject o data with
  | (OK value, _) => Success value
  | (_, issues) => Failure issues
  end.

End Zod.

(** The builders, named as in the source: [z.string()], [z.enum([...])],
    [z.coerce.number()], [.int()], [.min(n)], [.max(n)], [.default(v)],
    [z.object({...})]. *)
Module z.
Import JS Zod.

Definition string : ZodType := ZodString.
Definition enum (values : list jsstring) : ZodType := ZodEnum values.
Definition coerce_number : ZodType := ZodNumber true [].

Definition addCheck (check : ZodNumberCheck) (t : ZodType) : ZodType :=
  match t with
  | ZodNumber coerce checks => ZodNumber coerce (checks ++ [check])
  | _ => t
  end.

Definition int : ZodType -> ZodType := addCheck check_int.
Definition min (value : number) : ZodType -> ZodType :=
  addCheck (check_min value true).
Definition max (value : number) : ZodType -> ZodType :=
  addCheck (check_max value true).
Definition default (value : JSValue) (t : ZodType) : ZodType :=
  ZodDefault t value.
Definition object (shape : list (String.string * ZodType)) : ZodObject :=
  {| shape := shape |}.

End z.

(** Method chaining: [t |> z.min a |> z.max b] is [t.min(a).max(b)]. *)
Notation "t |> f" := (f t) (at level 45, left associativity, only parsing).

(** ** [src/components/StrategyForm.tsx] *)

Import JS Zod.

Definition StrategySchema : ZodObject := z.object [
  ("symbols", z.string |> z.default (JStr (js "EURUSD,GBPUSD")));
  ("timeframe",
   z.enum (map js ["M1"; "M5"; "M15"; "M30"; "H1"; "H4"; "D1"])
   |> z.default (JStr (js "M15")));
  ("riskPerTradePct",
   z.coerce_number |> z.min (int 0) |> z.max (int 10)
   |> z.default (JNum (int 1)));
  ("maxOpenPositions",
   z.coerce_number |> z.int |> z.min (int 1) |> z.max (int 20)
   |> z.default (JNum (int 3)));
  ("emaFast",
   z.coerce_number |> z.int |> z.min (int 2) |> z.max (int 200)
   |> z.default (JNum (int 50)));
  ("emaSlow",
   z.coerce_number |> z.int |> z.min (int 5) |> z.max (int 400)
   |> z.default (JNum (int 200)));
  ("rsiPeriod",
   z.coerce_number |> z.int |> z.min (int 2) |> z.max (int 50)
   |> z.default (JNum (int 14)));
  ("atrPeriod",
   z.coerce_number |> z.int |> z.min (int 5) |> z.max (int 100)
   |> z.default (JNum (int 14)));
  ("atrStopMultiplier",
   z.coerce_number |> z.min (dec 1 (-1)) |> z.max (int 10)
   |> z.default (JNum (dec 20 (-1))));
  ("takeProfitRMultiple",
   z.coerce_number |> z.min (dec 1 (-1)) |> z.max (int 10)
   |> z.default (JNum (dec 20 (-1))));
  ("trailingStopATR",
   z.coerce_number |> z.min (int 0) |> z.max (int 10)
   |> z.default (JNum (dec 15 (-1))));
  ("dailyLossLimitPct",
   z.coerce_number |> z.min (int 0) |> z.max (int 50)
   |> z.default (JNum (int 5)));
  ("maxDrawdownPct",
   z.coerce_number |> z.min (int 0) |> z.max (int 90)
   |> z.default (JNum (int 20)));
  ("liveTrading",
   z.enum (map js ["false"; "true"]) |> z.default (JStr (js "false")));
  ("magicNumber",
   z.coerce_number |> z.int |> z.min (int 1) |> z.max (int 999999)
   |> z.default (JNum (int 424242)))
].

(** Where the component is evaluated: in a browser the global [window]
    exists, during server-side rendering it does not. *)
Inductive Environment := Browser | Server.

Definition typeof_window (env : Environment) : string :=
  match env with
  | Browser => "object"
  | Server => "undefined"
  end.

(** The empty string. *)
Definition empty : jsstring := [].

(** [toBase64]; [None] is an exception thrown by [encodeURIComponent] or
    [btoa]. *)
Definition toBase64 (env : Environment) (json : JSObject) : option jsstring :=
  if bool_decide (typeof_window env = "undefined") then Some empty
  else
    uri ← encodeURIComponent (JSON_stringify json);
    btoa (unescape uri).

(** The initial state of the form. *)
Definition initial_form : gmap string JSValue :=
  list_to_map [
    ("symbols", JStr (js "EURUSD,GBPUSD"));
    ("timeframe", JStr (js "M15"));
    ("riskPerTradePct", JNum (int 1));
    ("maxOpenPositions", JNum (int 3));
    ("emaFast", JNum (int 50));
    ("emaSlow", JNum (int 200));
    ("rsiPeriod", JNum (int 14));
    ("atrPeriod", JNum (int 14));
    ("atrStopMultiplier", JNum (int 2));
    ("takeProfitRMultiple", JNum (int 2));
    ("trailingStopATR", JNum (dec 15 (-1)));
    ("dailyLossLimitPct", JNum (int 5));
    ("maxDrawdownPct", JNum (int 20));
    ("liveTrading", JStr (js "false"));
    ("magicNumber", JNum (int 424242))
  ].

(** [handleChange]: the edited field takes the text of the control. *)
Definition handleChange (name : string) (value : jsstring)
    (prev : gmap string JSValue) : gmap string JSValue :=
  <[name := JStr value]> prev.

Definition command_prefix : jsstring :=
  js "python mt5_connector/connector.py --config-b64 '".

(** What one render of [StrategyForm] derives from the state. *)
Record Rendered := { b64 : jsstring; pythonCmd : jsstring }.

Definition StrategyForm (env : Environment) (form : gmap string JSValue)
    : option Rendered :=
  let parsed := safeParse StrategySchema form in
  b64 ← match parsed with
        | Success data => toBase64 env data
        | Failure _ => Some empty
        end;
  let pythonCmd :=
    match parsed with
    | Success _ => command_prefix ++ b64 ++ js "'"
    | Failure _ => empty
    end in
  Some {| b64 := b64; pythonCmd := pythonCmd |}.

(** ** The executor's side of the payload *)

Module Connector.

(** Modelled from the spec: the position of a character in the base-64
    alphabet, for the decoder of the external executor (the Python
    connector is not among the sources). *)
Definition base64_index (c : Z) : option Z :=
  if (65 <=? c) && (c <=? 90) then Some (c - 65)
  else if (97 <=? c) && (c <=? 122) then Some (c - 71)
  else if (48 <=? c) && (c <=? 57) then Some (c + 4)
  else if c =? 43 then Some 62
  else if c =? 47 then Some 63
  else None.

(** Modelled from the spec: base-64 decoding of the payload by the
    external executor, four characters at a time, padding [=] only in the
    last group. *)
Fixpoint base64_decode (s : jsstring) : option (list Z) :=
  match s with
  | [] => Some []
  | c1 :: c2 :: c3 :: c4 :: r =>
      i1 ← base64_index c1;
      i2 ← base64_index c2;
      if (c4 =? 61) && bool_decide (r = []) then
        if c3 =? 61 then Some [i1 * 4 + i2 / 16]
        else
          i3 ← base64_index c3;
          Some [i1 * 4 + i2 / 16; i2 mod 16 * 16 + i3 / 4]
      else
        i3 ← base64_index c3;
        i4 ← base64_index c4;
        rest ← base64_decode r;
        Some (i1 * 4 + i2 / 16 :: i2 mod 16 * 16 + i3 / 4
              :: i3 mod 4 * 64 + i4 :: rest)
  | _ => None
  end.

(** Modelled from the spec: the UTF-16 code units of a code point, for the
    decoder of the external executor. *)
Definition utf16_units (cp : Z) : jsstring :=
  if cp <? 65536 then [cp]
  else [55296 + (cp - 65536) / 1024; 56320 + (cp - 65536) mod 1024].

(** Modelled from the spec: a continuation octet of UTF-8, for the decoder
    of the external executor. *)
Definition continuation (b : Z) : option Z :=
  if (128 <=? b) && (b <=? 191) then Some (b - 128) else None.

(** Modelled from the spec: UTF-8 decoding of the decoded octets by the
    external executor, into the text of the canonical serialization. *)
Fixpoint utf8_decode (bytes : list Z) : option jsstring :=
  match bytes with
  | [] => Some []
  | b0 :: r0 =>
      if b0 <? 128 then (b0 ::.) <$> utf8_decode r0
      else if b0 <? 192 then None
      else if b0 <? 224 then
        match r0 with
        | b1 :: r1 =>
            x1 ← continuation b1;
            (utf16_units ((b0 - 192) * 64 + x1) ++.) <$> utf8_decode r1
        | _ => None
        end
      else if b0 <? 240 then
        match r0 with
        | b1 :: b2 :: r2 =>
            x1 ← continuation b1;
            x2 ← continuation b2;
            (utf16_units ((b0 - 224) * 4096 + x1 * 64 + x2) ++.)
              <$> utf8_decode r2
        | _ => None
        end
      else if b0 <? 248 then
        match r0 with
        | b1 :: b2 :: b3 :: r3 =>
            x1 ← continuation b1;
            x2 ← continuation b2;
            x3 ← continuation b3;
            (utf16_units ((b0 - 240) * 262144 + x1 * 4096 + x2 * 64 + x3)
               ++.) <$> utf8_decode r3
        | _ => None
        end
      else None
  end.

(** Modelled from the spec: [decode], the executor's reading of the
    encoded payload back into the canonical serialization. *)
Definition decode (payload : jsstring) : option jsstring :=
  bytes ← base64_decode payload;
  utf8_decode bytes.

(** *** The structured data

    The executor parses the decoded text as structured data: an object
    whose members are strings, numbers and literals. *)

(** Modelled from the spec: insignificant white space of the structured
    data (space, tab, line feed, carriage return), for the parser of the
    external executor (the Python connector is not among the sources). *)
Definition is_ws (c : Z) : bool :=
  (c =? 32) || (c =? 9) || (c =? 10) || (c =? 13).

(** Modelled from the spec: the text after the white space it starts
    with. *)
Fixpoint skip_ws (s : jsstring) : jsstring :=
  match s with
  | c :: r => if is_ws c then skip_ws r else s
  | [] => []
  end.

(** Modelled from the spec: the exponent part of a number of the
    structured data, [e] or [E], an optional sign and digits; without
    one the exponent is 0. *)
Definition parse_exponent (s : jsstring) : option (Z * jsstring) :=
  match s with
  | c :: r =>
      if (c =? 101) || (c =? 69) then
        let '(neg, r') :=
          match r with
          | 43 :: t => (false, t)
          | 45 :: t => (true, t)
          | _ => (false, r)
          end in
        let '(ds, rest) := span_digits r' in
        match ds with
        | [] => None
        | _ =>
            Some (if neg then - digits_value 10 ds else digits_value 10 ds,
                  rest)
        end
      else Some (0, s)
  | [] => Some (0, [])
  end.

(** Modelled from the spec: a number of the structured data without its
    sign, read by the parser of the external executor: an integer part
    without a superfluous leading zero, an optional fraction and an
    optional exponent; its value is the decimal numeral rounded to the
    nearest binary64 value.  The result holds the text that follows. *)
Definition parse_unsigned (s : jsstring) : option (number * jsstring) :=
  let '(ip, s2) := span_digits s in
  match ip with
  | [] => None
  | d0 :: ip' =>
      if (d0 =? 0) && negb (bool_decide (ip' = [])) then None
      else
        '(fp, s3) ←
          match s2 with
          | 46 :: r =>
              let '(fp, s3) := span_digits r in
              match fp with
              | [] => None
              | _ => Some (fp, s3)
              end
          | _ => Some ([], s2)
          end;
        '(e, s4) ← parse_exponent s3;
        Some (dec (digits_value 10 (ip ++ fp)) (e - Z.of_nat (length fp)),
              s4)
  end.

(** Modelled from the spec: a number of the structured data, with its
    optional minus sign. *)
Definition parse_number (s : jsstring) : option (number * jsstring) :=
  match s with
  | 45 :: r => '(x, rest) ← parse_unsigned r; Some (SFopp x, rest)
  | _ => parse_unsigned s
  end.

(** Modelled from the spec: the character a two-character escape of a
    string stands for. *)
Definition escape (c : Z) : option Z :=
  if c =? 34 then Some 34
  else if c =? 92 then Some 92
  else if c =? 47 then Some 47
  else if c =? 98 then Some 8
  else if c =? 102 then Some 12
  else if c =? 110 then Some 10
  else if c =? 114 then Some 13
  else if c =? 116 then Some 9
  else None.

(** Modelled from the spec: the code unit that the four hexadecimal
    digits of a [\u] escape stand for. *)
Definition hex4 (a b c d : Z) : option Z :=
  x1 ← digit_value 16 a;
  x2 ← digit_value 16 b;
  x3 ← digit_value 16 c;
  x4 ← digit_value 16 d;
  Some (4096 * x1 + 256 * x2 + 16 * x3 + x4).

(** Modelled from the spec: the characters of a string of the structured
    data up to its closing quote, read by the parser of the external
    executor; an escape stands for its code unit, a control character
    must be escaped.  The result holds the text after the quote. *)
Fixpoint parse_chars (s : jsstring) : option (jsstring * jsstring) :=
  match s with
  | [] => None
  | c :: r =>
      if c =? 34 then Some ([], r)
      else if c =? 92 then
        match r with
        | e :: r' =>
            if e =? 117 then
              match r' with
              | h1 :: h2 :: h3 :: h4 :: r'' =>
                  u ← hex4 h1 h2 h3 h4;
                  '(t, rest) ← parse_chars r'';
                  Some (u :: t, rest)
              | _ => None
              end
            else
              u ← escape e;
              '(t, rest) ← parse_chars r';
              Some (u :: t, rest)
        | [] => None
        end
      else if c <? 32 then None
      else
        '(t, rest) ← parse_chars r;
        Some (c :: t, rest)
  end.

(** Modelled from the spec: a value of the structured data: a string, a
    number or one of the literals [true], [false] and [null]. *)
Definition parse_value (s : jsstring) : option (JSValue * jsstring) :=
  match s with
  | 34 :: r => '(t, rest) ← parse_chars r; Some (JStr t, rest)
  | 116 :: 114 :: 117 :: 101 :: r => Some (JBool true, r)
  | 102 :: 97 :: 108 :: 115 :: 101 :: r => Some (JBool false, r)
  | 110 :: 117 :: 108 :: 108 :: r => Some (JNull, r)
  | _ => '(x, rest) ← parse_number s; Some (JNum x, rest)
  end.

(** Modelled from the spec: the members of an object of the structured
    data, each a string, a colon and a value, separated by commas, up to
    the closing brace that ends the text. *)
Fixpoint parse_members (fuel : nat) (s : jsstring)
    : option (list (jsstring * JSValue)) :=
  match fuel with
  | O => None
  | S fuel' =>
      match skip_ws s with
      | 34 :: r =>
          '(k, s1) ← parse_chars r;
          match skip_ws s1 with
          | 58 :: s2 =>
              '(v, s3) ← parse_value (skip_ws s2);
              match skip_ws s3 with
              | 44 :: s4 =>
                  rest ← parse_members fuel' s4;
                  Some ((k, v) :: rest)
              | 125 :: s4 =>
                  if bool_decide (skip_ws s4 = []) then Some [(k, v)]
                  else None
              | _ => None
              end
          | _ => None
          end
      | _ => None
      end
  end.

(** Modelled from the spec: [parse], the executor's reading of the
    canonical serialization as structured data: an object whose members
    are strings and numbers, as the list of its members in the order of
    the text. *)
Definition parse (text : jsstring) : option (list (jsstring * JSValue)) :=
  match skip_ws text with
  | 123 :: s =>
      match skip_ws s with
      | 125 :: r => if bool_decide (skip_ws r = []) then Some [] else None
      | _ => parse_members (length s) s
      end
  | _ => None
  end.

End Connector.

(** ** Well-formed values *)

(** [String.prototype.isWellFormed]: no unpaired surrogate. *)
Inductive WellFormed : jsstring -> Prop :=
  | WellFormed_nil : WellFormed []
  | WellFormed_unit c s :
      is_char16 c = true -> is_lead c = false -> is_trail c = false ->
      WellFormed s -> WellFormed (c :: s)
  | WellFormed_pair c d s :
      is_lead c = true -> is_trail d = true ->
      WellFormed s -> WellFormed (c :: d :: s).

(** The strings of a value are sequences of 16-bit code units. *)
Definition wf_value (v : JSValue) : Prop :=
  match v with
  | JStr s => wf_jsstring s
  | _ => True
  end.

Definition wf_form (form : gmap string JSValue) : Prop :=
  map_Forall (fun _ v => wf_value v) form.

Definition wf_object (o : JSObject) : Prop :=
  Forall (fun kv => wf_value kv.2) o.

(** The characters of a base-64 payload: [A-Za-z0-9+/=]. *)
Definition base64_alphabet (c : Z) : bool :=
  ((65 <=? c) && (c <=? 90)) || ((97 <=? c) && (c <=? 122))
  || ((48 <=? c) && (c <=? 57)) || (c =? 43) || (c =? 47) || (c =? 61).

(** Line terminators: line feed and carriage return. *)
Definition line_break (c : Z) : bool := (c =? 10) || (c =? 13).

(** The strings of a schema's default values are well formed too. *)
Fixpoint wf_type (t : ZodType) : Prop :=
  match t with
  | ZodDefault innerType defaultValue =>
      wf_value defaultValue /\ wf_type innerType
  | _ => True
  end.

(** ** The schema, field by field *)

Definition keys (o : ZodObject) : list string := map fst (shape o).

(** No key of the shape is [__proto__], which the merge would drop. *)
Definition no_proto (o : ZodObject) : Prop :=
  Forall (fun kt : string * ZodType => kt.1 <> "__proto__") (shape o).

(** What the validator of one key returns on the input. *)
Definition field_result (data : gmap string JSValue)
    (kt : string * ZodType) : Parsed JSValue :=
  _parse kt.2 [kt.1] (default JUndefined (data !! kt.1)).

Definition field_issues (o : ZodObject) (data : gmap string JSValue)
    (key : string) : list ZodIssue :=
  match find (fun kt => bool_decide (kt.1 = key)) (shape o) with
  | Some kt => (field_result data kt).2
  | None => []
  end.

(** ** The vocabulary of the specification *)

(** The error taxonomy of the specification, and the zod issue codes it
    classifies. *)
Inductive ErrorKind := CoercionError | RangeError | MembershipError.

Definition error_kind (i : ZodIssue) : ErrorKind :=
  match code i with
  | invalid_type _ _ => CoercionError
  | too_small _ _ | too_big _ _ => RangeError
  | invalid_enum_value _ _ => MembershipError
  end.

(** The documented default configuration. *)
Definition default_config : JSObject := [
  ("symbols", JStr (js "EURUSD,GBPUSD"));
  ("timeframe", JStr (js "M15"));
  ("riskPerTradePct", JNum (int 1));
  ("maxOpenPositions", JNum (int 3));
  ("emaFast", JNum (int 50));
  ("emaSlow", JNum (int 200));
  ("rsiPeriod", JNum (int 14));
  ("atrPeriod", JNum (int 14));
  ("atrStopMultiplier", JNum (int 2));
  ("takeProfitRMultiple", JNum (int 2));
  ("trailingStopATR", JNum (dec 15 (-1)));
  ("dailyLossLimitPct", JNum (int 5));
  ("maxDrawdownPct", JNum (int 20));
  ("liveTrading", JStr (js "false"));
  ("magicNumber", JNum (int 424242))
].

(** The documented closed interval of every bounded numeric field. *)
Definition bounds : list (string * (number * number)) := [
  ("riskPerTradePct", (int 0, int 10));
  ("maxOpenPositions", (int 1, int 20));
  ("emaFast", (int 2, int 200));
  ("emaSlow", (int 5, int 400));
  ("rsiPeriod", (int 2, int 50));
  ("atrPeriod", (int 5, int 100));
  ("atrStopMultiplier", (dec 1 (-1), int 10));
  ("takeProfitRMultiple", (dec 1 (-1), int 10));
  ("trailingStopATR", (int 0, int 10));
  ("dailyLossLimitPct", (int 0, int 50));
  ("maxDrawdownPct", (int 0, int 90));
  ("magicNumber", (int 1, int 999999))
].

Definition numeric_fields : list string := map fst bounds.

(** The documented token sets of the enumeration fields. *)
Definition timeframe_tokens : list jsstring :=
  map js ["M1"; "M5"; "M15"; "M30"; "H1"; "H4"; "D1"].

Definition liveTrading_tokens : list jsstring := map js ["false"; "true"].


(** [x - 1] and [x + 1] on Numbers. *)
Definition pred_unit (x : number) : number := SFsub prec emax x (int 1).
Definition succ_unit (x : number) : number := SFadd prec emax x (int 1).

(** ** More of [src/components/StrategyForm.tsx] *)

(** The fields whose schema has [.int()]. *)
Definition integer_fields : list string :=
  ["maxOpenPositions"; "emaFast"; "emaSlow"; "rsiPeriod"; "atrPeriod";
   "magicNumber"].

(** What a check of a number schema tests: the check adds no issue
    exactly when this holds. *)
Definition check_passes (x : number) (check : ZodNumberCheck) : Prop :=
  match check with
  | check_int => isInteger x = true
  | check_min value inclusive =>
      (if inclusive then lt x value else le x value) = false
  | check_max value inclusive =>
      (if inclusive then gt x value else ge x value) = false
  end.

(** The checks of a bounded numeric field, in the order the schema chains
    them: [.int()] for an integer field, then [.min(lo)] and [.max(hi)]. *)
Definition field_checks (f : string) (lo hi : number)
    : list ZodNumberCheck :=
  (if bool_decide (f ∈ integer_fields) then [check_int] else [])
  ++ [check_min lo true; check_max hi true].

(** The enumeration fields, with their token sets. *)
Definition enum_fields : list (string * list jsstring) :=
  [("timeframe", timeframe_tokens); ("liveTrading", liveTrading_tokens)].

(** What an issue tells of the field [k] whose raw value is [v]: the
    path is the field, and the code is a constraint of that field that
    [v] violates.  A type issue holds the type that was expected and the
    type that was received (after coercion, for a number), a range issue
    the bound, and a membership issue the token set and, as [received],
    the raw value itself. *)
Definition identifies (k : string) (v : JSValue) (i : ZodIssue) : Prop :=
  path i = [k]
  /\ match code i with
     | invalid_type (expected_type zpt_number) received =>
         k ∈ numeric_fields /\ received = zpt_nan
         /\ isNaN (Number v) = true
     | invalid_type (expected_type zpt_integer) received =>
         k ∈ integer_fields /\ received = zpt_float
         /\ isNaN (Number v) = false /\ isInteger (Number v) = false
     | invalid_type (expected_type zpt_string) received =>
         k = "symbols" /\ received = getParsedType v
         /\ received <> zpt_string
     | invalid_type (expected_type _) _ => False
     | invalid_type (expected_values options) received =>
         (k, options) ∈ enum_fields /\ received = getParsedType v
         /\ received <> zpt_string
     | invalid_enum_value received options =>
         (k, options) ∈ enum_fields /\ received = v
         /\ exists s, v = JStr s /\ s ∉ options
     | too_small minimum inclusive =>
         inclusive = true /\ (exists hi, (k, (minimum, hi)) ∈ bounds)
         /\ lt (Number v) minimum = true
     | too_big maximum inclusive =>
         inclusive = true /\ (exists lo, (k, (lo, maximum)) ∈ bounds)
         /\ gt (Number v) maximum = true
     end.

(** The [name] of every control of the form, in the order the component
    renders them. *)
Definition control_names : list string :=
  ["symbols"; "timeframe"; "riskPerTradePct"; "maxOpenPositions";
   "dailyLossLimitPct"; "maxDrawdownPct"; "emaFast"; "emaSlow"; "rsiPeriod";
   "atrPeriod"; "atrStopMultiplier"; "takeProfitRMultiple";
   "trailingStopATR"; "liveTrading"; "magicNumber"].

(** The [value] of every [option] of the two selects. *)
Definition timeframe_options : list string :=
  ["M1"; "M5"; "M15"; "M30"; "H1"; "H4"; "D1"].

Definition liveTrading_options : list string := ["false"; "true"].

(** Change events, handled one after the other: each one calls
    [handleChange], whose updater receives the state the previous one
    left. *)
Definition apply_changes (events : list (string * jsstring))
    (form : gmap string JSValue) : gmap string JSValue :=
  foldl (fun prev e => handleChange e.1 e.2 prev) form events.

(** What [JSON.stringify] writes as it is: a string, or a number that is
    finite (any other number is written [null], and [undefined] drops
    the member). *)
Definition isFinite (x : number) : bool :=
  match x with
  | S754_zero _ | S754_finite _ _ _ => true
  | _ => false
  end.

Definition written_as_is (v : JSValue) : bool :=
  match v with
  | JStr _ => true
  | JNum x => isFinite x
  | _ => false
  end.

(** A number validator with an inclusive finite minimum and an inclusive
    finite maximum among its checks; every field of a schema that is
    [closed] has such a validator, a string or an enumeration. *)
Definition bounded_checks (checks : list ZodNumberCheck) : bool :=
  existsb (fun check => match check with
                        | check_min value true => isFinite value
                        | _ => false
                        end) checks
  && existsb (fun check => match check with
                           | check_max value true => isFinite value
                           | _ => false
                           end) checks.

Fixpoint closed (t : ZodType) : bool :=
  match t with
  | ZodNumber _ checks => bounded_checks checks
  | ZodDefault innerType _ => closed innerType
  | _ => true
  end.

(** ** [src/components/Field.tsx]: the class names *)

Module Field.

(** ToBoolean on primitives. *)
Definition truthy (v : JSValue) : bool :=
  match v with
  | JUndefined | JNull => false
  | JBool b => b
  | JNum x =>
      match x with
      | S754_zero _ | S754_nan => false
      | _ => true
      end
  | JStr s => negb (bool_decide (s = []))
  end.

(** [toVal] of clsx on a primitive: strings and numbers contribute their
    text, anything else nothing. *)
Definition toVal (mix : JSValue) : jsstring :=
  match mix with
  | JStr s => s
  | JNum x => js (Number_toString x)
  | _ => []
  end.

(** The loop of [clsx] over its arguments, [str] being the result so
    far. *)
Fixpoint clsx_from (str : jsstring) (args : list JSValue) : jsstring :=
  match args with
  | [] => str
  | tmp :: rest =>
      if truthy tmp then
        match toVal tmp with
        | [] => clsx_from str rest
        | x =>
            clsx_from
              ((match str with [] => str | _ => str ++ [32] end) ++ x) rest
        end
      else clsx_from str rest
  end.

Definition clsx (args : list JSValue) : jsstring := clsx_from [] args.

Definition Input_classes : jsstring :=
  js ("w-full rounded-md bg-slate-800 border border-slate-700 px-3 py-2 "
      +:+ "text-slate-100 placeholder-slate-400 focus:outline-none "
      +:+ "focus:ring-2 focus:ring-indigo-500").

Definition Select_classes : jsstring :=
  js ("w-full rounded-md bg-slate-800 border border-slate-700 px-3 py-2 "
      +:+ "text-slate-100 focus:outline-none focus:ring-2 "
      +:+ "focus:ring-indigo-500").

(** The [className] that [Input], [Select] and [TextArea] give their
    element, from the [className] of their props ([undefined] when the
    caller passes none). *)
Definition Input_className (className : JSValue) : jsstring :=
  clsx [JStr Input_classes; className].

Definition Select_className (className : JSValue) : jsstring :=
  clsx [JStr Select_classes; className].

Definition TextArea_className (className : JSValue) : jsstring :=
  clsx [JStr Input_classes; className].

End Field.

(** ** Numbers as ratios, and their text *)

(** The place of [a / b] between two consecutive integers. *)
Definition location_of (a b : Z) : location :=
  if a mod b =? 0 then loc_Exact else loc_Inexact (2 * (a mod b) ?= b).

(** The ratio [N / D] of two positive integers rounded to the nearest
    Number, ties to even. *)
Definition round_ratio (N D : Z) : number :=
  binary_round_aux prec emax false (N * 2 ^ 1074 / D) (-1074)
    (location_of (N * 2 ^ 1074) D).

(** What a location says of a remainder [r] of a division by [b]. *)
Definition place (r b : Z) (l : location) : Prop :=
  match l with
  | loc_Exact => r = 0
  | loc_Inexact Lt => 0 < r /\ 2 * r < b
  | loc_Inexact Eq => 0 < r /\ 2 * r = b
  | loc_Inexact Gt => b < 2 * r
  end.

(** A record holds the floor of [a / b] and its place above the floor. *)
Definition holds (mrs : shr_record) (a b : Z) : Prop :=
  shr_m mrs = a / b /\ loc_of_shr_record mrs = location_of a b.

(** The end of [binary_round_aux]: a rounded significand [m] at the
    exponent [e] is made canonical again and checked for overflow. *)
Definition finish_round (m e : Z) : number :=
  let '(mrs, e') := shr_fexp prec emax m e loc_Exact in
  match shr_m mrs with
  | Z0 => S754_zero false
  | Zpos p =>
      if e' <=? emax - prec then S754_finite false p e'
      else S754_infinity false
  | Zneg _ => S754_nan
  end.

(** A Number that is a binary64 value.  The type [spec_float] holds any
    significand with any exponent; the Numbers of JavaScript are those
    that [valid_binary] accepts: a finite one has a significand of at
    most 53 bits, of exactly 53 bits unless the exponent is the smallest,
    and an exponent in range. *)
Definition binary64 (x : number) : Prop := valid_binary prec emax x = true.

(** The digits of a decimal numeral, the most significant first. *)
Fixpoint udigits (d : Decimal.uint) : list Z :=
  match d with
  | Decimal.Nil => []
  | Decimal.D0 l => 0 :: udigits l
  | Decimal.D1 l => 1 :: udigits l
  | Decimal.D2 l => 2 :: udigits l
  | Decimal.D3 l => 3 :: udigits l
  | Decimal.D4 l => 4 :: udigits l
  | Decimal.D5 l => 5 :: udigits l
  | Decimal.D6 l => 6 :: udigits l
  | Decimal.D7 l => 7 :: udigits l
  | Decimal.D8 l => 8 :: udigits l
  | Decimal.D9 l => 9 :: udigits l
  end.

(** The decimal digits of a natural number, as [Z_digits] writes them. *)
Definition decimal (z : Z) : list Z := udigits (N.to_uint (Z.to_N z)).

(** The character of a digit. *)
Definition digit_char (v : Z) : Z := 48 + v.

(** ** Reading the serialization back *)

(** Equality of two primitive values, as [===] has it: numbers are
    compared as numbers ([+0] and [-0] are equal, [NaN] differs from
    itself), the others are equal when they are the same. *)
Definition strict_equal (v w : JSValue) : bool :=
  match v, w with
  | JNum x, JNum y => SFeqb x y
  | JNum _, _ | _, JNum _ => false
  | _, _ => bool_decide (v = w)
  end.

(** Two objects that are equal field for field: the same keys in the same
    order, with equal values. *)
Definition same_fields (c : JSObject) (doc : list (jsstring * JSValue))
    : Prop :=
  Forall2 (fun kv kw => js kv.1 = kw.1 /\ strict_equal kv.2 kw.2 = true)
    c doc.

(** The numbers of a value and of a form are binary64 values, as every
    Number of JavaScript is. *)
Definition binary64_value (v : JSValue) : Prop :=
  match v with
  | JNum x => binary64 x
  | _ => True
  end.

Definition binary64_form (form : gmap string JSValue) : Prop :=
  map_Forall (fun _ v => binary64_value v) form.

(** A list of decimal digits. *)
Definition is_digits (L : list Z) : Prop := Forall (fun v => 0 <= v <= 9) L.

(** A text that does not go on with a digit, and one that does not go on
    with a part of a number. *)
Definition no_digit (t : jsstring) : Prop :=
  match t with
  | c :: _ => is_digit c = false
  | [] => True
  end.

Definition number_end (t : jsstring) : Prop :=
  match t with
  | c :: _ => is_digit c = false /\ c <> 46 /\ c <> 101 /\ c <> 69
  | [] => True
  end.

(** The values of a validated configuration. *)
Definition readable (kv : string * JSValue) : Prop :=
  wf_value kv.2 /\ binary64_value kv.2 /\ written_as_is kv.2 = true.

(** The default values of a schema are binary64 values too. *)
Fixpoint binary64_type (t : ZodType) : Prop :=
  match t with
  | ZodDefault innerType defaultValue =>
      binary64_value defaultValue /\ binary64_type innerType
  | _ => True
  end.

(** * Proofs *)

(** Case analysis on the integer comparisons of the goal. *)
Ltac cases_Z :=
  repeat (match goal with
          | |- context [?a <? ?b] => destruct (Z.ltb_spec a b)
          | |- context [?a <=? ?b] => destruct (Z.leb_spec a b)
          | |- context [?a =? ?b] => destruct (Z.eqb_spec a b)
          end; try lia);
  simpl; try lia.

Ltac arith := Z.div_mod_to_equations; lia.

Section Encoding.

Lemma digit_value_hex_upper v :
  0 <= v < 16 -> digit_value 16 (hex_upper v) = Some v.
Proof.
  intros Hv. unfold digit_value, hex_upper.
  destruct (Z.ltb_spec v 10).
  - replace ((48 <=? 48 + v) && (48 + v <=? 57)) with true
      by (symmetry; apply andb_true_iff; lia).
    replace (48 + v - 48 <? 16) with true by lia. f_equal; lia.
  - replace ((48 <=? 55 + v) && (55 + v <=? 57)) with false
      by (symmetry; apply andb_false_iff; lia).
    replace ((97 <=? 55 + v) && (55 + v <=? 102)) with false
      by (symmetry; apply andb_false_iff; lia).
    replace ((65 <=? 55 + v) && (55 + v <=? 70)) with true
      by (symmetry; apply andb_true_iff; lia).
    replace (55 + v - 55 <? 16) with true by lia. f_equal; lia.
Qed.

Lemma hex2_percent b :
  0 <= b < 256 -> hex2 (hex_upper (b / 16)) (hex_upper (b mod 16)) = Some b.
Proof.
  intros Hb. unfold hex2.
  rewrite !digit_value_hex_upper by arith. simpl. f_equal. arith.
Qed.

Lemma hex_upper_not_u v : 0 <= v < 16 -> (hex_upper v =? 117) = false.
Proof. intros Hv. unfold hex_upper. cases_Z. Qed.

Lemma unescape_percent_octet b t :
  0 <= b < 256 ->
  unescape_percent (hex_upper (b / 16) :: hex_upper (b mod 16) :: t)
  = (b, 2%nat).
Proof.
  intros Hb. unfold unescape_percent.
  destruct t as [|x [|y [|w t]]];
    rewrite ?hex_upper_not_u by arith; rewrite hex2_percent by lia; reflexivity.
Qed.

Lemma unescape_from_octets bs t :
  Forall (fun b => 0 <= b < 256) bs ->
  unescape_from 0 (concat (map percent_octet bs) ++ t)
  = bs ++ unescape_from 0 t.
Proof.
  induction 1 as [|b bs Hb _ IH]; [reflexivity|].
  cbn [map concat percent_octet app unescape_from].
  rewrite Z.eqb_refl, unescape_percent_octet by lia.
  cbn [unescape_from]. by rewrite IH.
Qed.


Lemma utf8_octets_bytes cp :
  0 <= cp < 1114112 -> Forall (fun b => 0 <= b < 256) (utf8_octets cp).
Proof.
  intros Hcp. unfold utf8_octets.
  cases_Z; repeat constructor; arith.
Qed.

Lemma continuation_octet x :
  0 <= x < 64 -> Connector.continuation (128 + x) = Some x.
Proof.
  intros Hx. unfold Connector.continuation. cases_Z. f_equal; lia.
Qed.

Lemma utf8_decode_octets cp rest :
  0 <= cp < 1114112 ->
  Connector.utf8_decode (utf8_octets cp ++ rest)
  = (Connector.utf16_units cp ++.) <$> Connector.utf8_decode rest.
Proof.
  intros Hcp. unfold utf8_octets.
  destruct (Z.ltb_spec cp 128); [|destruct (Z.ltb_spec cp 2048);
    [|destruct (Z.ltb_spec cp 65536)]];
    cbn [app Connector.utf8_decode].
  - replace (cp <? 128) with true by lia.
    unfold Connector.utf16_units. replace (cp <? 65536) with true by lia.
    reflexivity.
  - replace (192 + cp / 64 <? 128) with false by arith.
    replace (192 + cp / 64 <? 192) with false by arith.
    replace (192 + cp / 64 <? 224) with true by arith.
    rewrite continuation_octet by arith. cbn [mbind option_bind].
    do 2 f_equal. f_equal. arith.
  - replace (224 + cp / 4096 <? 128) with false by arith.
    replace (224 + cp / 4096 <? 192) with false by arith.
    replace (224 + cp / 4096 <? 224) with false by arith.
    replace (224 + cp / 4096 <? 240) with true by arith.
    rewrite !continuation_octet by arith. cbn [mbind option_bind].
    do 2 f_equal. f_equal. arith.
  - replace (240 + cp / 262144 <? 128) with false by arith.
    replace (240 + cp / 262144 <? 192) with false by arith.
    replace (240 + cp / 262144 <? 224) with false by arith.
    replace (240 + cp / 262144 <? 240) with false by arith.
    replace (240 + cp / 262144 <? 248) with true by arith.
    rewrite !continuation_octet by arith. cbn [mbind option_bind].
    do 2 f_equal. f_equal. arith.
Qed.

Lemma utf16_units_pair c d :
  is_lead c = true -> is_trail d = true ->
  Connector.utf16_units (pair_code_point c d) = [c; d].
Proof.
  unfold is_lead, is_trail, Connector.utf16_units, pair_code_point.
  intros [Hc1 Hc2]%andb_true_iff [Hd1 Hd2]%andb_true_iff.
  replace (_ <? 65536) with false by lia.
  f_equal; [|f_equal]; arith.
Qed.

Lemma pair_code_point_range c d :
  is_lead c = true -> is_trail d = true ->
  65536 <= pair_code_point c d < 1114112.
Proof.
  unfold is_lead, is_trail, pair_code_point.
  intros [Hc1 Hc2]%andb_true_iff [Hd1 Hd2]%andb_true_iff. lia.
Qed.

Lemma uriUnreserved_ascii c :
  uriUnreserved c = true -> 0 <= c < 128 /\ c <> 37.
Proof.
  unfold uriUnreserved.
  rewrite !orb_true_iff, !andb_true_iff, !Z.leb_le, !Z.eqb_eq. lia.
Qed.

(** On a well-formed string [encodeURIComponent] does not throw, and
    [unescape] turns its result into the UTF-8 octets of the string, which
    decode to the string. *)
Lemma unescape_encodeURIComponent s :
  WellFormed s ->
  exists uri,
    encodeURIComponent s = Some uri
    /\ Forall (fun b => 0 <= b < 256) (unescape uri)
    /\ Connector.utf8_decode (unescape uri) = Some s.
Proof.
  unfold unescape.
  induction 1 as [|c s Hc Hl Ht _ (uri & He & Hb & Hd)
                  |c d s Hl Ht _ (uri & He & Hb & Hd)].
  - by exists [].
  - cbn [encodeURIComponent]. rewrite Hl, Ht, He.
    assert (0 <= c < 65536) by (unfold is_char16 in Hc; lia).
    destruct (uriUnreserved c) eqn:Hu.
    + apply uriUnreserved_ascii in Hu as [? ?].
      eexists; split; [reflexivity|].
      cbn [unescape_from]. replace (c =? 37) with false by lia.
      split; [constructor; [lia|done]|].
      cbn [Connector.utf8_decode]. replace (c <? 128) with true by lia.
      by rewrite Hd.
    + eexists; split; [reflexivity|]. unfold percent_encode.
      rewrite unescape_from_octets by (apply utf8_octets_bytes; lia).
      split; [apply Forall_app; split; [apply utf8_octets_bytes; lia|done]|].
      rewrite utf8_decode_octets, Hd by lia.
      unfold Connector.utf16_units. by replace (c <? 65536) with true by lia.
  - cbn [encodeURIComponent]. rewrite Hl, Ht, He.
    assert (uriUnreserved c = false) as ->.
    { apply not_true_is_false. intros [? ?]%uriUnreserved_ascii.
      unfold is_lead in Hl. lia. }
    pose proof (pair_code_point_range c d Hl Ht).
    eexists; split; [reflexivity|]. unfold percent_encode.
    rewrite unescape_from_octets by (apply utf8_octets_bytes; lia).
    split; [apply Forall_app; split; [apply utf8_octets_bytes; lia|done]|].
    rewrite utf8_decode_octets, Hd by lia.
    by rewrite utf16_units_pair.
Qed.


Lemma base64_index_char i :
  0 <= i < 64 -> Connector.base64_index (base64_char i) = Some i.
Proof.
  intros Hi. unfold base64_char.
  destruct (Z.ltb_spec i 26); [|destruct (Z.ltb_spec i 52);
    [|destruct (Z.ltb_spec i 62); [|destruct (Z.eqb_spec i 62)]]];
    unfold Connector.base64_index; cases_Z; f_equal; lia.
Qed.

Lemma base64_char_alphabet i :
  0 <= i < 64 ->
  base64_alphabet (base64_char i) = true /\ (base64_char i =? 61) = false.
Proof.
  intros Hi. unfold base64_char.
  destruct (Z.ltb_spec i 26); [|destruct (Z.ltb_spec i 52);
    [|destruct (Z.ltb_spec i 62); [|destruct (Z.eqb_spec i 62)]]];
    unfold base64_alphabet; split; cases_Z.
Qed.

Lemma list_ind3 {A} (P : list A -> Prop) :
  P [] -> (forall a, P [a]) -> (forall a b, P [a; b]) ->
  (forall a b c r, P r -> P (a :: b :: c :: r)) ->
  forall l, P l.
Proof.
  intros H0 H1 H2 H3 l.
  cut (P l /\ (forall a, P (a :: l)) /\ (forall a b, P (a :: b :: l)));
    [tauto|].
  induction l as [|x l (IH0 & IH1 & IH2)]; auto.
Qed.

Lemma base64_decode_encode bytes :
  Forall (fun b => 0 <= b < 256) bytes ->
  Connector.base64_decode (base64_encode bytes) = Some bytes.
Proof.
  induction bytes as [|a|a b|a b c r IH] using list_ind3; intros Hb.
  - reflexivity.
  - apply Forall_cons in Hb as [Ha _].
    cbn [base64_encode Connector.base64_decode].
    rewrite !base64_index_char by arith. cbn.
    do 2 f_equal. arith.
  - apply Forall_cons in Hb as [Ha [Hb _]%Forall_cons].
    cbn [base64_encode Connector.base64_decode].
    rewrite !base64_index_char by arith. cbn [mbind option_bind].
    rewrite Z.eqb_refl, bool_decide_eq_true_2 by done. cbn [andb].
    rewrite (proj2 (base64_char_alphabet (b mod 16 * 4) ltac:(arith))).
    rewrite ?base64_index_char by arith. cbn [mbind option_bind].
    do 2 f_equal; [|f_equal]; arith.
  - apply Forall_cons in Hb as [Ha [Hb [Hc Hr]%Forall_cons]%Forall_cons].
    cbn [base64_encode app Connector.base64_decode].
    rewrite !base64_index_char by arith. cbn [mbind option_bind].
    rewrite (proj2 (base64_char_alphabet (c mod 64) ltac:(arith))).
    cbn [andb]. rewrite ?base64_index_char by arith.
    cbn [mbind option_bind]. rewrite IH by done. cbn [mbind option_bind].
    do 2 f_equal; [|f_equal; [|f_equal]]; arith.
Qed.

Lemma base64_encode_alphabet bytes :
  Forall (fun b => 0 <= b < 256) bytes ->
  forallb base64_alphabet (base64_encode bytes) = true.
Proof.
  induction bytes as [|a|a b|a b c r IH] using list_ind3; intros Hb.
  - reflexivity.
  - apply Forall_cons in Hb as [Ha _]. cbn [base64_encode forallb].
    rewrite (proj1 (base64_char_alphabet (a / 4) ltac:(arith))).
    rewrite (proj1 (base64_char_alphabet (a mod 4 * 16) ltac:(arith))).
    reflexivity.
  - apply Forall_cons in Hb as [Ha [Hb _]%Forall_cons].
    cbn [base64_encode forallb].
    rewrite (proj1 (base64_char_alphabet (a / 4) ltac:(arith))).
    rewrite (proj1 (base64_char_alphabet (a mod 4 * 16 + b / 16) ltac:(arith))).
    rewrite (proj1 (base64_char_alphabet (b mod 16 * 4) ltac:(arith))).
    reflexivity.
  - apply Forall_cons in Hb as [Ha [Hb [Hc Hr]%Forall_cons]%Forall_cons].
    cbn [base64_encode app forallb].
    rewrite (proj1 (base64_char_alphabet (a / 4) ltac:(arith))).
    rewrite (proj1 (base64_char_alphabet (a mod 4 * 16 + b / 16) ltac:(arith))).
    rewrite (proj1 (base64_char_alphabet (b mod 16 * 4 + c / 64) ltac:(arith))).
    rewrite (proj1 (base64_char_alphabet (c mod 64) ltac:(arith))).
    by rewrite IH.
Qed.

Lemma btoa_bytes data :
  Forall (fun b => 0 <= b < 256) data -> btoa data = Some (base64_encode data).
Proof.
  intros Hb. unfold btoa.
  assert (forallb is_byte data = true) as ->; [|done].
  apply forallb_forall. intros b Hin%list_elem_of_In.
  rewrite Forall_forall in Hb. specialize (Hb b Hin).
  unfold is_byte. lia.
Qed.


(** *** The serialization is well formed *)

Lemma WellFormed_below s :
  Forall (fun c => 0 <= c < 55296) s -> WellFormed s.
Proof.
  induction 1 as [|c s Hc _ IH]; constructor; try done;
    unfold is_char16, is_lead, is_trail; lia.
Qed.

Lemma WellFormed_app s t : WellFormed s -> WellFormed t -> WellFormed (s ++ t).
Proof.
  induction 1; intros; cbn [app];
    [done|apply WellFormed_unit; auto|apply WellFormed_pair; auto].
Qed.

Lemma WellFormed_cons_ascii c s :
  0 <= c < 128 -> WellFormed s -> WellFormed (c :: s).
Proof.
  intros Hc Hs.
  constructor; [..|done]; unfold is_char16, is_lead, is_trail; lia.
Qed.

Lemma js_ascii str : Forall (fun c => 0 <= c < 256) (js str).
Proof.
  unfold js. apply Forall_map, Forall_forall. intros a _. cbn.
  pose proof (N_ascii_bounded a). lia.
Qed.

Lemma WellFormed_js str : WellFormed (js str).
Proof.
  apply WellFormed_below. eapply Forall_impl; [apply js_ascii|].
  cbn. lia.
Qed.

Lemma hex_lower_range v : 0 <= v < 16 -> 48 <= hex_lower v <= 102.
Proof. intros Hv. unfold hex_lower. cases_Z. Qed.

Lemma WellFormed_UnicodeEscape c : WellFormed (UnicodeEscape c).
Proof.
  apply WellFormed_below. unfold UnicodeEscape.
  pose proof (hex_lower_range (c / 4096 mod 16) ltac:(arith)).
  pose proof (hex_lower_range (c / 256 mod 16) ltac:(arith)).
  pose proof (hex_lower_range (c / 16 mod 16) ltac:(arith)).
  pose proof (hex_lower_range (c mod 16) ltac:(arith)).
  repeat constructor; lia.
Qed.

Lemma WellFormed_quote_code_unit c :
  is_char16 c = true -> is_lead c = false -> is_trail c = false ->
  WellFormed (quote_code_unit c).
Proof.
  intros Hc Hl Ht. unfold quote_code_unit.
  repeat match goal with
  | |- context [if ?b then _ else _] => destruct b
  end; try apply WellFormed_js; try apply WellFormed_UnicodeEscape;
    try (apply WellFormed_below; repeat constructor; lia).
  by repeat constructor.
Qed.

Lemma list_ind2 {A} (P : list A -> Prop) :
  P [] -> (forall a, P [a]) ->
  (forall a b r, P r -> P (b :: r) -> P (a :: b :: r)) ->
  forall l, P l.
Proof.
  intros H0 H1 H2 l.
  cut (P l /\ forall a, P (a :: l)); [tauto|].
  induction l as [|x l [IH0 IH1]]; auto.
Qed.

Lemma quote_code_points_cons c r :
  quote_code_points (c :: r) =
  if is_lead c then
    match r with
    | d :: r' =>
        if is_trail d then c :: d :: quote_code_points r'
        else UnicodeEscape c ++ quote_code_points r
    | [] => UnicodeEscape c
    end
  else if is_trail c then UnicodeEscape c ++ quote_code_points r
  else quote_code_unit c ++ quote_code_points r.
Proof. reflexivity. Qed.

Lemma WellFormed_quote_code_points s :
  wf_jsstring s -> WellFormed (quote_code_points s).
Proof.
  unfold wf_jsstring.
  induction s as [|c|c d r IHr IHd] using list_ind2.
  - constructor.
  - intros [Hc _]%andb_true_iff. cbn [quote_code_points].
    destruct (is_lead c) eqn:Hl; [apply WellFormed_UnicodeEscape|].
    destruct (is_trail c) eqn:Ht;
      [rewrite app_nil_r; apply WellFormed_UnicodeEscape|].
    rewrite app_nil_r. by apply WellFormed_quote_code_unit.
  - intros Hall. pose proof Hall as [Hc Hdr]%andb_true_iff.
    pose proof Hdr as [Hd Hr]%andb_true_iff.
    rewrite quote_code_points_cons.
    destruct (is_lead c) eqn:Hl.
    + destruct (is_trail d) eqn:Ht.
      * apply WellFormed_pair; [done..|by apply IHr].
      * apply WellFormed_app; [apply WellFormed_UnicodeEscape|by apply IHd].
    + destruct (is_trail c) eqn:Ht.
      * apply WellFormed_app; [apply WellFormed_UnicodeEscape|by apply IHd].
      * apply WellFormed_app; [by apply WellFormed_quote_code_unit|].
        by apply IHd.
Qed.

Lemma WellFormed_QuoteJSONString s :
  wf_jsstring s -> WellFormed (QuoteJSONString s).
Proof.
  intros Hs. unfold QuoteJSONString.
  apply WellFormed_cons_ascii; [lia|].
  apply WellFormed_app; [by apply WellFormed_quote_code_points|].
  apply WellFormed_cons_ascii; [lia|constructor].
Qed.

Lemma wf_jsstring_js str : wf_jsstring (js str).
Proof.
  apply forallb_forall. intros c Hin%list_elem_of_In.
  pose proof (js_ascii str) as Ha. rewrite Forall_forall in Ha.
  specialize (Ha c Hin). unfold is_char16. lia.
Qed.

Lemma WellFormed_SerializeJSONProperty v strP :
  wf_value v -> SerializeJSONProperty v = Some strP -> WellFormed strP.
Proof.
  intros Hv. unfold SerializeJSONProperty.
  destruct v as [| |[]|[]|s]; intros Heq; try discriminate Heq;
    apply (inj Some) in Heq; rewrite <- Heq; try apply WellFormed_js.
  by apply WellFormed_QuoteJSONString.
Qed.

Lemma WellFormed_join_comma parts :
  Forall WellFormed parts -> WellFormed (join_comma parts).
Proof.
  induction 1 as [|x parts Hx Hp IH]; [constructor|].
  cbn [join_comma]. destruct parts as [|y parts]; [done|].
  apply WellFormed_app; [done|].
  apply WellFormed_cons_ascii; [lia|done].
Qed.

Lemma WellFormed_JSON_member kv member :
  wf_value kv.2 -> JSON_member kv = Some member -> WellFormed member.
Proof.
  intros Hv. unfold JSON_member.
  destruct (SerializeJSONProperty kv.2) as [strP|] eqn:Hs; [|done].
  intros [= <-].
  apply (WellFormed_app (QuoteJSONString (js kv.1)) ([58] ++ strP));
    [apply WellFormed_QuoteJSONString, wf_jsstring_js|].
  apply WellFormed_cons_ascii; [lia|].
  by eapply WellFormed_SerializeJSONProperty.
Qed.

Lemma WellFormed_JSON_stringify o :
  wf_object o -> WellFormed (JSON_stringify o).
Proof.
  intros Ho. unfold JSON_stringify.
  apply WellFormed_cons_ascii; [lia|].
  apply WellFormed_app; [|apply WellFormed_cons_ascii; [lia|constructor]].
  apply WellFormed_join_comma.
  induction Ho as [|kv o Hv _ IH]; [constructor|].
  change (omap JSON_member (kv :: o)) with
    (match JSON_member kv with
     | Some member => member :: omap JSON_member o
     | None => omap JSON_member o
     end).
  destruct (JSON_member kv) as [member|] eqn:Hm; [|done].
  constructor; [by eapply WellFormed_JSON_member|done].
Qed.

(** In a browser [toBase64] returns a payload over the base-64 alphabet
    that decodes to the serialization. *)
Lemma toBase64_Browser json :
  wf_object json ->
  exists payload,
    toBase64 Browser json = Some payload
    /\ forallb base64_alphabet payload = true
    /\ Connector.decode payload = Some (JSON_stringify json).
Proof.
  intros Hj. unfold toBase64. cbn [typeof_window].
  rewrite bool_decide_eq_false_2 by discriminate.
  destruct (unescape_encodeURIComponent (JSON_stringify json))
    as (uri & -> & Hb & Hd); [by apply WellFormed_JSON_stringify|].
  cbn [mbind option_bind]. rewrite btoa_bytes by done.
  eexists; split; [reflexivity|]. split; [by apply base64_encode_alphabet|].
  unfold Connector.decode. by rewrite base64_decode_encode.
Qed.

End Encoding.

(** ** The validator *)

Section Validator.

(** A validator either returns a value that is not [undefined] and adds no
    issue, or adds at least one issue. *)
Lemma ZodNumber_parse_cases coerce checks p d :
  (exists v, ZodNumber_parse coerce checks p d = (OK v, []) /\ v <> JUndefined)
  \/ (exists r iss, ZodNumber_parse coerce checks p d = (r, iss)
                    /\ iss <> [] /\ forall v, r <> OK v).
Proof.
  unfold ZodNumber_parse, invalid.
  destruct (if coerce then JNum (Number d) else d) as [| | |x|];
    try (right; do 2 eexists; by repeat split).
  destruct (isNaN x); [right; do 2 eexists; by repeat split|].
  destruct (flat_map _ _).
  - left. eexists. by split.
  - right. do 2 eexists. by repeat split.
Qed.

Lemma _parse_cases t p d :
  (exists v, _parse t p d = (OK v, []) /\ v <> JUndefined)
  \/ (exists r iss, _parse t p d = (r, iss) /\ iss <> []
                    /\ forall v, r <> OK v).
Proof.
  revert d. induction t as [|values|coerce checks|t IH dv]; intros d.
  - destruct d; cbn; try (right; do 2 eexists; by repeat split).
    left. eexists. by split.
  - destruct d; cbn; try (right; do 2 eexists; by repeat split).
    case_bool_decide.
    + left. eexists. by split.
    + right. do 2 eexists. by repeat split.
  - apply ZodNumber_parse_cases.
  - cbn [_parse]. apply IH.
Qed.

Lemma _parse_OK t p d v iss :
  _parse t p d = (OK v, iss) -> iss = [] /\ v <> JUndefined.
Proof.
  intros H.
  destruct (_parse_cases t p d) as [(v' & H' & ?)|(r & iss' & H' & ? & Hr)];
    rewrite H' in H.
  - by injection H as <- <-.
  - injection H as -> <-. by destruct (Hr v).
Qed.

Lemma _parse_issues_nil t p d :
  (_parse t p d).2 = [] -> exists v, _parse t p d = (OK v, []).
Proof.
  destruct (_parse_cases t p d) as [(v' & H' & ?)|(r & iss' & H' & ? & Hr)];
    rewrite H'; cbn; [eauto|done].
Qed.

Lemma number_check_path x p check i :
  i ∈ number_check x p check -> path i = p.
Proof.
  destruct check as [|value []|value []]; cbn;
    repeat match goal with
    | |- _ ∈ (if ?b then _ else _) -> _ => destruct b
    end;
    (by intros ->%list_elem_of_singleton) || by intros ?%elem_of_nil.
Qed.

Lemma ZodNumber_parse_path coerce checks p d i :
  i ∈ (ZodNumber_parse coerce checks p d).2 -> path i = p.
Proof.
  unfold ZodNumber_parse, invalid.
  destruct (if coerce then JNum (Number d) else d) as [| | |x|];
    try (by intros ->%list_elem_of_singleton).
  destruct (isNaN x); [by intros ->%list_elem_of_singleton|].
  destruct (flat_map _ _) as [|i0 iss] eqn:Hf; [by intros ?%elem_of_nil|].
  cbn [snd]. rewrite <- Hf.
  intros [c [_ Hi%list_elem_of_In]]%list_elem_of_In%in_flat_map.
  by eapply number_check_path.
Qed.

(** Every issue of a validator carries the path it was given. *)
Lemma _parse_path t p d i : i ∈ (_parse t p d).2 -> path i = p.
Proof.
  revert d. induction t as [|values|coerce checks|t IH dv]; intros d.
  - destruct d; cbn; try (by intros ->%list_elem_of_singleton);
      by intros ?%elem_of_nil.
  - destruct d; cbn; try (by intros ->%list_elem_of_singleton);
      case_bool_decide; cbn; try (by intros ->%list_elem_of_singleton);
      by intros ?%elem_of_nil.
  - apply ZodNumber_parse_path.
  - cbn [_parse]. apply IH.
Qed.


Lemma object_pairs_cons k t sh data :
  object_pairs {| shape := (k, t) :: sh |} data
  = (let '(value, issues) := field_result data (k, t) in
     ({| pair_key := k; pair_value := value;
         alwaysSet := bool_decide (is_Some (data !! k)) |}, issues))
    :: object_pairs {| shape := sh |} data.
Proof. reflexivity. Qed.

(** The merged status is valid exactly when every key parsed to a valid
    value; the object then holds these values in the order of the shape. *)
Lemma mergeObjectSync_OK sh data c :
  Forall (fun kt : string * ZodType => kt.1 <> "__proto__") sh ->
  mergeObjectSync (map fst (object_pairs {| shape := sh |} data)) = OK c
  <-> Forall2 (fun kt kv => kv.1 = kt.1
                 /\ field_result data kt = (OK kv.2, [])) sh c.
Proof.
  intros Hp. revert c. induction Hp as [|[k t] sh Hk _ IH]; intros c.
  - cbn. split.
    + intros [= <-]. constructor.
    + by intros ->%Forall2_nil_inv_l.
  - rewrite object_pairs_cons.
    destruct (field_result data (k, t)) as [r iss] eqn:Hf.
    cbn [map fst mergeObjectSync pair_value].
    destruct r as [v|v|].
    + apply _parse_OK in Hf as Hv. destruct Hv as [-> Hv].
      destruct (mergeObjectSync _) as [c0|c0|] eqn:Hm.
      * unfold set_property. cbn [pair_key alwaysSet].
        rewrite bool_decide_eq_true_2 by done.
        rewrite (bool_decide_eq_false_2 (v = JUndefined)) by done.
        cbn [negb orb andb]. split.
        -- intros [= <-]. constructor; [done|]. by apply IH.
        -- intros (kv & c' & [Hkv Hr] & Hc' & ->)%Forall2_cons_inv_l.
           destruct kv as [k' v']. cbn [fst snd] in Hkv, Hr. subst k'.
           rewrite Hf in Hr. injection Hr as <-.
           apply IH in Hc'. by injection Hc' as <-.
      * split; [done|].
        intros (kv & c' & _ & Hc' & ->)%Forall2_cons_inv_l.
        by apply IH in Hc'.
      * split; [done|].
        intros (kv & c' & _ & Hc' & ->)%Forall2_cons_inv_l.
        by apply IH in Hc'.
    + split; [by destruct (mergeObjectSync _)|].
      intros (kv & c' & [_ Hr] & _)%Forall2_cons_inv_l.
      by rewrite Hf in Hr.
    + split; [done|].
      intros (kv & c' & [_ Hr] & _)%Forall2_cons_inv_l.
      by rewrite Hf in Hr.
Qed.

(** The issues of the object are those of its keys, in the order of the
    shape: a failed key does not stop the others from being parsed. *)
Lemma _parseObject_issues o data :
  (_parseObject o data).2
  = concat (map (fun kt => (field_result data kt).2) (shape o)).
Proof.
  destruct o as [sh]. unfold _parseObject. cbn [snd shape]. f_equal.
  induction sh as [|[k t] sh IH]; [done|].
  rewrite object_pairs_cons. cbn [map]. rewrite IH.
  by destruct (field_result data (k, t)).
Qed.

Lemma _parseObject_OK o data c :
  no_proto o ->
  (_parseObject o data).1 = OK c
  <-> Forall2 (fun kt kv => kv.1 = kt.1
                 /\ field_result data kt = (OK kv.2, [])) (shape o) c.
Proof. destruct o as [sh]. apply mergeObjectSync_OK. Qed.

Lemma safeParse_Failure o data issues :
  safeParse o data = Failure issues ->
  issues = concat (map (fun kt => (field_result data kt).2) (shape o)).
Proof.
  rewrite <- _parseObject_issues. unfold safeParse.
  destruct (_parseObject o data) as [[]]; intros [=]; by subst.
Qed.

Lemma NoDup_keys_eq (sh : list (string * ZodType)) kt kt' :
  NoDup (map fst sh) -> kt ∈ sh -> kt' ∈ sh -> kt.1 = kt'.1 -> kt = kt'.
Proof.
  induction sh as [|x sh IH]; [by intros _ ?%elem_of_nil|].
  cbn [map].
  intros [Hx Hnd]%NoDup_cons [->|H1]%elem_of_cons [->|H2]%elem_of_cons Heq.
  - done.
  - destruct Hx. rewrite Heq. apply list_elem_of_fmap. eauto.
  - destruct Hx. rewrite <- Heq. apply list_elem_of_fmap. eauto.
  - by apply IH.
Qed.

Lemma get_cons k v (c : JSObject) key :
  get ((k, v) :: c) key = if bool_decide (k = key) then v else get c key.
Proof. unfold get. cbn. by case_bool_decide. Qed.

Lemma field_result_insert_ne data f v (kt : string * ZodType) :
  kt.1 <> f -> field_result (<[f:=v]> data) kt = field_result data kt.
Proof. intros H. unfold field_result. by rewrite lookup_insert_ne. Qed.

Lemma field_result_insert data f v t :
  field_result (<[f:=v]> data) (f, t) = _parse t [f] v.
Proof. unfold field_result. cbn [fst snd]. by rewrite lookup_insert_eq. Qed.

Lemma concat_single {A} (F : string * ZodType -> list A) sh kt :
  NoDup (map fst sh) -> kt ∈ sh ->
  (forall kt', kt' ∈ sh -> kt'.1 <> kt.1 -> F kt' = []) ->
  concat (map F sh) = F kt.
Proof.
  intros Hnd Hin HF.
  assert (forall kt', kt' ∈ sh -> kt' <> kt -> F kt' = []) as HF'.
  { intros kt' Hin' Hne. apply HF; [done|]. intros Heq. destruct Hne.
    by eapply NoDup_keys_eq. }
  apply NoDup_fmap_1 in Hnd. clear HF.
  induction sh as [|x sh IH]; [by apply elem_of_nil in Hin|].
  apply NoDup_cons in Hnd as [Hx Hnd]. cbn [map concat].
  apply elem_of_cons in Hin as [->|Hin].
  - replace (concat (map F sh)) with (@nil A); [by rewrite app_nil_r|].
    symmetry. apply concat_nil_Forall, Forall_map, Forall_forall.
    intros y Hy. apply HF'; [by right|]. by intros ->.
  - rewrite (HF' x); [|by left|by intros ->]. cbn [app].
    apply IH; [done..|]. intros y Hy. apply HF'. by right.
Qed.

End Validator.

(** ** An object schema with distinct keys *)

Section ObjectSchema.

Context (o : ZodObject).
Hypothesis Hproto : no_proto o.
Hypothesis Hkeys : NoDup (keys o).

Implicit Types (data : gmap string JSValue) (c : JSObject).

Lemma safeParse_Success data c :
  safeParse o data = Success c
  <-> Forall2 (fun kt kv => kv.1 = kt.1
                 /\ field_result data kt = (OK kv.2, [])) (shape o) c.
Proof.
  rewrite <- _parseObject_OK by done. unfold safeParse.
  destruct (_parseObject o data) as [[] issues]; cbn [fst];
    split; intros [=]; by subst.
Qed.

(** A key that does not parse to a valid value makes the whole parse
    fail, with the issues of every key. *)
Lemma safeParse_invalid_key data kt :
  kt ∈ shape o ->
  (forall v, field_result data kt <> (OK v, [])) ->
  safeParse o data
  = Failure (concat (map (fun kt => (field_result data kt).2) (shape o))).
Proof.
  intros Hin Hkt.
  destruct (safeParse o data) as [c|issues] eqn:Hc;
    [|f_equal; by apply safeParse_Failure].
  apply safeParse_Success in Hc.
  apply list_elem_of_lookup in Hin as [i Hi].
  destruct (Forall2_lookup_l _ _ _ _ _ Hc Hi) as (kv & _ & _ & Hr).
  by destruct (Hkt kv.2).
Qed.

(** The value of a key in the validated object is what its validator
    returned. *)
Lemma safeParse_get data c k t :
  safeParse o data = Success c ->
  (k, t) ∈ shape o -> field_result data (k, t) = (OK (get c k), []).
Proof.
  intros Hc%safeParse_Success. pose proof Hkeys as Hnd. unfold keys in Hnd.
  induction Hc as [|[k' t'] [k'' v] sh c [Hk Hr] _ IH].
  - by intros ?%elem_of_nil.
  - cbn [fst snd] in Hk, Hr. subst k''. cbn [map fst] in Hnd.
    apply NoDup_cons in Hnd as [Hk' Hnd]. rewrite get_cons.
    intros [[= -> ->]|Hin]%elem_of_cons.
    + by rewrite bool_decide_eq_true_2.
    + rewrite bool_decide_eq_false_2; [by apply IH|].
      intros ->. apply Hk', list_elem_of_fmap. by exists (k, t).
Qed.

(** Editing one key of a form that validates: the outcome is decided by
    the validator of that key alone. *)
Lemma safeParse_edit data c f t v :
  (f, t) ∈ shape o ->
  safeParse o data = Success c ->
  safeParse o (<[f:=v]> data)
  = match _parse t [f] v with
    | (OK v', _) =>
        Success (map (fun kv : string * JSValue =>
                        if bool_decide (kv.1 = f) then (f, v') else kv) c)
    | (_, issues) => Failure issues
    end.
Proof.
  intros Hin Hc. pose proof Hc as Hc2%safeParse_Success.
  assert (forall kt, kt ∈ shape o -> kt.1 <> f ->
            field_result (<[f:=v]> data) kt = (OK (get c kt.1), []))
    as Hother.
  { intros [k' t'] Hin' Hne. rewrite field_result_insert_ne by done.
    by apply safeParse_get. }
  destruct (_parse t [f] v) as [r issues] eqn:Hf.
  assert (match r with OK _ => False | _ => True end ->
          safeParse o (<[f:=v]> data) = Failure issues) as Hfail.
  { intros Hr. rewrite (safeParse_invalid_key _ (f, t)); [|done|].
    - f_equal.
      rewrite (concat_single _ _ (f, t)); [|done..|].
      + by rewrite field_result_insert, Hf.
      + intros kt Hkt Hne. by rewrite Hother.
    - intros v'. rewrite field_result_insert, Hf. intros [= -> _]. done. }
  destruct r as [v'|v'|]; [|by apply Hfail..].
  clear Hfail. apply _parse_OK in Hf as Hv. destruct Hv as [-> _].
  apply safeParse_Success.
  apply Forall2_fmap_r.
  apply Forall2_same_length_lookup. split; [by eapply Forall2_length|].
  intros i kt kv Hi Hj.
  destruct (Forall2_lookup_lr _ _ _ _ _ _ Hc2 Hi Hj) as [Hk Hr].
  assert (kt ∈ shape o) as Hkt by (by eapply list_elem_of_lookup_2).
  unfold compose. cbn beta. case_bool_decide as Hkf; cbn [fst snd].
  - assert (kt = (f, t)) as ->.
    { eapply NoDup_keys_eq; [done..|]. cbn. congruence. }
    split; [done|]. by rewrite field_result_insert.
  - split; [done|]. rewrite field_result_insert_ne by congruence. done.
Qed.

Lemma field_issues_in data k t :
  (k, t) ∈ shape o ->
  field_issues o data k = (field_result data (k, t)).2.
Proof.
  pose proof Hkeys as Hnd. unfold keys in Hnd. unfold field_issues.
  revert Hnd. generalize (shape o). intros sh.
  induction sh as [|[k' t'] sh IH]; [by intros _ ?%elem_of_nil|].
  cbn [map fst find]. intros [Hk Hnd]%NoDup_cons.
  intros [[= -> ->]|Hin]%elem_of_cons.
  - by rewrite bool_decide_eq_true_2.
  - rewrite bool_decide_eq_false_2; [by apply IH|].
    cbn. intros ->. apply Hk, list_elem_of_fmap. by exists (k, t).
Qed.

(** Validation does not fail fast: the issues of a failure are those of
    every key, in the order of the schema. *)
Lemma safeParse_collects_all data issues :
  safeParse o data = Failure issues ->
  issues = concat (map (field_issues o data) (keys o)).
Proof.
  intros ->%safeParse_Failure. unfold keys. rewrite map_map.
  f_equal. apply map_ext_in. intros [k t] Hin%list_elem_of_In.
  symmetry. by apply field_issues_in.
Qed.

End ObjectSchema.

(** ** [StrategySchema] *)

Lemma StrategySchema_no_proto : no_proto StrategySchema.
Proof.
  unfold no_proto. cbn [shape StrategySchema z.object].
  repeat constructor; done.
Qed.

Lemma StrategySchema_NoDup : NoDup (keys StrategySchema).
Proof. apply (bool_decide_unpack _). by vm_compute. Qed.

Lemma StrategySchema_wf_type :
  Forall (fun kt : string * ZodType => wf_type kt.2) (shape StrategySchema).
Proof.
  cbn [shape StrategySchema z.object].
  repeat (constructor; [by vm_compute|]). constructor.
Qed.

Section Schema.

Implicit Types (data : gmap string JSValue) (c : JSObject).

Lemma StrategySchema_Success data c :
  safeParse StrategySchema data = Success c
  <-> Forall2 (fun kt kv => kv.1 = kt.1
                 /\ field_result data kt = (OK kv.2, []))
        (shape StrategySchema) c.
Proof. apply safeParse_Success, StrategySchema_no_proto. Qed.

Lemma StrategySchema_get data c k t :
  safeParse StrategySchema data = Success c ->
  (k, t) ∈ shape StrategySchema ->
  field_result data (k, t) = (OK (get c k), []).
Proof.
  apply safeParse_get;
    [apply StrategySchema_no_proto|apply StrategySchema_NoDup].
Qed.

Lemma StrategySchema_invalid_key data kt :
  kt ∈ shape StrategySchema ->
  (forall v, field_result data kt <> (OK v, [])) ->
  safeParse StrategySchema data
  = Failure (concat (map (fun kt => (field_result data kt).2)
                       (shape StrategySchema))).
Proof. apply safeParse_invalid_key, StrategySchema_no_proto. Qed.

Lemma safeParse_edit_OK data c f t v v' issues :
  safeParse StrategySchema data = Success c ->
  (f, t) ∈ shape StrategySchema ->
  _parse t [f] v = (OK v', issues) ->
  exists c',
    safeParse StrategySchema (<[f:=v]> data) = Success c' /\ get c' f = v'.
Proof.
  intros Hc Hin Hv.
  pose proof (safeParse_edit _ StrategySchema_no_proto StrategySchema_NoDup
                data c f t v Hin Hc) as He.
  rewrite Hv in He. eexists. split; [exact He|].
  pose proof (StrategySchema_get _ _ _ _ He Hin) as Hg.
  rewrite field_result_insert, Hv in Hg. congruence.
Qed.

Lemma safeParse_edit_fail data c f t v r issues :
  safeParse StrategySchema data = Success c ->
  (f, t) ∈ shape StrategySchema ->
  _parse t [f] v = (r, issues) -> (forall v', r <> OK v') ->
  safeParse StrategySchema (<[f:=v]> data) = Failure issues.
Proof.
  intros Hc Hin Hv Hr.
  rewrite (safeParse_edit _ StrategySchema_no_proto StrategySchema_NoDup
             data c f t v Hin Hc), Hv.
  destruct r; [by destruct (Hr value)|done..].
Qed.

End Schema.

(** Finds the entry of a key in the shape of [StrategySchema]. *)
Ltac in_shape :=
  cbn [shape StrategySchema z.object];
  solve [repeat first [apply list_elem_of_here | apply list_elem_of_further]].

(** * The properties of the specification *)

(** ** Defaults *)

(** C3, default completeness: validating the empty form succeeds and
    yields the documented default configuration; and in any form that
    validates, a field that is absent takes its documented default. *)
Theorem default_completeness :
  safeParse StrategySchema ∅ = Success default_config
  /\ forall (data : gmap string JSValue) c k,
       k ∈ keys StrategySchema -> data !! k = None ->
       safeParse StrategySchema data = Success c ->
       get c k = get default_config k.
Proof.
  split; [by vm_compute|].
  intros data c k Hk Hnone Hc.
  apply list_elem_of_fmap in Hk as ([k' t] & -> & Hin). cbn [fst] in *.
  pose proof (StrategySchema_get _ _ _ _ Hc Hin) as Hg.
  unfold field_result in Hg. cbn [fst snd] in Hg.
  rewrite Hnone in Hg. cbn [default] in Hg.
  remember (get c k') as g eqn:Eg. clear Eg Hc Hnone.
  cbn [shape StrategySchema z.object] in Hin.
  repeat (apply elem_of_cons in Hin as [[= -> ->]|Hin];
          [vm_compute in Hg; injection Hg as <-; by vm_compute|]).
  by apply elem_of_nil in Hin.
Qed.

Lemma default_completeness_witness :
  get [("symbols", JStr (js "EURUSD,GBPUSD")); ("timeframe", JStr (js "M15"));
       ("riskPerTradePct", JNum (int 1)); ("maxOpenPositions", JNum (int 3));
       ("emaFast", JNum (int 10)); ("emaSlow", JNum (int 200));
       ("rsiPeriod", JNum (int 14)); ("atrPeriod", JNum (int 14));
       ("atrStopMultiplier", JNum (int 2));
       ("takeProfitRMultiple", JNum (int 2));
       ("trailingStopATR", JNum (dec 15 (-1)));
       ("dailyLossLimitPct", JNum (int 5)); ("maxDrawdownPct", JNum (int 20));
       ("liveTrading", JStr (js "false")); ("magicNumber", JNum (int 424242))]
      "trailingStopATR"
  = get default_config "trailingStopATR".
Proof.
  apply (proj2 default_completeness {["emaFast" := JStr (js "10")]}).
  - apply (bool_decide_unpack _). vm_compute. exact I.
  - vm_compute. reflexivity.
  - vm_compute. reflexivity.
Defined.

(** ** The component *)

(** C2, failure gating: when validation fails, the payload and the
    command are both the empty string; a payload or a command that is not
    empty is only produced from a form that validates. *)
Theorem failure_gating (env : Environment) (form : gmap string JSValue) :
  (forall issues,
     safeParse StrategySchema form = Failure issues ->
     StrategyForm env form = Some {| b64 := []; pythonCmd := [] |})
  /\ (forall r,
        StrategyForm env form = Some r ->
        b64 r <> [] \/ pythonCmd r <> [] ->
        exists c, safeParse StrategySchema form = Success c).
Proof.
  unfold StrategyForm. split.
  - by intros issues ->.
  - intros r. destruct (safeParse StrategySchema form) as [c|issues]; [eauto|].
    cbn. intros [= <-]. cbn. by intros [|].
Qed.

Lemma failure_gating_witness :
  StrategyForm Browser (handleChange "emaFast" (js "1") initial_form)
  = Some {| b64 := []; pythonCmd := [] |}
  /\ exists c, safeParse StrategySchema initial_form = Success c.
Proof.
  split.
  - apply (proj1 (failure_gating Browser _)
             [{| code := too_small (int 2) true; path := ["emaFast"] |}]).
    vm_compute. reflexivity.
  - apply (proj2 (failure_gating Server initial_form)
             {| b64 := []; pythonCmd := command_prefix ++ js "'" |}).
    + vm_compute. reflexivity.
    + right. vm_compute. discriminate.
Defined.

(** C10, server-side rendering: where [window] is undefined, [toBase64]
    returns the empty string for every input, so a form that validates
    yields an empty payload and a command whose quoted argument is empty;
    a payload that is not empty comes from a browser. *)
Theorem toBase64_without_window :
  (forall json, toBase64 Server json = Some [])
  /\ (forall form c,
        safeParse StrategySchema form = Success c ->
        StrategyForm Server form
        = Some {| b64 := [];
                  pythonCmd :=
                    js "python mt5_connector/connector.py --config-b64 ''" |})
  /\ (forall env json payload,
        toBase64 env json = Some payload -> payload <> [] -> env = Browser).
Proof.
  split; [done|]. split.
  - intros form c Hc. unfold StrategyForm. by rewrite Hc.
  - intros [] json payload; [done|]. by intros [= <-].
Qed.

Lemma toBase64_without_window_witness :
  StrategyForm Server initial_form
  = Some {| b64 := [];
            pythonCmd :=
              js "python mt5_connector/connector.py --config-b64 ''" |}
  /\ Browser = Browser.
Proof.
  split.
  - apply (proj1 (proj2 toBase64_without_window) initial_form default_config).
    vm_compute. reflexivity.
  - apply (proj2 (proj2 toBase64_without_window) Browser [] (js "e30=")).
    + vm_compute. reflexivity.
    + discriminate.
Defined.

(** ** Strings *)

(** C9 as stated fails: the empty string is a valid [symbols]. *)
Lemma symbols_may_be_empty :
  ~ (forall (data : gmap string JSValue) c,
       safeParse StrategySchema data = Success c ->
       exists s, get c "symbols" = JStr s /\ s <> []).
Proof.
  intros H.
  destruct (safeParse StrategySchema (handleChange "symbols" [] initial_form))
    as [c|] eqn:Hc; [|by vm_compute in Hc].
  destruct (H _ _ Hc) as (s & Hs & Hne).
  vm_compute in Hc. injection Hc as <-. vm_compute in Hs. congruence.
Qed.

(** C9, amended: the [symbols] of a validated configuration is a string,
    the one of the form when the form has one and the default
    ['EURUSD,GBPUSD'] otherwise; every string validates, the empty one
    included. *)
Theorem symbols_is_a_string (data : gmap string JSValue) c :
  safeParse StrategySchema data = Success c ->
  (exists s, get c "symbols" = JStr s
             /\ match data !! "symbols" with
                | Some (JStr s') => s = s'
                | _ => s = js "EURUSD,GBPUSD"
                end)
  /\ forall s, exists c',
       safeParse StrategySchema (<["symbols" := JStr s]> data) = Success c'
       /\ get c' "symbols" = JStr s.
Proof.
  intros Hc. split.
  - assert (("symbols", z.default (JStr (js "EURUSD,GBPUSD")) z.string)
            ∈ shape StrategySchema) as Hin by in_shape.
    pose proof (StrategySchema_get _ _ _ _ Hc Hin) as Hg.
    unfold field_result in Hg. cbn [fst snd] in Hg.
    destruct (data !! "symbols") as [[| | | |s']|]; cbn in Hg;
      try discriminate Hg; injection Hg as <-; eauto.
  - intros s. eapply safeParse_edit_OK; [done|in_shape|reflexivity].
Qed.

Lemma symbols_is_a_string_witness :
  exists c',
    safeParse StrategySchema (<["symbols" := JStr []]> initial_form)
    = Success c'
    /\ get c' "symbols" = JStr [].
Proof.
  apply (proj2 (symbols_is_a_string initial_form default_config
                  ltac:(vm_compute; reflexivity)) []).
Defined.

(** ** Numeric fields *)

(** On a value that is present, a coerced number with a default is
    validated through [Number]. *)
Lemma coerce_default_parse checks d p v :
  isNaN (Number v) = false ->
  _parse (ZodDefault (ZodNumber true checks) d) p v
  = ZodNumber_parse true checks p (JNum (Number v)).
Proof. by destruct v. Qed.

Ltac unfold_builders :=
  cbv [z.default z.max z.min z.int z.coerce_number z.enum z.string
       z.addCheck app].

(** Evaluates the validator of a numeric field on a value whose coercion
    [Hv] gives. *)
Ltac eval_number Hv :=
  unfold_builders; rewrite coerce_default_parse by (by rewrite Hv);
  rewrite Hv; vm_compute; reflexivity.

(** C4, range enforcement with inclusive endpoints: in a form that
    validates, setting a bounded numeric field to a value that coerces to
    its minimum or its maximum validates, and setting it to one unit below
    the minimum or one unit above the maximum fails with exactly one
    issue, a RangeError on that field. *)
Theorem range_enforcement (data : gmap string JSValue) c f lo hi v :
  safeParse StrategySchema data = Success c ->
  (f, (lo, hi)) ∈ bounds ->
  (Number v = lo \/ Number v = hi ->
   exists c',
     safeParse StrategySchema (<[f:=v]> data) = Success c'
     /\ get c' f = JNum (Number v))
  /\ (Number v = pred_unit lo ->
      exists i,
        safeParse StrategySchema (<[f:=v]> data) = Failure [i]
        /\ path i = [f] /\ code i = too_small lo true
        /\ error_kind i = RangeError)
  /\ (Number v = succ_unit hi ->
      exists i,
        safeParse StrategySchema (<[f:=v]> data) = Failure [i]
        /\ path i = [f] /\ code i = too_big hi true
        /\ error_kind i = RangeError).
Proof.
  intros Hc Hb. unfold bounds in Hb.
  repeat (apply elem_of_cons in Hb as [[= -> -> ->]|Hb];
    [split; [|split];
     [intros [Hv|Hv];
      (eapply (safeParse_edit_OK _ _ _ _ v (JNum (Number v)) []);
       [exact Hc|in_shape|eval_number Hv])
     |intros Hv; eexists; split;
      [eapply (safeParse_edit_fail _ _ _ _ v (DIRTY (JNum (Number v))));
       [exact Hc|in_shape|eval_number Hv|done]
      |by repeat split]
     |intros Hv; eexists; split;
      [eapply (safeParse_edit_fail _ _ _ _ v (DIRTY (JNum (Number v))));
       [exact Hc|in_shape|eval_number Hv|done]
      |by repeat split]]
    |]).
  by apply elem_of_nil in Hb.
Qed.

Lemma range_enforcement_witness :
  (exists c',
     safeParse StrategySchema
       (<["atrStopMultiplier" := JStr (js " 0.1 ")]> initial_form)
     = Success c'
     /\ get c' "atrStopMultiplier" = JNum (Number (JStr (js " 0.1 "))))
  /\ (exists i,
        safeParse StrategySchema
          (<["atrStopMultiplier" := JStr (js "-0.9")]> initial_form)
        = Failure [i]
        /\ path i = ["atrStopMultiplier"]
        /\ code i = too_small (dec 1 (-1)) true
        /\ error_kind i = RangeError)
  /\ (exists i,
        safeParse StrategySchema
          (<["atrStopMultiplier" := JNum (int 11)]> initial_form)
        = Failure [i]
        /\ path i = ["atrStopMultiplier"]
        /\ code i = too_big (int 10) true
        /\ error_kind i = RangeError).
Proof.
  assert (safeParse StrategySchema initial_form = Success default_config)
    as Hc by (vm_compute; reflexivity).
  assert (("atrStopMultiplier", (dec 1 (-1), int 10)) ∈ bounds) as Hb
    by (apply (bool_decide_unpack _); vm_compute; exact I).
  split; [|split].
  - apply (proj1 (range_enforcement initial_form default_config
                    "atrStopMultiplier" (dec 1 (-1)) (int 10)
                    (JStr (js " 0.1 ")) Hc Hb)).
    left. vm_compute. reflexivity.
  - apply (proj1 (proj2 (range_enforcement initial_form default_config
                    "atrStopMultiplier" (dec 1 (-1)) (int 10)
                    (JStr (js "-0.9")) Hc Hb))).
    vm_compute. reflexivity.
  - apply (proj2 (proj2 (range_enforcement initial_form default_config
                    "atrStopMultiplier" (dec 1 (-1)) (int 10)
                    (JNum (int 11)) Hc Hb))).
    vm_compute. reflexivity.
Defined.

(** ** Enumeration fields *)

Lemma enum_default_parse values d p v :
  v <> JUndefined ->
  _parse (ZodDefault (ZodEnum values) d) p v
  = match v with
    | JStr s =>
        if bool_decide (s ∈ values) then (OK v, [])
        else invalid (invalid_enum_value v values) p
    | _ =>
        invalid (invalid_type (expected_values values) (getParsedType v)) p
    end.
Proof. by destruct v. Qed.

(** An enumeration field of a form that validates accepts exactly the
    strings of its token set. *)
Lemma enum_member (data : gmap string JSValue) c f values d v :
  safeParse StrategySchema data = Success c ->
  (f, ZodDefault (ZodEnum values) d) ∈ shape StrategySchema ->
  v <> JUndefined ->
  (exists c', safeParse StrategySchema (<[f:=v]> data) = Success c')
  <-> exists s, v = JStr s /\ s ∈ values.
Proof.
  intros Hc Hin Hv. split.
  - intros [c' Hc'].
    pose proof (StrategySchema_get _ _ _ _ Hc' Hin) as Hg.
    rewrite field_result_insert, enum_default_parse in Hg by done.
    destruct v as [| | | |s]; try discriminate Hg.
    case_bool_decide; [eauto|discriminate Hg].
  - intros (s & -> & Hs).
    destruct (safeParse_edit_OK data c f _ (JStr s) (JStr s) [] Hc Hin)
      as (c' & Hc' & _); [|eauto].
    rewrite enum_default_parse by done. by rewrite bool_decide_eq_true_2.
Qed.

(** C6, enum enforcement: in a form that validates, [timeframe] and
    [liveTrading] accept a value exactly when it is a string of their
    token set, compared exactly; ['M16'] (and ['m15']) fails with one
    MembershipError on [timeframe], ['M15'] validates. *)
Theorem enum_enforcement (data : gmap string JSValue) c :
  safeParse StrategySchema data = Success c ->
  (forall v, v <> JUndefined ->
     ((exists c',
         safeParse StrategySchema (<["timeframe" := v]> data) = Success c')
      <-> exists s, v = JStr s /\ s ∈ timeframe_tokens)
     /\ ((exists c',
            safeParse StrategySchema (<["liveTrading" := v]> data)
            = Success c')
         <-> exists s, v = JStr s /\ s ∈ liveTrading_tokens))
  /\ (forall s, s = js "M16" \/ s = js "m15" ->
      exists i,
        safeParse StrategySchema (<["timeframe" := JStr s]> data)
        = Failure [i]
        /\ path i = ["timeframe"]
        /\ code i = invalid_enum_value (JStr s) timeframe_tokens
        /\ error_kind i = MembershipError)
  /\ (exists c',
        safeParse StrategySchema (<["timeframe" := JStr (js "M15")]> data)
        = Success c'
        /\ get c' "timeframe" = JStr (js "M15")).
Proof.
  intros Hc. split; [|split].
  - intros v Hv. split; (eapply enum_member; [exact Hc| |exact Hv]).
    + unfold timeframe_tokens. in_shape.
    + unfold liveTrading_tokens. in_shape.
  - intros s Hs.
    exists {| code := invalid_enum_value (JStr s) timeframe_tokens;
              path := ["timeframe"] |}.
    split; [|by repeat split].
    eapply (safeParse_edit_fail _ _ _ _ (JStr s) INVALID
              [{| code := invalid_enum_value (JStr s) timeframe_tokens;
                  path := ["timeframe"] |}]);
      [exact Hc|in_shape| |done].
    unfold_builders. rewrite enum_default_parse by done.
    rewrite bool_decide_eq_false_2; [reflexivity|].
    destruct Hs as [-> | ->]; apply (bool_decide_unpack _); by vm_compute.
  - eapply safeParse_edit_OK; [exact Hc|in_shape|].
    by vm_compute.
Qed.

Lemma enum_enforcement_witness :
  (exists c',
     safeParse StrategySchema
       (<["liveTrading" := JStr (js "true")]> initial_form) = Success c')
  /\ exists i,
       safeParse StrategySchema
         (<["timeframe" := JStr (js "M16")]> initial_form) = Failure [i]
       /\ path i = ["timeframe"]
       /\ code i = invalid_enum_value (JStr (js "M16")) timeframe_tokens
       /\ error_kind i = MembershipError.
Proof.
  assert (safeParse StrategySchema initial_form = Success default_config)
    as Hc by (vm_compute; reflexivity).
  split.
  - apply (proj2 (proj1 (enum_enforcement initial_form default_config Hc)
                    (JStr (js "true")) ltac:(discriminate))).
    exists (js "true"). split; [reflexivity|].
    apply (bool_decide_unpack _). vm_compute. exact I.
  - apply (proj1 (proj2 (enum_enforcement initial_form default_config Hc))).
    left. reflexivity.
Defined.

(** ** The payload *)

Lemma _parse_wf t p d v issues :
  wf_type t -> wf_value d -> _parse t p d = (OK v, issues) -> wf_value v.
Proof.
  revert d. induction t as [|values|coerce checks|t IH dv]; intros d Ht Hd.
  - destruct d; cbn; intros [=]. by subst.
  - destruct d; cbn; try (intros [=]; fail). case_bool_decide; intros [=].
    by subst.
  - unfold _parse, ZodNumber_parse, invalid.
    destruct (if coerce then JNum (Number d) else d) as [| | |x|];
      try (intros [=]; fail).
    destruct (isNaN x); [by intros [=]|].
    destruct (flat_map _ _); intros [=]. by subst.
  - destruct Ht as [Hdv Ht]. cbn [_parse]. apply IH; [done|].
    by destruct d.
Qed.

(** Validation keeps the strings of the form well formed. *)
Lemma safeParse_wf (form : gmap string JSValue) c :
  wf_form form -> safeParse StrategySchema form = Success c -> wf_object c.
Proof.
  intros Hf Hc%StrategySchema_Success.
  pose proof StrategySchema_wf_type as Ht.
  unfold wf_object.
  induction Hc as [|kt kv sh c [_ Hr] _ IH]; [constructor|].
  apply Forall_cons in Ht as [Hkt Ht]. constructor; [|by apply IH].
  unfold field_result in Hr. eapply _parse_wf; [exact Hkt| |exact Hr].
  destruct (form !! kt.1) as [d|] eqn:Hd; [|done].
  by apply (Hf _ _ Hd).
Qed.

Lemma wf_form_initial : wf_form initial_form.
Proof.
  intros k v Hkv. unfold initial_form in Hkv.
  apply elem_of_list_to_map_2 in Hkv.
  repeat (apply elem_of_cons in Hkv as [[= -> ->]|Hkv]; [by vm_compute|]).
  by apply elem_of_nil in Hkv.
Qed.

Lemma base64_alphabet_no_break payload :
  forallb base64_alphabet payload = true ->
  forallb (fun ch => negb (line_break ch)) payload = true.
Proof.
  rewrite !forallb_forall. intros H ch Hch. specialize (H ch Hch).
  unfold base64_alphabet in H. unfold line_break.
  rewrite !orb_true_iff, !andb_true_iff, !Z.leb_le, !Z.eqb_eq in H.
  rewrite negb_true_iff, orb_false_iff, !Z.eqb_neq. lia.
Qed.

(** C8, the invocation string: for a form that validates, the command is
    the executor command, [--config-b64] and the payload between single
    quotes, on one line; the payload is made of characters of
    [A-Za-z0-9+/=] only. *)
Theorem invocation_format env (form : gmap string JSValue) c :
  wf_form form ->
  safeParse StrategySchema form = Success c ->
  exists payload,
    toBase64 env c = Some payload
    /\ StrategyForm env form
       = Some {| b64 := payload;
                 pythonCmd :=
                   js "python mt5_connector/connector.py --config-b64 '"
                   ++ payload ++ js "'" |}
    /\ forallb base64_alphabet payload = true
    /\ forallb (fun ch => negb (line_break ch))
         (js "python mt5_connector/connector.py --config-b64 '"
          ++ payload ++ js "'") = true.
Proof.
  intros Hf Hc.
  assert (exists payload, toBase64 env c = Some payload
            /\ forallb base64_alphabet payload = true)
    as (payload & Hp & Ha).
  { destruct env.
    - destruct (toBase64_Browser c) as (payload & Hp & Ha & _);
        [by eapply safeParse_wf|eauto].
    - exists []. by split. }
  exists payload. split; [done|]. split; [|split; [done|]].
  - unfold StrategyForm. by rewrite Hc, Hp.
  - rewrite !forallb_app, (base64_alphabet_no_break payload) by done.
    by vm_compute.
Qed.

Lemma invocation_format_witness :
  exists payload,
    toBase64 Browser default_config = Some payload
    /\ StrategyForm Browser initial_form
       = Some {| b64 := payload;
                 pythonCmd :=
                   js "python mt5_connector/connector.py --config-b64 '"
                   ++ payload ++ js "'" |}
    /\ forallb base64_alphabet payload = true
    /\ forallb (fun ch => negb (line_break ch))
         (js "python mt5_connector/connector.py --config-b64 '"
          ++ payload ++ js "'") = true.
Proof.
  apply (invocation_format Browser initial_form default_config
           wf_form_initial).
  vm_compute. reflexivity.
Defined.

(** ** Aggregation *)

Lemma concat_sublist {A B} (g : A -> list B) l1 l2 :
  l1 `sublist_of` l2 -> NoDup l2 ->
  Forall (fun k => k ∈ l1 \/ g k = []) l2 ->
  concat (map g l2) = concat (map g l1).
Proof.
  induction 1 as [|x l1 l2 Hs IH|x l1 l2 Hs IH]; intros Hnd Hg; [done|..];
    apply NoDup_cons in Hnd as [Hx Hnd];
    apply Forall_cons in Hg as [Hgx Hg]; cbn [map concat].
  - f_equal. apply IH; [done|].
    rewrite Forall_forall in Hg |- *. intros k Hk.
    destruct (Hg k Hk) as [Hin|Hnil]; [|by right].
    apply elem_of_cons in Hin as [->|Hin]; [done|by left].
  - destruct Hgx as [Hin | ->]; [|by apply IH].
    destruct Hx. by eapply elem_of_sublist.
Qed.

(** C7 as stated fails: not every issue carries the raw value of its
    field.  A range issue holds the bound only, so two forms that differ
    in an invalid field can fail with the same issues, and no function of
    the issue gives the raw value back. *)
Lemma issues_do_not_carry_raw_value :
  ~ (exists offending : ZodIssue -> JSValue,
       forall (data : gmap string JSValue) k1 k2 k3 i1 i2 i3,
         [k1; k2; k3] `sublist_of` keys StrategySchema ->
         field_issues StrategySchema data k1 = [i1] ->
         field_issues StrategySchema data k2 = [i2] ->
         field_issues StrategySchema data k3 = [i3] ->
         Forall (fun k => k ∈ [k1; k2; k3]
                          \/ field_issues StrategySchema data k = [])
           (keys StrategySchema) ->
         safeParse StrategySchema data = Failure [i1; i2; i3]
         /\ (path i1 = [k1] /\ data !! k1 = Some (offending i1))
         /\ (path i2 = [k2] /\ data !! k2 = Some (offending i2))
         /\ (path i3 = [k3] /\ data !! k3 = Some (offending i3))).
Proof.
  intros [offending H].
  pose (form := fun s =>
    handleChange "emaFast" (js s)
      (handleChange "riskPerTradePct" (js "abc")
         (handleChange "timeframe" (js "M16") initial_form))).
  pose (i3 := {| code := too_small (int 2) true; path := ["emaFast"] |}).
  assert (forall s, s = "0"%string \/ s = "1"%string ->
            form s !! "emaFast" = Some (offending i3)) as Hraw.
  { intros s Hs.
    eapply (H (form s) "timeframe" "riskPerTradePct" "emaFast" _ _ i3).
    - repeat constructor.
    - reflexivity.
    - reflexivity.
    - destruct Hs as [-> | ->]; vm_compute; reflexivity.
    - apply (bool_decide_unpack _).
      destruct Hs as [-> | ->]; vm_compute; exact I. }
  pose proof (Hraw "0"%string (or_introl eq_refl)) as H0.
  pose proof (Hraw "1"%string (or_intror eq_refl)) as H1.
  vm_compute in H0, H1. congruence.
Qed.

(** ** Coercion *)

Section Coercion.

(** *** Rounding never gives NaN *)










(** *** White space around a numeral *)

Lemma trimStart_whitespace ws s :
  forallb is_whitespace ws = true -> trimStart (ws ++ s) = trimStart s.
Proof.
  induction ws as [|c ws IH]; [done|].
  cbn. intros [-> H]%andb_true_iff. auto.
Qed.

Lemma trimStart_nil s :
  trimStart s = [] -> forallb is_whitespace s = true.
Proof.
  induction s as [|c s IH]; [done|].
  cbn. destruct (is_whitespace c); [auto|done].
Qed.

Lemma trimStart_app s r :
  trimStart s <> [] -> trimStart (s ++ r) = trimStart s ++ r.
Proof.
  induction s as [|c s IH]; [done|].
  cbn. destruct (is_whitespace c); auto.
Qed.

Lemma trimEnd_whitespace s ws :
  forallb is_whitespace ws = true -> trimEnd (s ++ ws) = trimEnd s.
Proof.
  intros H. unfold trimEnd.
  rewrite rev_app_distr, trimStart_whitespace; [done|].
  apply forallb_forall. intros c Hc%in_rev.
  by eapply forallb_forall in H.
Qed.

Lemma trim_whitespace ws1 s ws2 :
  forallb is_whitespace ws1 = true -> forallb is_whitespace ws2 = true ->
  trim (ws1 ++ s ++ ws2) = trim s.
Proof.
  intros H1 H2. unfold trim. rewrite trimStart_whitespace by done.
  destruct (trimStart s) as [|c t] eqn:Hs.
  - apply trimStart_nil in Hs.
    rewrite trimStart_whitespace by done.
    rewrite <- (app_nil_r ws2), trimStart_whitespace by done. done.
  - rewrite trimStart_app, Hs by (by rewrite Hs).
    by apply trimEnd_whitespace.
Qed.

Lemma StringToNumber_whitespace ws1 s ws2 :
  forallb is_whitespace ws1 = true -> forallb is_whitespace ws2 = true ->
  StringToNumber (ws1 ++ s ++ ws2) = StringToNumber s.
Proof. intros H1 H2. unfold StringToNumber. by rewrite trim_whitespace. Qed.

Lemma StringToNumber_blank s :
  forallb is_whitespace s = true -> StringToNumber s = S754_zero false.
Proof.
  intros H. transitivity (StringToNumber (s ++ [] ++ [])).
  - cbn [app]. by rewrite app_nil_r.
  - by rewrite StringToNumber_whitespace.
Qed.

(** *** Decimal notation is coerced to a number *)






(** *** Coercion failures *)



End Coercion.




(** * The model on concrete inputs *)

Example Number_toString_examples :
  map Number_toString
    [dec 1 (-1); dec 15 (-1); int 424242; dec 1 21; dec 1 (-7);
     SFadd prec emax (dec 1 (-1)) (dec 2 (-1)); dec (-9) (-1)]
  = ["0.1"; "1.5"; "424242"; "1e+21"; "1e-7"; "0.30000000000000004";
     "-0.9"]%string.
Proof. by vm_compute. Qed.

Example StringToNumber_examples :
  map (fun s => StringToNumber (js s))
    [EmptyString; " 1.5 "; ".5"; "5."; "1e3"; "0x10"; "-0"; "12px"; "1e";
     "."]%string
  = [S754_zero false; dec 15 (-1); dec 5 (-1); int 5; int 1000; int 16;
     S754_zero true; NaN; NaN; NaN].
Proof. by vm_compute. Qed.

Example StrategyForm_initial :
  StrategyForm Browser initial_form
  = Some {|
      b64 := js
        ("eyJzeW1ib2xzIjoiRVVSVVNELEdCUFVTRCIsInRpbWVmcmFtZSI6Ik0xNSIsInJp" +:+
         "c2tQZXJUcmFkZVBjdCI6MSwibWF4T3BlblBvc2l0aW9ucyI6MywiZW1hRmFzdCI6" +:+
         "NTAsImVtYVNsb3ciOjIwMCwicnNpUGVyaW9kIjoxNCwiYXRyUGVyaW9kIjoxNCwi" +:+
         "YXRyU3RvcE11bHRpcGxpZXIiOjIsInRha2VQcm9maXRSTXVsdGlwbGUiOjIsInRy" +:+
         "YWlsaW5nU3RvcEFUUiI6MS41LCJkYWlseUxvc3NMaW1pdFBjdCI6NSwibWF4RHJh" +:+
         "d2Rvd25QY3QiOjIwLCJsaXZlVHJhZGluZyI6ImZhbHNlIiwibWFnaWNOdW1iZXIi" +:+
         "OjQyNDI0Mn0=");
      pythonCmd := js
        ("python mt5_connector/connector.py --config-b64 '" +:+
         "eyJzeW1ib2xzIjoiRVVSVVNELEdCUFVTRCIsInRpbWVmcmFtZSI6Ik0xNSIsInJp" +:+
         "c2tQZXJUcmFkZVBjdCI6MSwibWF4T3BlblBvc2l0aW9ucyI6MywiZW1hRmFzdCI6" +:+
         "NTAsImVtYVNsb3ciOjIwMCwicnNpUGVyaW9kIjoxNCwiYXRyUGVyaW9kIjoxNCwi" +:+
         "YXRyU3RvcE11bHRpcGxpZXIiOjIsInRha2VQcm9maXRSTXVsdGlwbGUiOjIsInRy" +:+
         "YWlsaW5nU3RvcEFUUiI6MS41LCJkYWlseUxvc3NMaW1pdFBjdCI6NSwibWF4RHJh" +:+
         "d2Rvd25QY3QiOjIwLCJsaXZlVHJhZGluZyI6ImZhbHNlIiwibWFnaWNOdW1iZXIi" +:+
         "OjQyNDI0Mn0='")
    |}.
Proof. by vm_compute. Qed.

Example payload_of_unicode_symbols :
  match
    safeParse StrategySchema
      (handleChange "symbols" [8364; 55357; 56832; 34; 55357] initial_form)
  with
  | Success c =>
      bool_decide
        (toBase64 Browser c ≫= Connector.decode = Some (JSON_stringify c))
      && bool_decide
           (firstn 25 (JSON_stringify c)
            = [123; 34] ++ js "symbols"
              ++ [34; 58; 34; 8364; 55357; 56832; 92; 34]
              ++ js "\ud83d" ++ [34; 44])
  | Failure _ => false
  end = true.
Proof. vm_compute. reflexivity. Qed.

Example unescape_examples :
  unescape (js "%u0041%41%4g%u00%zz%") = js "AA%4g%u00%zz%"
  /\ (unescape <$> encodeURIComponent [233; 55357; 56832])
     = Some [195; 169; 240; 159; 152; 128]
  /\ encodeURIComponent [55357] = None.
Proof. by vm_compute. Qed.

Example three_invalid_fields :
  safeParse StrategySchema
    (handleChange "emaFast" (js "1.5")
       (handleChange "timeframe" (js "M16")
          (handleChange "riskPerTradePct" (js "abc") initial_form)))
  = Failure
      [ {| code := invalid_enum_value (JStr (js "M16")) timeframe_tokens;
           path := ["timeframe"] |};
        {| code := invalid_type (expected_type zpt_number) zpt_nan;
           path := ["riskPerTradePct"] |};
        {| code := invalid_type (expected_type zpt_integer) zpt_float;
           path := ["emaFast"] |};
        {| code := too_small (int 2) true; path := ["emaFast"] |} ].
Proof. by vm_compute. Qed.

(** * Further properties of the code *)

(** ** Validation *)

Section MoreValidation.

Implicit Types (data : gmap string JSValue) (c : JSObject).

Lemma _parse_value_defined t p d r iss :
  _parse t p d = (r, iss) ->
  match r with
  | OK v | DIRTY v => v <> JUndefined
  | INVALID => True
  end.
Proof.
  revert d. induction t as [|values|coerce checks|t IH dv]; intros d.
  - destruct d; cbn; intros [= <- <-]; done.
  - destruct d; cbn; try (intros [= <- <-]; done).
    case_bool_decide; intros [= <- <-]; done.
  - cbn [_parse]. unfold ZodNumber_parse, invalid.
    destruct (if coerce then JNum (Number d) else d) as [| | |x|];
      try (intros [= <- <-]; done).
    destruct (isNaN x); [by intros [= <- <-]|].
    destruct (flat_map _ _); intros [= <- <-]; done.
  - cbn [_parse]. apply IH.
Qed.

(** The outcome of a parse depends on the input only through what the
    validator of each key returns. *)
Lemma _parseObject_ext o data1 data2 :
  (forall kt, kt ∈ shape o -> field_result data1 kt = field_result data2 kt) ->
  _parseObject o data1 = _parseObject o data2.
Proof.
  destruct o as [sh]. cbn [shape]. unfold _parseObject. intros H.
  cut (mergeObjectSync (map fst (object_pairs {| shape := sh |} data1))
       = mergeObjectSync (map fst (object_pairs {| shape := sh |} data2))
       /\ map snd (object_pairs {| shape := sh |} data1)
          = map snd (object_pairs {| shape := sh |} data2)).
  { by intros [-> ->]. }
  induction sh as [|[k t] sh IH]; [done|].
  rewrite !object_pairs_cons, <- (H (k, t)) by left.
  destruct IH as [IH1 IH2]; [intros kt Hkt; apply H; by right|].
  destruct (field_result data1 (k, t)) as [r iss] eqn:Hr.
  apply _parse_value_defined in Hr.
  cbn [map fst snd mergeObjectSync pair_value]. rewrite IH1, IH2.
  split; [|done]. unfold set_property. cbn [pair_key alwaysSet].
  destruct r as [v|v|]; [..|done];
    rewrite (bool_decide_eq_false_2 (v = JUndefined)) by done; done.
Qed.

Lemma safeParse_ext o data1 data2 :
  (forall kt, kt ∈ shape o -> field_result data1 kt = field_result data2 kt) ->
  safeParse o data1 = safeParse o data2.
Proof. intros H. unfold safeParse. by rewrite (_parseObject_ext _ _ _ H). Qed.

(** When no key has an issue the parse succeeds. *)
Lemma safeParse_all_valid o data :
  no_proto o ->
  (forall kt, kt ∈ shape o -> (field_result data kt).2 = []) ->
  exists c, safeParse o data = Success c.
Proof.
  intros Hp H.
  exists (map (fun kt : string * ZodType =>
                 (kt.1, match (field_result data kt).1 with
                        | OK v => v
                        | _ => JUndefined
                        end)) (shape o)).
  apply safeParse_Success; [done|].
  apply Forall2_fmap_r, Forall_Forall2_diag, Forall_forall.
  intros kt Hkt. unfold compose. cbn [fst snd]. split; [done|].
  destruct (_parse_issues_nil kt.2 [kt.1] (default JUndefined (data !! kt.1)))
    as [v Hv]; [by apply H|].
  unfold field_result. by rewrite Hv.
Qed.

Lemma Success_keys o data c :
  no_proto o -> safeParse o data = Success c -> map fst c = keys o.
Proof.
  intros Hp Hc%safeParse_Success; [|done]. unfold keys.
  induction Hc as [|kt kv sh c' [Hk _] _ IH]; [done|].
  cbn [map]. by rewrite Hk, IH.
Qed.

Lemma get_not_in c key : key ∉ map fst c -> get c key = JUndefined.
Proof.
  induction c as [|[k v] c IH]; [done|].
  cbn [map fst]. intros [Hne Hin]%not_elem_of_cons.
  rewrite get_cons, bool_decide_eq_false_2 by done. by apply IH.
Qed.


Lemma _parse_idempotent t p d v iss :
  _parse t p d = (OK v, iss) -> _parse t p v = (OK v, []).
Proof.
  revert d. induction t as [|values|coerce checks|t IH dv]; intros d.
  - destruct d; cbn; intros [= <- _]; done.
  - destruct d; cbn; try (intros [=]; fail).
    case_bool_decide; intros [= <- _]. cbn. by rewrite bool_decide_eq_true_2.
  - cbn [_parse]. unfold ZodNumber_parse, invalid.
    destruct (if coerce then JNum (Number d) else d) as [| | |x|] eqn:Hd;
      try (intros [=]; fail).
    destruct (isNaN x) eqn:Hx; [by intros [=]|].
    destruct (flat_map _ _) eqn:Hf; intros [= <- _].
    destruct coerce; cbn [Number]; by rewrite Hx, Hf.
  - cbn [_parse]. intros H. pose proof (_parse_OK _ _ _ _ _ H) as [_ Hv].
    apply IH in H. by destruct v.
Qed.

End MoreValidation.

(** X1, the fields of a validated configuration: its keys are exactly the
    keys of the schema, in the order of the schema, whatever keys the form
    has. *)
Theorem validated_keys (data : gmap string JSValue) c :
  safeParse StrategySchema data = Success c ->
  map fst c = keys StrategySchema.
Proof. apply Success_keys, StrategySchema_no_proto. Qed.

Lemma validated_keys_witness :
  map fst default_config = keys StrategySchema.
Proof.
  apply (validated_keys (<["comment" := JStr (js "x")]> ∅)).
  vm_compute. reflexivity.
Defined.

(** X2, validation is idempotent: a validated configuration, read as a
    form, validates to itself. *)
Theorem validation_idempotent (data : gmap string JSValue) c :
  safeParse StrategySchema data = Success c ->
  safeParse StrategySchema (list_to_map c) = Success c.
Proof.
  intros Hc. pose proof (Success_keys _ _ _ StrategySchema_no_proto Hc) as Hk.
  apply StrategySchema_Success in Hc. apply StrategySchema_Success.
  apply Forall2_same_length_lookup. split; [by eapply Forall2_length|].
  intros i kt kv Hi Hj.
  destruct (Forall2_lookup_lr _ _ _ _ _ _ Hc Hi Hj) as [Hkv Hr].
  split; [done|]. unfold field_result in *. rewrite <- Hkv.
  rewrite (elem_of_list_to_map_1 c kv.1 kv.2).
  - cbn [default]. rewrite Hkv. by eapply _parse_idempotent.
  - change (NoDup (map fst c)). rewrite Hk. apply StrategySchema_NoDup.
  - destruct kv. by eapply list_elem_of_lookup_2.
Qed.

Lemma validation_idempotent_witness :
  safeParse StrategySchema (list_to_map default_config)
  = Success default_config.
Proof.
  apply (validation_idempotent ∅). vm_compute. reflexivity.
Defined.

(** X3, unknown keys are ignored: a key that the schema does not declare
    changes neither the validated configuration nor the issues. *)
Theorem unknown_key_ignored (data : gmap string JSValue) k v :
  k ∉ keys StrategySchema ->
  safeParse StrategySchema (<[k:=v]> data) = safeParse StrategySchema data.
Proof.
  intros Hk. apply safeParse_ext. intros kt Hkt.
  apply field_result_insert_ne. intros <-.
  apply Hk, list_elem_of_fmap. eauto.
Qed.

Lemma unknown_key_ignored_witness :
  safeParse StrategySchema (<["comment" := JNum (int 7)]> initial_form)
  = safeParse StrategySchema initial_form.
Proof.
  apply unknown_key_ignored.
  apply (bool_decide_unpack _). vm_compute. exact I.
Defined.

(** X4, a field holding [undefined] is treated as an absent field: both
    take the default of the schema. *)
Theorem undefined_is_absent (data : gmap string JSValue) k :
  safeParse StrategySchema (<[k := JUndefined]> data)
  = safeParse StrategySchema (delete k data).
Proof.
  apply safeParse_ext. intros kt _. unfold field_result.
  destruct (decide (kt.1 = k)) as [->|Hne].
  - by rewrite lookup_insert_eq, lookup_delete_eq.
  - by rewrite lookup_insert_ne, lookup_delete_ne.
Qed.

(** X5, validation is field by field: a form validates exactly when no
    field has an issue, and the issues of a field depend on the value of
    that field only; no relation between two fields is checked. *)
Theorem validation_is_fieldwise :
  (forall data : gmap string JSValue,
     (exists c, safeParse StrategySchema data = Success c)
     <-> Forall (fun k => field_issues StrategySchema data k = [])
           (keys StrategySchema))
  /\ (forall (data1 data2 : gmap string JSValue) k,
        data1 !! k = data2 !! k ->
        field_issues StrategySchema data1 k
        = field_issues StrategySchema data2 k).
Proof.
  split.
  - intros data. rewrite Forall_forall. split.
    + intros [c Hc] k ([k' t] & -> & Hin)%list_elem_of_fmap.
      rewrite (field_issues_in _ StrategySchema_NoDup _ _ t Hin).
      by rewrite (StrategySchema_get _ _ _ _ Hc Hin).
    + intros H. apply safeParse_all_valid; [apply StrategySchema_no_proto|].
      intros [k t] Hin.
      rewrite <- (field_issues_in _ StrategySchema_NoDup _ _ t Hin).
      apply H, list_elem_of_fmap. by exists (k, t).
  - intros data1 data2 k H. unfold field_issues.
    destruct (find _ _) as [kt|] eqn:Hf; [|done].
    apply find_some in Hf as [_ Hk%bool_decide_eq_true].
    unfold field_result. by rewrite Hk, H.
Qed.

Lemma validation_is_fieldwise_witness :
  (exists c,
     safeParse StrategySchema
       (handleChange "emaFast" (js "200")
          (handleChange "emaSlow" (js "5") initial_form)) = Success c)
  /\ field_issues StrategySchema
       (handleChange "emaSlow" (js "5") initial_form) "emaFast"
     = field_issues StrategySchema initial_form "emaFast".
Proof.
  split.
  - apply (proj1 validation_is_fieldwise).
    apply (bool_decide_unpack _). vm_compute. exact I.
  - apply (proj2 validation_is_fieldwise). reflexivity.
Defined.

(** X6, a failure always has issues: validation never fails with an
    empty list, and the path of every issue is one key of the schema. *)
Theorem failure_has_issues (data : gmap string JSValue) issues :
  safeParse StrategySchema data = Failure issues ->
  issues <> []
  /\ forall i, i ∈ issues ->
       exists k, k ∈ keys StrategySchema /\ path i = [k].
Proof.
  intros Hf. pose proof (safeParse_Failure _ _ _ Hf) as ->. split.
  - intros Hnil.
    destruct (safeParse_all_valid StrategySchema data StrategySchema_no_proto)
      as [c Hc]; [|congruence].
    intros kt Hkt.
    rewrite concat_nil_Forall, Forall_map, Forall_forall in Hnil.
    by apply Hnil.
  - intros i (l & (kt & <- & Hkt)%in_map_iff & Hi)%list_elem_of_In%in_concat.
    exists kt.1. split.
    + apply list_elem_of_fmap. exists kt. by apply list_elem_of_In in Hkt.
    + apply list_elem_of_In in Hi. by apply _parse_path in Hi.
Qed.

Lemma failure_has_issues_witness :
  [{| code := too_small (int 2) true; path := ["emaFast"] |}] <> []
  /\ forall i,
       i ∈ [{| code := too_small (int 2) true; path := ["emaFast"] |}] ->
       exists k, k ∈ keys StrategySchema /\ path i = [k].
Proof.
  apply (failure_has_issues (handleChange "emaFast" (js "1") initial_form)).
  vm_compute. reflexivity.
Defined.

(** X7, an edit leaves the other fields of the configuration alone: when
    a form and its edit at one key both validate, the two configurations
    agree on every other key. *)
Theorem edit_keeps_other_fields (data : gmap string JSValue) c f v c' g :
  safeParse StrategySchema data = Success c ->
  safeParse StrategySchema (<[f:=v]> data) = Success c' ->
  g <> f ->
  get c' g = get c g.
Proof.
  intros Hc Hc' Hne.
  destruct (decide (g ∈ keys StrategySchema)) as [Hg|Hg].
  - apply list_elem_of_fmap in Hg as ([k t] & -> & Hin). cbn [fst] in *.
    pose proof (StrategySchema_get _ _ _ _ Hc Hin) as H1.
    pose proof (StrategySchema_get _ _ _ _ Hc' Hin) as H2.
    rewrite field_result_insert_ne in H2 by done. congruence.
  - rewrite !get_not_in; [done|..].
    + by rewrite (Success_keys _ _ _ StrategySchema_no_proto Hc).
    + by rewrite (Success_keys _ _ _ StrategySchema_no_proto Hc').
Qed.

Lemma edit_keeps_other_fields_witness :
  get [("symbols", JStr (js "EURUSD,GBPUSD")); ("timeframe", JStr (js "M15"));
       ("riskPerTradePct", JNum (int 1)); ("maxOpenPositions", JNum (int 3));
       ("emaFast", JNum (int 10)); ("emaSlow", JNum (int 200));
       ("rsiPeriod", JNum (int 14)); ("atrPeriod", JNum (int 14));
       ("atrStopMultiplier", JNum (int 2));
       ("takeProfitRMultiple", JNum (int 2));
       ("trailingStopATR", JNum (dec 15 (-1)));
       ("dailyLossLimitPct", JNum (int 5)); ("maxDrawdownPct", JNum (int 20));
       ("liveTrading", JStr (js "false")); ("magicNumber", JNum (int 424242))]
      "emaSlow"
  = get default_config "emaSlow".
Proof.
  apply (edit_keeps_other_fields initial_form default_config "emaFast"
           (JStr (js "10"))).
  - vm_compute. reflexivity.
  - vm_compute. reflexivity.
  - discriminate.
Defined.

(** ** Numbers and enumerations *)

Section MoreNumbers.

Implicit Types (data : gmap string JSValue) (c : JSObject) (x y : number).

Lemma SFcompare_antisym x y :
  SFcompare y x = CompOpp <$> SFcompare x y.
Proof.
  destruct x as [sx|sx| |sx mx ex], y as [sy|sy| |sy my ey]; cbn;
    try done; try (by destruct sx); try (by destruct sy);
    try (by destruct sx, sy).
  change (Pos.compare_cont Eq my mx) with (my ?= mx)%positive.
  change (Pos.compare_cont Eq mx my) with (mx ?= my)%positive.
  rewrite (Z.compare_antisym ex ey), (Pos.compare_antisym mx my).
  destruct sx, sy; try done;
    destruct (ex ?= ey); cbn; try done; by destruct (mx ?= my)%positive.
Qed.

(** [x < y] false between numbers that are not NaN is [x >= y]. *)
Lemma not_lt_ge x y :
  isNaN x = false -> isNaN y = false -> lt x y = false -> ge x y = true.
Proof.
  intros Hx Hy. unfold lt, ge, SFltb, SFleb.
  rewrite (SFcompare_antisym x y).
  destruct (SFcompare x y) as [[]|] eqn:Hc; try done.
  by destruct x, y.
Qed.

Lemma flat_map_nil {A B} (f : A -> list B) l :
  flat_map f l = [] <-> Forall (fun a => f a = []) l.
Proof.
  induction l as [|a l IH]; cbn.
  - split; [constructor|done].
  - rewrite Forall_cons, <- IH. split.
    + by intros [-> ->]%app_eq_nil.
    + by intros [-> ->].
Qed.

Lemma number_check_nil x p check :
  number_check x p check = [] <-> check_passes x check.
Proof.
  destruct check as [|value inclusive|value inclusive]; cbn.
  - by destruct (isInteger x).
  - by destruct (if inclusive then lt x value else le x value).
  - by destruct (if inclusive then gt x value else ge x value).
Qed.

(** A coerced number validates exactly when it is not NaN and passes
    every check. *)
Lemma ZodNumber_parse_coerce_OK checks p d :
  (exists v iss, ZodNumber_parse true checks p d = (OK v, iss))
  <-> isNaN (Number d) = false /\ Forall (check_passes (Number d)) checks.
Proof.
  unfold ZodNumber_parse, invalid.
  rewrite <- (Forall_iff (fun ch => number_check (Number d) p ch = []))
    by (intros ch; apply number_check_nil).
  rewrite <- flat_map_nil.
  destruct (isNaN (Number d)).
  - split; [by intros (v & iss & [=])|by intros [? _]].
  - destruct (flat_map _ _).
    + split; [done|eauto].
    + split; [by intros (v & iss & [=])|by intros [_ ?]].
Qed.

Lemma ZodNumber_parse_coerce_value checks p d v iss :
  ZodNumber_parse true checks p d = (OK v, iss) -> v = JNum (Number d).
Proof.
  unfold ZodNumber_parse, invalid.
  destruct (isNaN (Number d)); [by intros [=]|].
  destruct (flat_map _ _); by intros [=].
Qed.

(** A value that is present is validated through [Number]: two inputs
    with the same coercion are not told apart. *)
Lemma coerce_default_parse_Number checks dv p v :
  v <> JUndefined ->
  _parse (ZodDefault (ZodNumber true checks) dv) p v
  = ZodNumber_parse true checks p (JNum (Number v)).
Proof. by destruct v. Qed.

Lemma numeric_field_checks f lo hi :
  (f, (lo, hi)) ∈ bounds ->
  exists dv,
    (f, ZodDefault (ZodNumber true (field_checks f lo hi)) dv)
    ∈ shape StrategySchema
    /\ isNaN lo = false /\ isNaN hi = false
    /\ exists x0, dv = JNum x0.
Proof.
  unfold bounds. intros Hb.
  repeat (apply elem_of_cons in Hb as [[= -> -> ->]|Hb];
    [eexists; split; [|by eauto];
     unfold field_checks;
     match goal with
     | |- context [bool_decide ?P] =>
         let b := eval vm_compute in (bool_decide P) in
         change (bool_decide P) with b
     end; in_shape|]).
  by apply elem_of_nil in Hb.
Qed.

End MoreNumbers.

(** X8, the numbers of a validated configuration: every bounded numeric
    field holds a number that is not NaN, lies in the closed interval of
    the schema and, for a field declared [.int()], is an integer. *)
Theorem validated_numbers (data : gmap string JSValue) c f lo hi :
  safeParse StrategySchema data = Success c ->
  (f, (lo, hi)) ∈ bounds ->
  exists x,
    get c f = JNum x /\ isNaN x = false
    /\ ge x lo = true /\ le x hi = true
    /\ (f ∈ integer_fields -> isInteger x = true).
Proof.
  intros Hc Hb.
  destruct (numeric_field_checks f lo hi Hb)
    as (dv & Hin & Hlo & Hhi & _).
  pose proof (StrategySchema_get _ _ _ _ Hc Hin) as Hg.
  unfold field_result in Hg. cbn [fst snd _parse] in Hg.
  set (d := match default JUndefined (data !! f) with
            | JUndefined => dv
            | _ => default JUndefined (data !! f)
            end) in Hg.
  pose proof (ZodNumber_parse_coerce_value _ _ _ _ _ Hg) as Hv.
  destruct (proj1 (ZodNumber_parse_coerce_OK (field_checks f lo hi) [f] d))
    as [Hnan Hchecks]; [eauto|].
  exists (Number d). split; [done|]. split; [done|].
  unfold field_checks in Hchecks.
  apply Forall_app in Hchecks as [Hint Hmm].
  apply Forall_cons in Hmm as [Hmin [Hmax _]%Forall_cons].
  cbn in Hmin, Hmax. split; [by apply not_lt_ge|].
  split; [by apply (not_lt_ge hi (Number d))|].
  intros Hf. rewrite bool_decide_eq_true_2 in Hint by done.
  by apply Forall_cons in Hint as [? _].
Qed.

Lemma validated_numbers_witness :
  exists x,
    get default_config "emaFast" = JNum x /\ isNaN x = false
    /\ ge x (int 2) = true /\ le x (int 200) = true
    /\ ("emaFast" ∈ integer_fields -> isInteger x = true).
Proof.
  apply (validated_numbers initial_form).
  - vm_compute. reflexivity.
  - apply (bool_decide_unpack _). vm_compute. exact I.
Defined.

(** X9, what a numeric field accepts: in a form that validates, a value
    that is present is accepted for a bounded numeric field exactly when
    its coercion by [Number] is not NaN, is not below the minimum, is not
    above the maximum and, for a field declared [.int()], is an integer. *)
Theorem numeric_field_accepts (data : gmap string JSValue) c f lo hi v :
  safeParse StrategySchema data = Success c ->
  (f, (lo, hi)) ∈ bounds ->
  v <> JUndefined ->
  (exists c', safeParse StrategySchema (<[f:=v]> data) = Success c')
  <-> isNaN (Number v) = false
      /\ lt (Number v) lo = false /\ gt (Number v) hi = false
      /\ (f ∈ integer_fields -> isInteger (Number v) = true).
Proof.
  intros Hc Hb Hv.
  destruct (numeric_field_checks f lo hi Hb) as (dv & Hin & _).
  rewrite (safeParse_edit _ StrategySchema_no_proto StrategySchema_NoDup
             data c f _ v Hin Hc).
  rewrite coerce_default_parse_Number by done.
  pose proof (ZodNumber_parse_coerce_OK (field_checks f lo hi) [f]
                (JNum (Number v))) as Hok.
  cbn [Number] in Hok.
  assert (Forall (check_passes (Number v)) (field_checks f lo hi)
          <-> lt (Number v) lo = false /\ gt (Number v) hi = false
              /\ (f ∈ integer_fields -> isInteger (Number v) = true))
    as Hchecks.
  { unfold field_checks. rewrite Forall_app, !Forall_cons. cbn.
    case_bool_decide as Hf.
    - rewrite Forall_cons. cbn. split.
      + intros [[? _] (? & ? & _)]. auto.
      + intros (? & ? & Hi). repeat split; auto.
    - split.
      + intros [_ (? & ? & _)]. repeat split; [done..|]. by intros ?.
      + intros (? & ? & _). repeat split; auto. }
  rewrite <- Hchecks, <- Hok.
  destruct (ZodNumber_parse _ _ _ _) as [[v'|v'|] iss]; split;
    try (by intros [c' [=]]); try (by intros (? & ? & [=])); eauto.
Qed.

Lemma numeric_field_accepts_witness :
  (exists c',
     safeParse StrategySchema (<["rsiPeriod" := JStr (js "21")]> initial_form)
     = Success c')
  <-> isNaN (Number (JStr (js "21"))) = false
      /\ lt (Number (JStr (js "21"))) (int 2) = false
      /\ gt (Number (JStr (js "21"))) (int 50) = false
      /\ ("rsiPeriod" ∈ integer_fields ->
          isInteger (Number (JStr (js "21"))) = true).
Proof.
  apply (numeric_field_accepts initial_form default_config).
  - vm_compute. reflexivity.
  - apply (bool_decide_unpack _). vm_compute. exact I.
  - discriminate.
Defined.

(** ** More on numeric fields *)

Lemma shape_functional (o : ZodObject) k t1 t2 :
  NoDup (keys o) -> (k, t1) ∈ shape o -> (k, t2) ∈ shape o -> t1 = t2.
Proof.
  unfold keys. generalize (shape o). intros sh.
  induction sh as [|[k' t'] sh IH]; [by intros _ ?%elem_of_nil|].
  cbn [map fst]. intros [Hk Hnd]%NoDup_cons H1 H2.
  apply elem_of_cons in H1, H2. destruct H1 as [E1|H1], H2 as [E2|H2].
  - congruence.
  - injection E1 as -> ->. destruct Hk. apply list_elem_of_fmap.
    by exists (k', t2).
  - injection E2 as -> ->. destruct Hk. apply list_elem_of_fmap.
    by exists (k', t1).
  - by apply IH.
Qed.

Lemma numeric_field_bounds f :
  f ∈ numeric_fields -> exists lo hi, (f, (lo, hi)) ∈ bounds.
Proof.
  unfold numeric_fields. intros ([f' [lo hi]] & -> & Hin)%list_elem_of_fmap.
  eauto.
Qed.

(** X10, the issues of a numeric field: on a value that is present and
    that [Number] coerces to a number, every check of the field runs, and
    the issues of the field are, in this order, a type issue when the
    field is declared [.int()] and the number is not an integer, a
    [too_small] issue when the number is below the minimum and a
    [too_big] issue when it is above the maximum. *)
Theorem numeric_field_issues (data : gmap string JSValue) f lo hi v :
  (f, (lo, hi)) ∈ bounds ->
  data !! f = Some v -> v <> JUndefined ->
  isNaN (Number v) = false ->
  field_issues StrategySchema data f
  = (if bool_decide (f ∈ integer_fields) && negb (isInteger (Number v))
     then [{| code := invalid_type (expected_type zpt_integer) zpt_float;
              path := [f] |}]
     else [])
    ++ (if lt (Number v) lo
        then [{| code := too_small lo true; path := [f] |}] else [])
    ++ (if gt (Number v) hi
        then [{| code := too_big hi true; path := [f] |}] else []).
Proof.
  intros Hb Hd Hv Hnan.
  destruct (numeric_field_checks f lo hi Hb) as (dv & Hin & _).
  rewrite (field_issues_in _ StrategySchema_NoDup data f _ Hin).
  unfold field_result. cbn [fst snd]. rewrite Hd.
  change (default JUndefined (Some v)) with v.
  rewrite coerce_default_parse_Number by done.
  unfold ZodNumber_parse. cbv beta iota zeta.
  change (Number (JNum (Number v))) with (Number v).
  rewrite Hnan. unfold field_checks.
  case_bool_decide; cbn [andb app flat_map number_check];
    destruct (isInteger (Number v)), (lt (Number v) lo),
      (gt (Number v) hi); reflexivity.
Qed.

Lemma numeric_field_issues_witness :
  field_issues StrategySchema
    (handleChange "emaFast" (js "0.5") initial_form) "emaFast"
  = (if bool_decide ("emaFast" ∈ integer_fields)
        && negb (isInteger (Number (JStr (js "0.5"))))
     then [{| code := invalid_type (expected_type zpt_integer) zpt_float;
              path := ["emaFast"] |}]
     else [])
    ++ (if lt (Number (JStr (js "0.5"))) (int 2)
        then [{| code := too_small (int 2) true; path := ["emaFast"] |}]
        else [])
    ++ (if gt (Number (JStr (js "0.5"))) (int 200)
        then [{| code := too_big (int 200) true; path := ["emaFast"] |}]
        else []).
Proof.
  apply (numeric_field_issues
           (handleChange "emaFast" (js "0.5") initial_form)).
  - apply (bool_decide_unpack _). vm_compute. exact I.
  - vm_compute. reflexivity.
  - discriminate.
  - vm_compute. reflexivity.
Defined.

(** X11, a fraction in an integer field: whatever the rest of the form
    holds, a value whose coercion is a number that is not an integer
    makes validation fail when it is given to a field declared [.int()],
    with a type issue on that field (expected integer, received
    float). *)
Theorem integer_field_rejects_fraction (data : gmap string JSValue) f v :
  f ∈ integer_fields -> v <> JUndefined ->
  isNaN (Number v) = false -> isInteger (Number v) = false ->
  exists issues,
    safeParse StrategySchema (<[f:=v]> data) = Failure issues
    /\ {| code := invalid_type (expected_type zpt_integer) zpt_float;
          path := [f] |} ∈ issues.
Proof.
  intros Hf Hv Hnan Hint.
  assert (exists cs dv,
            (f, ZodDefault (ZodNumber true (check_int :: cs)) dv)
            ∈ shape StrategySchema) as (cs & dv & Hin).
  { unfold integer_fields in Hf.
    repeat (apply elem_of_cons in Hf as [->|Hf]; [do 2 eexists; in_shape|]).
    by apply elem_of_nil in Hf. }
  assert (exists i issues,
            _parse (ZodDefault (ZodNumber true (check_int :: cs)) dv) [f] v
            = (DIRTY (JNum (Number v)), i :: issues)
            /\ i = {| code := invalid_type (expected_type zpt_integer)
                                zpt_float;
                      path := [f] |}) as (i & rest & Hp & Hi).
  { rewrite coerce_default_parse_Number by done.
    unfold ZodNumber_parse. cbv beta iota zeta.
    change (Number (JNum (Number v))) with (Number v).
    cbn [flat_map number_check].
    rewrite Hnan, Hint. cbn [negb app]. eauto. }
  eexists. split.
  - apply (StrategySchema_invalid_key _ _ Hin).
    intros v'. by rewrite field_result_insert, Hp.
  - apply list_elem_of_In, in_concat. eexists. split.
    + apply in_map, list_elem_of_In, Hin.
    + rewrite field_result_insert, Hp. cbn [snd]. rewrite Hi. by left.
Qed.

Lemma integer_field_rejects_fraction_witness :
  exists issues,
    safeParse StrategySchema
      (<["magicNumber" := JStr (js "1.5")]> initial_form) = Failure issues
    /\ {| code := invalid_type (expected_type zpt_integer) zpt_float;
          path := ["magicNumber"] |} ∈ issues.
Proof.
  apply (integer_field_rejects_fraction initial_form).
  - apply (bool_decide_unpack _). vm_compute. exact I.
  - discriminate.
  - vm_compute. reflexivity.
  - vm_compute. reflexivity.
Defined.

(** X12, coercion hides the input: two values that are present and that
    [Number] coerces to the same number are not told apart by a numeric
    field, whatever the rest of the form holds: the two forms validate to
    the same configuration or fail with the same issues. *)
Theorem same_coercion_same_result (data : gmap string JSValue) f v1 v2 :
  f ∈ numeric_fields ->
  v1 <> JUndefined -> v2 <> JUndefined ->
  Number v1 = Number v2 ->
  safeParse StrategySchema (<[f:=v1]> data)
  = safeParse StrategySchema (<[f:=v2]> data).
Proof.
  intros Hf H1 H2 Heq.
  destruct (numeric_field_bounds f Hf) as (lo & hi & Hb).
  destruct (numeric_field_checks f lo hi Hb) as (dv & Hin & _).
  apply safeParse_ext. intros [k t] Hkt.
  destruct (decide (k = f)) as [->|Hne].
  - rewrite (shape_functional _ _ _ _ StrategySchema_NoDup Hkt Hin).
    rewrite !field_result_insert, !coerce_default_parse_Number by done.
    by rewrite Heq.
  - by rewrite !field_result_insert_ne.
Qed.

Lemma same_coercion_same_result_witness :
  safeParse StrategySchema (<["emaSlow" := JStr (js " 2e2 ")]> initial_form)
  = safeParse StrategySchema (<["emaSlow" := JNum (int 200)]> initial_form).
Proof.
  apply (same_coercion_same_result initial_form).
  - apply (bool_decide_unpack _). vm_compute. exact I.
  - discriminate.
  - discriminate.
  - vm_compute. reflexivity.
Defined.

(** X13, an input that is cleared: in a form that validates, a numeric
    field set to a string of white space only (the empty string too) is
    coerced to 0; the form still validates, with 0 in the configuration,
    when the minimum of the field is 0, and fails with one [too_small]
    issue on the field otherwise. *)
Theorem cleared_numeric_field (data : gmap string JSValue) c f lo hi s :
  safeParse StrategySchema data = Success c ->
  (f, (lo, hi)) ∈ bounds ->
  forallb is_whitespace s = true ->
  if lt (int 0) lo
  then safeParse StrategySchema (handleChange f s data)
       = Failure [{| code := too_small lo true; path := [f] |}]
  else exists c',
         safeParse StrategySchema (handleChange f s data) = Success c'
         /\ get c' f = JNum (int 0).
Proof.
  intros Hc Hb Hs.
  assert (Number (JStr s) = int 0) as Hv
    by (cbn [Number]; by rewrite StringToNumber_blank).
  unfold handleChange, bounds in *.
  repeat (apply elem_of_cons in Hb as [[= -> -> ->]|Hb];
    [match goal with
     | |- context [lt ?a ?b] =>
         let r := eval vm_compute in (lt a b) in
         change (lt a b) with r; cbv iota
     end;
     first
       [eapply (safeParse_edit_OK _ _ _ _ (JStr s) (JNum (int 0)) []);
        [exact Hc|in_shape|eval_number Hv]
       |eapply (safeParse_edit_fail _ _ _ _ (JStr s) (DIRTY (JNum (int 0))));
        [exact Hc|in_shape|eval_number Hv|done]]
    |]).
  by apply elem_of_nil in Hb.
Qed.

Lemma cleared_numeric_field_witness :
  (exists c',
     safeParse StrategySchema
       (handleChange "trailingStopATR" [] initial_form) = Success c'
     /\ get c' "trailingStopATR" = JNum (int 0))
  /\ safeParse StrategySchema (handleChange "emaFast" (js "  ") initial_form)
     = Failure [{| code := too_small (int 2) true; path := ["emaFast"] |}].
Proof.
  assert (safeParse StrategySchema initial_form = Success default_config)
    as Hc by (vm_compute; reflexivity).
  split.
  - apply (cleared_numeric_field initial_form default_config
             "trailingStopATR" (int 0) (int 10) [] Hc).
    + apply (bool_decide_unpack _). vm_compute. exact I.
    + reflexivity.
  - apply (cleared_numeric_field initial_form default_config
             "emaFast" (int 2) (int 200) (js "  ") Hc).
    + apply (bool_decide_unpack _). vm_compute. exact I.
    + vm_compute. reflexivity.
Defined.

(** ** More on enumeration fields *)

Lemma enum_field_value (data : gmap string JSValue) c f values d :
  safeParse StrategySchema data = Success c ->
  (f, ZodDefault (ZodEnum values) (JStr d)) ∈ shape StrategySchema ->
  d ∈ values ->
  exists s, get c f = JStr s /\ s ∈ values.
Proof.
  intros Hc Hin Hd.
  pose proof (StrategySchema_get _ _ _ _ Hc Hin) as Hg.
  unfold field_result in Hg. cbn [fst snd _parse] in Hg.
  destruct (default JUndefined (data !! f)) as [| | | |s];
    try discriminate Hg.
  - rewrite bool_decide_eq_true_2 in Hg by done.
    exists d. split; [congruence|done].
  - case_bool_decide; [|discriminate Hg].
    exists s. split; [congruence|done].
Qed.

(** X14, the selects and the schema agree: the [timeframe] and the
    [liveTrading] of a validated configuration are always one of the
    options that the select of the field offers, and in a form that
    validates, choosing any option of either select gives a form that
    validates, with the option in the configuration. *)
Theorem select_options (data : gmap string JSValue) c :
  safeParse StrategySchema data = Success c ->
  (exists opt,
     opt ∈ timeframe_options /\ get c "timeframe" = JStr (js opt))
  /\ (exists opt,
        opt ∈ liveTrading_options /\ get c "liveTrading" = JStr (js opt))
  /\ (forall opt, opt ∈ timeframe_options ->
      exists c',
        safeParse StrategySchema (handleChange "timeframe" (js opt) data)
        = Success c'
        /\ get c' "timeframe" = JStr (js opt))
  /\ (forall opt, opt ∈ liveTrading_options ->
      exists c',
        safeParse StrategySchema (handleChange "liveTrading" (js opt) data)
        = Success c'
        /\ get c' "liveTrading" = JStr (js opt)).
Proof.
  intros Hc. split; [|split; [|split]].
  - destruct (enum_field_value data c "timeframe"
                (map js timeframe_options) (js "M15") Hc)
      as (s & Hs & (opt & -> & Hopt)%list_elem_of_fmap);
      [in_shape|apply (bool_decide_unpack _); by vm_compute|eauto].
  - destruct (enum_field_value data c "liveTrading"
                (map js liveTrading_options) (js "false") Hc)
      as (s & Hs & (opt & -> & Hopt)%list_elem_of_fmap);
      [in_shape|apply (bool_decide_unpack _); by vm_compute|eauto].
  - intros opt Hopt. unfold handleChange.
    eapply (safeParse_edit_OK _ _ _ _ _ _ []); [exact Hc|in_shape|].
    unfold_builders. rewrite enum_default_parse by done.
    rewrite bool_decide_eq_true_2; [done|].
    apply list_elem_of_fmap. eauto.
  - intros opt Hopt. unfold handleChange.
    eapply (safeParse_edit_OK _ _ _ _ _ _ []); [exact Hc|in_shape|].
    unfold_builders. rewrite enum_default_parse by done.
    rewrite bool_decide_eq_true_2; [done|].
    apply list_elem_of_fmap. eauto.
Qed.

Lemma select_options_witness :
  exists c',
    safeParse StrategySchema (handleChange "timeframe" (js "H4") initial_form)
    = Success c'
    /\ get c' "timeframe" = JStr (js "H4").
Proof.
  assert (safeParse StrategySchema initial_form = Success default_config)
    as Hc by (vm_compute; reflexivity).
  apply (proj1 (proj2 (proj2 (select_options initial_form default_config
                                Hc))) "H4").
  apply (bool_decide_unpack _). vm_compute. exact I.
Defined.

(** ** What validation hands to the serializer *)

Lemma bounded_checks_finite checks x p :
  bounded_checks checks = true -> isNaN x = false ->
  flat_map (number_check x p) checks = [] -> isFinite x = true.
Proof.
  intros [Hmin Hmax]%andb_true_iff Hnan Hnil%flat_map_nil.
  apply existsb_exists in Hmin as (cmin & Hin1%list_elem_of_In & Hlo).
  apply existsb_exists in Hmax as (cmax & Hin2%list_elem_of_In & Hhi).
  rewrite Forall_forall in Hnil.
  pose proof (Hnil _ Hin1) as H1. pose proof (Hnil _ Hin2) as H2.
  destruct cmin as [|lo [|]|]; try done.
  destruct cmax as [| |hi [|]]; try done.
  cbn in H1, H2.
  destruct (lt x lo) eqn:Hlt; [done|].
  destruct (gt x hi) eqn:Hgt; [done|].
  destruct x as [|[]| |]; try done.
  - by destruct lo.
  - by destruct hi.
Qed.

Lemma _parse_written_as_is t p d v issues :
  closed t = true -> _parse t p d = (OK v, issues) ->
  written_as_is v = true.
Proof.
  revert d. induction t as [|values|coerce checks|t IH dv]; intros d Ht.
  - destruct d; cbn; intros [=]. by subst.
  - destruct d; cbn; try (intros [=]; fail). case_bool_decide; intros [=].
    by subst.
  - cbn [_parse]. unfold ZodNumber_parse, invalid.
    destruct (if coerce then JNum (Number d) else d) as [| | |x|];
      try (intros [=]; fail).
    destruct (isNaN x) eqn:Hnan; [by intros [=]|].
    destruct (flat_map _ _) eqn:Hf; intros [=]. subst.
    by eapply bounded_checks_finite.
  - cbn [_parse]. by apply IH.
Qed.

Lemma StrategySchema_closed :
  Forall (fun kt : string * ZodType => closed kt.2 = true)
    (shape StrategySchema).
Proof.
  cbn [shape StrategySchema z.object].
  repeat (constructor; [by vm_compute|]). constructor.
Qed.

(** The first character of the decimal text of an integer is a digit. *)
Lemma Z_digits_head z :
  exists a r,
    Z_digits z = String a r /\ is_digit (Z.of_N (N_of_ascii a)) = true.
Proof.
  unfold Z_digits, NilZero.string_of_uint.
  destruct (N.to_uint (Z.to_N z)); cbn [NilEmpty.string_of_uint];
    do 2 eexists; split; reflexivity.
Qed.

Lemma format_decimal_head ds n :
  (exists a r,
     ds = String a r /\ is_digit (Z.of_N (N_of_ascii a)) = true) ->
  exists a r,
    format_decimal ds n = String a r
    /\ is_digit (Z.of_N (N_of_ascii a)) = true.
Proof.
  intros (a & r & -> & Ha). unfold format_decimal.
  destruct ((Z.of_nat (String.length (String a r)) <=? n) && (n <=? 21));
    [cbn [append]; do 2 eexists; split; [reflexivity|done]|].
  destruct ((0 <? n) && (n <=? 21)) eqn:Hn.
  { apply andb_true_iff in Hn as [Hn _]. apply Z.ltb_lt in Hn.
    destruct (Z.to_nat n) as [|n'] eqn:Hn'; [lia|].
    cbn [substring append]. do 2 eexists. split; [reflexivity|done]. }
  destruct ((-6 <? n) && (n <=? 0));
    [cbn [append]; do 2 eexists; split; reflexivity|].
  destruct (Z.of_nat (String.length (String a r)) =? 1);
    cbn [substring append]; do 2 eexists; (split; [reflexivity|done]).
Qed.

(** A finite number is never written [null]. *)
Lemma Number_toString_not_null x :
  isFinite x = true -> js (Number_toString x) <> js "null".
Proof.
  destruct x as [sg| | |sg m e]; try done.
  intros _. unfold Number_toString.
  destruct (shortest_digits _ _ _ _ _ _) as [s p].
  destruct (strip_zeros _ _ _) as [s' p'].
  destruct (format_decimal_head (Z_digits s')
              (p' + Z.of_nat (String.length (Z_digits s')))
              (Z_digits_head s')) as (a & r & -> & Ha).
  destruct sg; [discriminate|].
  cbn [append js list_ascii_of_string map]. intros [= Hn _].
  rewrite Hn in Ha. discriminate Ha.
Qed.

Lemma SerializeJSONProperty_written v :
  written_as_is v = true ->
  exists text,
    SerializeJSONProperty v = Some text /\ text <> js "null".
Proof.
  destruct v as [| | |x|s]; try done; intros Hv.
  - exists (js (Number_toString x)). split.
    + by destruct x.
    + by apply Number_toString_not_null.
  - exists (QuoteJSONString s). split; [done|]. discriminate.
Qed.

(** X15, the configuration is written in full: every value of a validated
    configuration is a string or a finite number, so that
    [JSON.stringify] drops no member and writes no [null]: the
    serialization is made of one member for each key of the schema, in
    the order of the configuration, each the quoted key, a colon and the
    text of the value, which is not [null]. *)
Theorem config_written_in_full (data : gmap string JSValue) c :
  safeParse StrategySchema data = Success c ->
  Forall (fun kv => written_as_is kv.2 = true) c
  /\ exists members,
       JSON_stringify c = [123] ++ join_comma members ++ [125]
       /\ length members = length (keys StrategySchema)
       /\ Forall2 (fun kv member =>
                     exists text,
                       SerializeJSONProperty kv.2 = Some text
                       /\ text <> js "null"
                       /\ member
                          = QuoteJSONString (js kv.1) ++ [58] ++ text)
            c members.
Proof.
  intros Hc.
  assert (Forall (fun kv : string * JSValue => written_as_is kv.2 = true) c)
    as Hw.
  { pose proof StrategySchema_closed as Ht.
    pose proof Hc as Hc'. apply StrategySchema_Success in Hc'. clear Hc.
    induction Hc' as [|kt kv sh c [_ Hr] _ IH]; [constructor|].
    apply Forall_cons in Ht as [Hkt Ht]. constructor; [|by apply IH].
    unfold field_result in Hr. by eapply _parse_written_as_is. }
  split; [done|]. exists (omap JSON_member c).
  split; [reflexivity|].
  assert (Forall2 (fun kv member =>
                     exists text,
                       SerializeJSONProperty kv.2 = Some text
                       /\ text <> js "null"
                       /\ member
                          = QuoteJSONString (js kv.1) ++ [58] ++ text)
            c (omap JSON_member c)) as Hm.
  { clear Hc. induction Hw as [|[k v] c Hv _ IH]; [constructor|].
    destruct (SerializeJSONProperty_written v Hv) as (text & Ht & Hn).
    cbn [omap list_omap]. unfold JSON_member at 1. cbn [fst snd].
    rewrite Ht. cbn [mbind option_bind]. constructor; [|exact IH].
    exists text. by cbn [fst snd]. }
  split; [|exact Hm].
  trans (length c); [symmetry; by eapply Forall2_length|].
  rewrite <- (Success_keys _ _ _ StrategySchema_no_proto Hc).
  by rewrite length_map.
Qed.

Lemma config_written_in_full_witness :
  Forall (fun kv => written_as_is kv.2 = true) default_config
  /\ exists members,
       JSON_stringify default_config = [123] ++ join_comma members ++ [125]
       /\ length members = length (keys StrategySchema)
       /\ Forall2 (fun kv member =>
                     exists text,
                       SerializeJSONProperty kv.2 = Some text
                       /\ text <> js "null"
                       /\ member
                          = QuoteJSONString (js kv.1) ++ [58] ++ text)
            default_config members.
Proof.
  apply (config_written_in_full initial_form).
  vm_compute. reflexivity.
Defined.

(** ** Aggregation: what the issues say *)

Section Issues.

Implicit Types (data : gmap string JSValue) (i : ZodIssue).

(** The entry of a bounded numeric field, whose default passes its
    checks. *)
Lemma numeric_field_entry f lo hi :
  (f, (lo, hi)) ∈ bounds ->
  exists dv,
    (f, ZodDefault (ZodNumber true (field_checks f lo hi)) dv)
    ∈ shape StrategySchema
    /\ dv <> JUndefined
    /\ ZodNumber_parse true (field_checks f lo hi) [f] dv = (OK dv, []).
Proof.
  unfold bounds. intros Hb.
  repeat (apply elem_of_cons in Hb as [[= -> -> ->]|Hb];
    [eexists; split;
     [unfold field_checks;
      match goal with
      | |- context [bool_decide ?P] =>
          let b := eval vm_compute in (bool_decide P) in
          change (bool_decide P) with b
      end; in_shape
     |split; [discriminate|vm_compute; reflexivity]]|]).
  by apply elem_of_nil in Hb.
Qed.

Lemma number_issue_identifies f lo hi dv data i :
  (f, (lo, hi)) ∈ bounds ->
  ZodNumber_parse true (field_checks f lo hi) [f] dv = (OK dv, []) ->
  i ∈ (field_result data
         (f, ZodDefault (ZodNumber true (field_checks f lo hi)) dv)).2 ->
  exists v, data !! f = Some v /\ identifies f v i.
Proof.
  intros Hb Hdv. unfold field_result. cbn [fst snd _parse].
  assert (f ∈ numeric_fields) as Hf.
  { apply list_elem_of_fmap. by exists (f, (lo, hi)). }
  destruct (data !! f) as [v|] eqn:Hd;
    [|change (default JUndefined None) with JUndefined; cbv iota;
      rewrite Hdv; by intros ?%elem_of_nil].
  change (default JUndefined (Some v)) with v.
  destruct (decide (v = JUndefined)) as [->|Hv];
    [cbv iota; rewrite Hdv; by intros ?%elem_of_nil|].
  intros Hi. exists v. split; [done|].
  replace (match v with JUndefined => dv | _ => v end) with v in Hi
    by (by destruct v).
  unfold ZodNumber_parse in Hi. cbv beta iota zeta in Hi.
  change (Number (JNum (Number v))) with (Number v) in Hi.
  destruct (isNaN (Number v)) eqn:Hnan.
  - apply list_elem_of_singleton in Hi as ->. by split.
  - assert (i ∈ flat_map (number_check (Number v) [f])
                  (field_checks f lo hi)) as Hin
      by (by destruct (flat_map _ _)).
    apply list_elem_of_In, in_flat_map in Hin as (check & Hc & Hin).
    apply list_elem_of_In in Hc, Hin. unfold field_checks in Hc.
    apply elem_of_app in Hc as [Hc|Hc].
    + case_bool_decide as Hint; [|by apply elem_of_nil in Hc].
      apply list_elem_of_singleton in Hc as ->. cbn in Hin.
      destruct (isInteger (Number v)) eqn:Hi'; cbn in Hin;
        [by apply elem_of_nil in Hin|].
      apply list_elem_of_singleton in Hin as ->. by split.
    + apply elem_of_cons in Hc as [->|Hc];
        [|apply list_elem_of_singleton in Hc as ->]; cbn in Hin.
      * destruct (lt (Number v) lo) eqn:Hlt;
          [|by apply elem_of_nil in Hin].
        apply list_elem_of_singleton in Hin as ->. split; [done|].
        cbn. eauto.
      * destruct (gt (Number v) hi) eqn:Hgt;
          [|by apply elem_of_nil in Hin].
        apply list_elem_of_singleton in Hin as ->. split; [done|].
        cbn. eauto.
Qed.

Lemma enum_issue_identifies f values d data i :
  (f, values) ∈ enum_fields -> d ∈ values ->
  i ∈ (field_result data (f, ZodDefault (ZodEnum values) (JStr d))).2 ->
  exists v, data !! f = Some v /\ identifies f v i.
Proof.
  intros Hf Hd. unfold field_result. cbn [fst snd _parse].
  destruct (data !! f) as [v|] eqn:Hv;
    [|change (default JUndefined None) with JUndefined; cbv iota;
      rewrite bool_decide_eq_true_2 by done; by intros ?%elem_of_nil].
  change (default JUndefined (Some v)) with v.
  intros Hi. exists v. split; [done|].
  destruct v as [| |b|x|s]; cbv iota in Hi.
  - rewrite bool_decide_eq_true_2 in Hi by done. by apply elem_of_nil in Hi.
  - apply list_elem_of_singleton in Hi as ->. by split.
  - apply list_elem_of_singleton in Hi as ->. by split.
  - apply list_elem_of_singleton in Hi as ->. split; [done|]. cbn.
    split; [done|]. split; [done|]. by destruct (isNaN x).
  - case_bool_decide as Hs; [by apply elem_of_nil in Hi|].
    apply list_elem_of_singleton in Hi as ->. split; [done|]. cbn.
    eauto.
Qed.

Lemma string_issue_identifies d data i :
  i ∈ (field_result data ("symbols", ZodDefault ZodString (JStr d))).2 ->
  exists v, data !! "symbols" = Some v /\ identifies "symbols" v i.
Proof.
  unfold field_result. cbn [fst snd _parse].
  destruct (data !! "symbols") as [v|] eqn:Hv;
    [|by intros ?%elem_of_nil].
  change (default JUndefined (Some v)) with v.
  intros Hi. exists v. split; [done|].
  destruct v as [| |b|x|s]; cbv iota in Hi;
    try (by apply elem_of_nil in Hi);
    apply list_elem_of_singleton in Hi as ->; split; try done; cbn;
    split; [done|]; split; [done|]. by destruct (isNaN x).
Qed.

(** Every issue of a field identifies the field and a constraint that
    the raw value of the field violates. *)
Lemma field_issue_identifies data k i :
  i ∈ field_issues StrategySchema data k ->
  exists v, data !! k = Some v /\ identifies k v i.
Proof.
  unfold field_issues.
  destruct (find _ _) as [[k' t]|] eqn:Hfind; [|by intros ?%elem_of_nil].
  apply find_some in Hfind as [Hin%list_elem_of_In Hk%bool_decide_eq_true].
  cbn [fst] in Hk. subst k'.
  destruct (decide (k ∈ numeric_fields)) as [Hnum|Hnum].
  - destruct (numeric_field_bounds k Hnum) as (lo & hi & Hb).
    destruct (numeric_field_entry k lo hi Hb) as (dv & Hin' & _ & Hdv).
    rewrite (shape_functional _ _ _ _ StrategySchema_NoDup Hin Hin').
    by apply number_issue_identifies.
  - cbn [shape StrategySchema z.object] in Hin.
    repeat (apply elem_of_cons in Hin as [[= -> ->]|Hin];
      [first
         [by destruct Hnum; apply (bool_decide_unpack _); vm_compute
         |apply string_issue_identifies
         |apply enum_issue_identifies;
          apply (bool_decide_unpack _); by vm_compute]|]).
    by apply elem_of_nil in Hin.
Qed.

End Issues.

(** C7, amended: when exactly three fields are invalid, each violating
    one constraint, and the others are valid, validation fails with
    exactly three issues, one per offending field in the order of the
    schema.  Each issue identifies its field (the path) and the
    constraint that the raw value of the field violates (the code, with
    the expected and the received type, the bound or the token set); a
    membership issue also holds the raw value, as [received], a type or
    a range issue does not. *)
Theorem aggregation (data : gmap string JSValue) k1 k2 k3 i1 i2 i3 :
  [k1; k2; k3] `sublist_of` keys StrategySchema ->
  field_issues StrategySchema data k1 = [i1] ->
  field_issues StrategySchema data k2 = [i2] ->
  field_issues StrategySchema data k3 = [i3] ->
  Forall (fun k => k ∈ [k1; k2; k3]
                   \/ field_issues StrategySchema data k = [])
    (keys StrategySchema) ->
  safeParse StrategySchema data = Failure [i1; i2; i3]
  /\ (exists v1, data !! k1 = Some v1 /\ identifies k1 v1 i1)
  /\ (exists v2, data !! k2 = Some v2 /\ identifies k2 v2 i2)
  /\ (exists v3, data !! k3 = Some v3 /\ identifies k3 v3 i3)
  /\ (forall k i received options,
        (k, i) ∈ [(k1, i1); (k2, i2); (k3, i3)] ->
        code i = invalid_enum_value received options ->
        data !! k = Some received).
Proof.
  intros Hsub H1 H2 H3 Hrest.
  assert (forall k i, field_issues StrategySchema data k = [i] ->
            exists v, data !! k = Some v /\ identifies k v i) as Hid.
  { intros k i Hi. apply field_issue_identifies. rewrite Hi. by left. }
  split; [|split; [by apply Hid|split; [by apply Hid|split;
    [by apply Hid|]]]].
  - assert (k1 ∈ keys StrategySchema) as Hin
      by (eapply elem_of_sublist; [|exact Hsub]; by left).
    apply list_elem_of_fmap in Hin as ([k t] & -> & Hin). cbn [fst] in *.
    rewrite (field_issues_in _ StrategySchema_NoDup _ _ t Hin) in H1.
    destruct (safeParse StrategySchema data) as [c|issues] eqn:Hs.
    + pose proof (StrategySchema_get _ _ _ _ Hs Hin) as Hg.
      by rewrite Hg in H1.
    + apply safeParse_collects_all in Hs as ->;
        [|apply StrategySchema_NoDup].
      rewrite (concat_sublist _ _ _ Hsub StrategySchema_NoDup Hrest).
      cbn [map concat].
      rewrite (field_issues_in _ StrategySchema_NoDup _ _ t Hin), H1.
      by rewrite H2, H3.
  - intros k i received options Hki Hcode.
    assert (field_issues StrategySchema data k = [i]) as Hi.
    { repeat (apply elem_of_cons in Hki as [[= -> ->]|Hki]; [done|]).
      by apply elem_of_nil in Hki. }
    destruct (Hid k i Hi) as (v & Hv & _ & Hc).
    rewrite Hcode in Hc. destruct Hc as (_ & -> & _). done.
Qed.

Lemma aggregation_witness :
  safeParse StrategySchema
    (handleChange "emaFast" (js "1")
       (handleChange "riskPerTradePct" (js "abc")
          (handleChange "timeframe" (js "M16") initial_form)))
  = Failure
      [ {| code := invalid_enum_value (JStr (js "M16")) timeframe_tokens;
           path := ["timeframe"] |};
        {| code := invalid_type (expected_type zpt_number) zpt_nan;
           path := ["riskPerTradePct"] |};
        {| code := too_small (int 2) true; path := ["emaFast"] |} ]
  /\ (exists v1,
        handleChange "emaFast" (js "1")
          (handleChange "riskPerTradePct" (js "abc")
             (handleChange "timeframe" (js "M16") initial_form))
        !! "timeframe" = Some v1
        /\ identifies "timeframe" v1
             {| code := invalid_enum_value (JStr (js "M16"))
                          timeframe_tokens;
                path := ["timeframe"] |})
  /\ (exists v2,
        handleChange "emaFast" (js "1")
          (handleChange "riskPerTradePct" (js "abc")
             (handleChange "timeframe" (js "M16") initial_form))
        !! "riskPerTradePct" = Some v2
        /\ identifies "riskPerTradePct" v2
             {| code := invalid_type (expected_type zpt_number) zpt_nan;
                path := ["riskPerTradePct"] |})
  /\ (exists v3,
        handleChange "emaFast" (js "1")
          (handleChange "riskPerTradePct" (js "abc")
             (handleChange "timeframe" (js "M16") initial_form))
        !! "emaFast" = Some v3
        /\ identifies "emaFast" v3
             {| code := too_small (int 2) true; path := ["emaFast"] |})
  /\ handleChange "emaFast" (js "1")
       (handleChange "riskPerTradePct" (js "abc")
          (handleChange "timeframe" (js "M16") initial_form))
     !! "timeframe" = Some (JStr (js "M16")).
Proof.
  destruct (aggregation
              (handleChange "emaFast" (js "1")
                 (handleChange "riskPerTradePct" (js "abc")
                    (handleChange "timeframe" (js "M16") initial_form)))
              "timeframe" "riskPerTradePct" "emaFast"
              {| code := invalid_enum_value (JStr (js "M16"))
                           timeframe_tokens;
                 path := ["timeframe"] |}
              {| code := invalid_type (expected_type zpt_number) zpt_nan;
                 path := ["riskPerTradePct"] |}
              {| code := too_small (int 2) true; path := ["emaFast"] |})
    as (H0 & H1 & H2 & H3 & H4).
  - repeat constructor.
  - vm_compute. reflexivity.
  - vm_compute. reflexivity.
  - vm_compute. reflexivity.
  - apply (bool_decide_unpack _). vm_compute. exact I.
  - split; [exact H0|]. split; [exact H1|]. split; [exact H2|].
    split; [exact H3|].
    eapply (H4 "timeframe"); [left|reflexivity].
Defined.

(** ** The payload in a browser *)

Section MoreEncoding.

Lemma base64_encode_length bytes :
  length (base64_encode bytes) = (4 * ((length bytes + 2) / 3))%nat.
Proof.
  induction bytes as [|a|a b|a b c r IH] using list_ind3; try reflexivity.
  cbn [base64_encode app length]. rewrite IH.
  replace (S (S (S (length r))) + 2)%nat with (length r + 2 + 1 * 3)%nat
    by lia.
  rewrite Nat.div_add by done. lia.
Qed.

(** What [toBase64] computes in a browser: the base-64 text of the octets
    that [unescape] makes of the escaped serialization, which are not
    empty. *)
Lemma toBase64_Browser_octets json :
  wf_object json ->
  exists uri,
    encodeURIComponent (JSON_stringify json) = Some uri
    /\ toBase64 Browser json = Some (base64_encode (unescape uri))
    /\ unescape uri <> [].
Proof.
  intros Hj.
  destruct (unescape_encodeURIComponent (JSON_stringify json))
    as (uri & He & Hb & Hd); [by apply WellFormed_JSON_stringify|].
  exists uri. split; [done|]. split.
  - unfold toBase64. cbn [typeof_window].
    rewrite bool_decide_eq_false_2 by discriminate.
    rewrite He. cbn [mbind option_bind]. by rewrite btoa_bytes.
  - intros Hnil. rewrite Hnil in Hd. discriminate Hd.
Qed.

Lemma encodeURIComponent_ascii s :
  Forall (fun c => 0 <= c < 128) s ->
  exists uri, encodeURIComponent s = Some uri /\ unescape uri = s.
Proof.
  induction 1 as [|c s Hc Hs (uri & He & Hu)]; [by exists []|].
  cbn [encodeURIComponent]. rewrite He.
  destruct (uriUnreserved c) eqn:Hun.
  - exists (c :: uri). split; [done|].
    apply uriUnreserved_ascii in Hun as [_ Hne].
    unfold unescape in *. cbn [unescape_from].
    apply Z.eqb_neq in Hne. rewrite Hne. by rewrite Hu.
  - assert (is_lead c = false) as -> by (unfold is_lead; lia).
    assert (is_trail c = false) as -> by (unfold is_trail; lia).
    exists (percent_encode c ++ uri). split; [done|].
    unfold percent_encode, utf8_octets.
    assert ((c <? 128) = true) as -> by lia.
    unfold unescape in *.
    rewrite (unescape_from_octets [c] uri), Hu; [done|].
    constructor; [lia|constructor].
Qed.

End MoreEncoding.

(** X16, the shape of the payload: in a browser, for every flat object
    of primitive values ([undefined], [null], booleans, numbers and
    strings of 16-bit code units), which is what a validated
    configuration is, [toBase64] returns without raising; the payload is
    not empty and its length is a multiple of 4. *)
Theorem browser_payload_shape json :
  wf_object json ->
  exists payload,
    toBase64 Browser json = Some payload
    /\ payload <> []
    /\ (length payload mod 4 = 0)%nat.
Proof.
  intros Hj.
  destruct (toBase64_Browser_octets json Hj) as (uri & _ & -> & Hne).
  eexists. split; [reflexivity|].
  pose proof (base64_encode_length (unescape uri)) as Hlen.
  split.
  - intros Hnil. rewrite Hnil in Hlen. cbn [length] in Hlen.
    destruct (unescape uri) as [|b bs]; [done|].
    cbn [length] in Hlen.
    assert (1 <= (S (length bs) + 2) / 3)%nat
      by (apply Nat.div_le_lower_bound; lia).
    lia.
  - rewrite Hlen, Nat.mul_comm. by apply Nat.Div0.mod_mul.
Qed.

Lemma browser_payload_shape_witness :
  exists payload,
    toBase64 Browser default_config = Some payload
    /\ payload <> []
    /\ (length payload mod 4 = 0)%nat.
Proof.
  apply (browser_payload_shape default_config).
  apply (safeParse_wf initial_form); [apply wf_form_initial|].
  vm_compute. reflexivity.
Defined.

(** X17, an ASCII serialization passes through: when every character of
    the serialization is ASCII, the detour through [encodeURIComponent]
    and [unescape] gives the serialization back, and the payload in a
    browser is the base-64 text of the serialization itself. *)
Theorem ascii_payload json :
  Forall (fun c => 0 <= c < 128) (JSON_stringify json) ->
  (exists uri,
     encodeURIComponent (JSON_stringify json) = Some uri
     /\ unescape uri = JSON_stringify json)
  /\ toBase64 Browser json = Some (base64_encode (JSON_stringify json)).
Proof.
  intros Ha.
  destruct (encodeURIComponent_ascii _ Ha) as (uri & He & Hu).
  split; [eauto|].
  unfold toBase64. cbn [typeof_window].
  rewrite bool_decide_eq_false_2 by discriminate.
  rewrite He. cbn [mbind option_bind]. rewrite Hu.
  apply btoa_bytes. eapply Forall_impl; [exact Ha|]. cbn. lia.
Qed.

Lemma ascii_payload_witness :
  (exists uri,
     encodeURIComponent (JSON_stringify default_config) = Some uri
     /\ unescape uri = JSON_stringify default_config)
  /\ toBase64 Browser default_config
     = Some (base64_encode (JSON_stringify default_config)).
Proof.
  apply (ascii_payload default_config).
  apply (bool_decide_unpack _). vm_compute. exact I.
Defined.

(** X18, payloads are not shared: in a browser, two objects whose
    strings are sequences of 16-bit code units and that get the same
    payload have the same serialization. *)
Theorem payload_injective json1 json2 :
  wf_object json1 -> wf_object json2 ->
  toBase64 Browser json1 = toBase64 Browser json2 ->
  JSON_stringify json1 = JSON_stringify json2.
Proof.
  intros H1 H2 Heq.
  destruct (toBase64_Browser json1 H1) as (p1 & Hp1 & _ & Hd1).
  destruct (toBase64_Browser json2 H2) as (p2 & Hp2 & _ & Hd2).
  rewrite Hp1, Hp2 in Heq. injection Heq as ->. congruence.
Qed.

Lemma payload_injective_witness :
  JSON_stringify [("trailingStopATR", JNum (S754_zero false))]
  = JSON_stringify [("trailingStopATR", JNum (S754_zero true))].
Proof.
  apply (payload_injective [("trailingStopATR", JNum (S754_zero false))]
           [("trailingStopATR", JNum (S754_zero true))]).
  - repeat constructor.
  - repeat constructor.
  - vm_compute. reflexivity.
Defined.

(** ** The state of the form *)

Section FormState.

Implicit Types (form : gmap string JSValue)
  (events : list (string * jsstring)).

Lemma apply_changes_cons e events form :
  apply_changes (e :: events) form
  = apply_changes events (handleChange e.1 e.2 form).
Proof. reflexivity. Qed.

Lemma apply_changes_wf events form :
  Forall (fun e => wf_jsstring e.2) events ->
  wf_form form -> wf_form (apply_changes events form).
Proof.
  intros He. revert form.
  induction He as [|e events He _ IH]; intros form Hf; [done|].
  rewrite apply_changes_cons. apply IH.
  unfold handleChange. by apply map_Forall_insert_2.
Qed.

Lemma apply_changes_keys (names : list string) events form :
  (forall k, is_Some (form !! k) <-> k ∈ names) ->
  Forall (fun e => e.1 ∈ names) events ->
  forall k, is_Some (apply_changes events form !! k) <-> k ∈ names.
Proof.
  intros Hf He. revert form Hf.
  induction He as [|e events He _ IH]; intros form Hf; [done|].
  rewrite apply_changes_cons. apply IH. intros k. unfold handleChange.
  destruct (decide (e.1 = k)) as [<-|Hne].
  - rewrite lookup_insert_eq. split; [done|by eauto].
  - by rewrite lookup_insert_ne.
Qed.

Lemma initial_form_keys k :
  is_Some (initial_form !! k) <-> k ∈ keys StrategySchema.
Proof.
  rewrite <- elem_of_dom. unfold initial_form.
  rewrite dom_list_to_map_L, elem_of_list_to_set. reflexivity.
Qed.

Lemma control_names_keys k : k ∈ control_names <-> k ∈ keys StrategySchema.
Proof.
  split; revert k; apply Forall_forall, (bool_decide_unpack _);
    by vm_compute.
Qed.

End FormState.

(** X19, the last change wins: after a sequence of change events, a
    field of the form holds the string of the last event that names it,
    and what it held before when no event names it. *)
Theorem last_change_wins (events : list (string * jsstring))
    (form : gmap string JSValue) k :
  apply_changes events form !! k
  = match last (filter (fun e => e.1 = k) events) with
    | Some e => Some (JStr e.2)
    | None => form !! k
    end.
Proof.
  revert form. induction events as [|e events IH]; intros form; [done|].
  rewrite apply_changes_cons, IH, filter_cons. unfold handleChange.
  destruct (decide (e.1 = k)) as [<-|Hne].
  - rewrite last_cons, lookup_insert_eq.
    by destruct (last (filter _ events)).
  - by rewrite lookup_insert_ne.
Qed.

(** X20, the fields of the form: every control of the form is named
    after a key of the schema and every key has a control; whatever the
    controls send, the state keeps exactly the keys of the schema, no
    key is added and none is lost. *)
Theorem form_keeps_schema_keys (events : list (string * jsstring)) :
  Forall (fun e => e.1 ∈ control_names) events ->
  forall k,
    (k ∈ control_names <-> k ∈ keys StrategySchema)
    /\ (is_Some (apply_changes events initial_form !! k)
        <-> k ∈ keys StrategySchema).
Proof.
  intros He k. split; [apply control_names_keys|].
  apply apply_changes_keys; [apply initial_form_keys|].
  eapply Forall_impl; [exact He|]. intros e. apply control_names_keys.
Qed.

Lemma form_keeps_schema_keys_witness :
  ("emaFast" ∈ control_names <-> "emaFast" ∈ keys StrategySchema)
  /\ (is_Some
        (apply_changes [("emaFast", js "abc"); ("symbols", [])] initial_form
         !! "emaFast")
      <-> "emaFast" ∈ keys StrategySchema).
Proof.
  apply (form_keeps_schema_keys [("emaFast", js "abc"); ("symbols", [])]).
  apply (bool_decide_unpack _). vm_compute. exact I.
Defined.

(** X21, rendering never raises: after any sequence of change events
    from the initial state, rendering returns; the command is empty
    exactly when validation fails, and in a browser so is the payload. *)
Theorem render_after_changes env (events : list (string * jsstring)) :
  Forall (fun e => wf_jsstring e.2) events ->
  exists r,
    StrategyForm env (apply_changes events initial_form) = Some r
    /\ (pythonCmd r = []
        <-> exists issues,
              safeParse StrategySchema (apply_changes events initial_form)
              = Failure issues)
    /\ (env = Browser ->
        b64 r = []
        <-> exists issues,
              safeParse StrategySchema (apply_changes events initial_form)
              = Failure issues).
Proof.
  intros He.
  pose proof (apply_changes_wf events initial_form He wf_form_initial) as Hf.
  unfold StrategyForm.
  destruct (safeParse StrategySchema (apply_changes events initial_form))
    as [c|issues] eqn:Hc.
  - assert (exists payload,
              toBase64 env c = Some payload
              /\ (env = Browser -> payload <> []))
      as (payload & -> & Hne).
    { destruct env; [|by exists []].
      destruct (toBase64_Browser_octets c) as (uri & _ & -> & Hu);
        [by eapply safeParse_wf|].
      eexists. split; [reflexivity|]. intros _ Hnil.
      by destruct (unescape uri) as [|a [|b [|? ?]]]. }
    cbn [mbind option_bind]. eexists. split; [reflexivity|].
    cbn [pythonCmd b64]. split; [|intros Henv]; split.
    + intros [Hp _]%app_eq_nil. by vm_compute in Hp.
    + by intros [? [=]].
    + intros Hnil. by destruct (Hne Henv).
    + by intros [? [=]].
  - cbn [mbind option_bind]. eexists. split; [reflexivity|].
    cbn [pythonCmd b64]. split; [|intros _]; split; eauto.
Qed.

Lemma render_after_changes_witness :
  exists r,
    StrategyForm Browser
      (apply_changes [("emaFast", js "1"); ("emaFast", js "12")]
         initial_form) = Some r
    /\ (pythonCmd r = []
        <-> exists issues,
              safeParse StrategySchema
                (apply_changes [("emaFast", js "1"); ("emaFast", js "12")]
                   initial_form) = Failure issues)
    /\ (Browser = Browser ->
        b64 r = []
        <-> exists issues,
              safeParse StrategySchema
                (apply_changes [("emaFast", js "1"); ("emaFast", js "12")]
                   initial_form) = Failure issues).
Proof.
  apply (render_after_changes Browser
           [("emaFast", js "1"); ("emaFast", js "12")]).
  repeat constructor.
Defined.

(** ** [src/components/Field.tsx] *)

Lemma clsx_base base className :
  base <> [] ->
  Field.clsx [JStr base; className]
  = base ++ (if Field.truthy className
             then match Field.toVal className with
                  | [] => []
                  | x => 32 :: x
                  end
             else []).
Proof.
  intros Hb. unfold Field.clsx.
  destruct base as [|b base]; [done|].
  cbn [Field.clsx_from Field.truthy Field.toVal].
  rewrite bool_decide_eq_false_2 by done. cbn [negb app].
  destruct (Field.truthy className); [|by rewrite app_nil_r].
  destruct (Field.toVal className) as [|x xs]; [by rewrite app_nil_r|].
  cbn [Field.clsx_from]. by rewrite <- app_assoc.
Qed.

(** X22, the class names of the controls: [Input], [Select] and
    [TextArea] never drop their own classes, whatever [className] they
    are given; without a [className] (or with an empty one) the element
    gets exactly the classes of the control, and with a [className] that
    is not empty it gets them followed by a space and the [className]. *)
Theorem className_merge className :
  (Field.Input_classes `prefix_of` Field.Input_className className
   /\ Field.Select_classes `prefix_of` Field.Select_className className
   /\ Field.Input_classes `prefix_of` Field.TextArea_className className)
  /\ (className = JUndefined \/ className = JStr [] ->
      Field.Input_className className = Field.Input_classes
      /\ Field.Select_className className = Field.Select_classes
      /\ Field.TextArea_className className = Field.Input_classes)
  /\ (forall s, className = JStr s -> s <> [] ->
      Field.Input_className className = Field.Input_classes ++ 32 :: s
      /\ Field.Select_className className = Field.Select_classes ++ 32 :: s
      /\ Field.TextArea_className className
         = Field.Input_classes ++ 32 :: s).
Proof.
  assert (Field.Input_classes <> []) as Hi
    by (intros H; by vm_compute in H).
  assert (Field.Select_classes <> []) as Hs
    by (intros H; by vm_compute in H).
  unfold Field.Input_className, Field.Select_className,
    Field.TextArea_className.
  rewrite !clsx_base by done. split; [|split].
  - repeat split; eexists; reflexivity.
  - intros [-> | ->]; cbn [Field.truthy Field.toVal];
      rewrite ?bool_decide_eq_true_2 by done; cbn [negb];
      by rewrite !app_nil_r.
  - intros s -> Hne. cbn [Field.truthy Field.toVal].
    rewrite bool_decide_eq_false_2 by done. cbn [negb].
    by destruct s.
Qed.

Lemma className_merge_witness :
  Field.Input_className (JStr (js "mt-2"))
  = Field.Input_classes ++ 32 :: js "mt-2"
  /\ Field.Select_className JUndefined = Field.Select_classes.
Proof.
  destruct (className_merge (JStr (js "mt-2"))) as (_ & _ & H3).
  destruct (className_merge JUndefined) as (_ & H2 & _).
  split.
  - apply (H3 (js "mt-2")); [reflexivity|discriminate].
  - apply H2. left. reflexivity.
Defined.

(** * Rounding a ratio to the nearest Number *)

(** * Rounding *)

Section Rounding.

Implicit Types (a b m e : Z) (l : location) (mrs : shr_record).

(** ** Ratios *)

Lemma location_of_scale a b k :
  0 < b -> 0 < k -> location_of (a * k) (b * k) = location_of a b.
Proof.
  intros Hb Hk. unfold location_of.
  rewrite Z.mul_mod_distr_r by lia.
  destruct (Z.eqb_spec (a mod b) 0) as [->|Hr]; [done|].
  destruct (Z.eqb_spec (a mod b * k) 0) as [H0|_]; [nia|].
  f_equal.
  destruct (Z.compare_spec (2 * (a mod b * k)) (b * k)),
    (Z.compare_spec (2 * (a mod b)) b); try done; nia.
Qed.

(** Equal ratios have the same floor and the same place above it. *)
Lemma ratio_eq a1 b1 a2 b2 :
  0 < b1 -> 0 < b2 -> a1 * b2 = a2 * b1 ->
  a1 / b1 = a2 / b2 /\ location_of a1 b1 = location_of a2 b2.
Proof.
  intros H1 H2 Heq. split.
  - rewrite <- (Z.div_mul_cancel_r a1 b1 b2) by lia.
    rewrite <- (Z.div_mul_cancel_r a2 b2 b1) by lia.
    by rewrite Heq, (Z.mul_comm b1 b2).
  - rewrite <- (location_of_scale a1 b1 b2) by lia.
    rewrite <- (location_of_scale a2 b2 b1) by lia.
    by rewrite Heq, (Z.mul_comm b1 b2).
Qed.

Lemma location_of_place a b :
  0 < b -> place (a mod b) b (location_of a b).
Proof.
  intros Hb. pose proof (Z.mod_pos_bound a b Hb) as Hr.
  unfold location_of, place.
  destruct (Z.eqb_spec (a mod b) 0) as [H0|H0]; [done|].
  destruct (Z.compare_spec (2 * (a mod b)) b); lia.
Qed.

Lemma place_unique r b l1 l2 :
  0 <= r < b -> place r b l1 -> place r b l2 -> l1 = l2.
Proof.
  intros Hr H1 H2.
  destruct l1 as [|[]], l2 as [|[]]; cbn in *; try done; lia.
Qed.

Lemma place_location_of a b l :
  0 < b -> place (a mod b) b l -> location_of a b = l.
Proof.
  intros Hb Hl. pose proof (Z.mod_pos_bound a b Hb) as Hr.
  eapply place_unique; [|by apply location_of_place|done]. lia.
Qed.

(** ** Shifting to the right *)

Lemma holds_of_loc a b :
  holds (shr_record_of_loc (a / b) (location_of a b)) a b.
Proof. split; by destruct (location_of a b) as [|[]]. Qed.

Lemma shr_1_eq m r s :
  0 <= m ->
  shr_1 {| shr_m := m; shr_r := r; shr_s := s |}
  = {| shr_m := m / 2; shr_r := Z.odd m; shr_s := r || s |}.
Proof.
  intros Hm. destruct m as [|[p|p|]|p]; cbn [shr_1]; try lia; f_equal;
    try reflexivity.
  - rewrite Pos2Z.inj_xI. apply (Z.div_unique _ _ _ 1); lia.
  - rewrite Pos2Z.inj_xO. apply (Z.div_unique _ _ _ 0); lia.
Qed.

Lemma shr_1_holds mrs a b :
  0 <= a -> 0 < b -> holds mrs a b -> holds (shr_1 mrs) a (2 * b).
Proof.
  intros Ha Hb [Hm Hl]. destruct mrs as [m r s]. cbn [shr_m] in Hm.
  assert (0 <= m) as Hm0 by (subst m; by apply Z.div_pos).
  rewrite shr_1_eq by done. unfold holds. cbn [shr_m loc_of_shr_record].
  pose proof (Z.div_mod a b ltac:(lia)) as Hdiv.
  pose proof (Z.mod_pos_bound a b Hb) as Hr.
  assert (a / (2 * b) = m / 2) as Hq.
  { rewrite (Z.mul_comm 2 b), <- Z.div_div by lia. by rewrite Hm. }
  assert (a mod (2 * b) = a mod b + b * (m mod 2)) as Hrem.
  { rewrite (Z.mul_comm 2 b), Z.rem_mul_r by lia. by rewrite Hm. }
  split; [done|].
  symmetry. apply place_location_of; [lia|]. rewrite Hrem.
  pose proof (location_of_place a b Hb) as Hp. rewrite <- Hl in Hp.
  rewrite Zodd_mod.
  pose proof (Z.mod_pos_bound m 2 ltac:(lia)) as Ho.
  destruct (Z.eqb_spec (m mod 2) 1) as [H1|H1].
  - rewrite H1. destruct r, s; cbn in Hp |- *; lia.
  - assert (m mod 2 = 0) as -> by lia.
    destruct r, s; cbn in Hp |- *; lia.
Qed.

Lemma iter_pos_nat {A} (f : A -> A) p x :
  SpecFloat.iter_pos f p x = Nat.iter (Pos.to_nat p) f x.
Proof.
  revert x. induction p as [p IH|p IH|]; intros x; cbn [SpecFloat.iter_pos].
  - rewrite !IH, Pos2Nat.inj_xI.
    replace (S (2 * Pos.to_nat p))%nat
      with (Pos.to_nat p + (Pos.to_nat p + 1))%nat by lia.
    by rewrite !Nat.iter_add.
  - rewrite !IH, Pos2Nat.inj_xO.
    replace (2 * Pos.to_nat p)%nat
      with (Pos.to_nat p + Pos.to_nat p)%nat by lia.
    by rewrite Nat.iter_add.
  - reflexivity.
Qed.

Lemma iter_shr_1_holds n mrs a b :
  0 <= a -> 0 < b -> holds mrs a b ->
  holds (Nat.iter n shr_1 mrs) a (b * 2 ^ Z.of_nat n).
Proof.
  intros Ha Hb H. induction n as [|n IH].
  - cbn. by rewrite Z.mul_1_r.
  - cbn [Nat.iter]. rewrite Nat2Z.inj_succ, Z.pow_succ_r by lia.
    replace (b * (2 * 2 ^ Z.of_nat n)) with (2 * (b * 2 ^ Z.of_nat n))
      by ring.
    apply shr_1_holds; [done|nia|done].
Qed.

(** [shr] by [n]: the floor and the place of [a / (b * 2 ^ n)]. *)
Lemma shr_holds mrs a b e n :
  0 <= a -> 0 < b -> holds mrs a b ->
  let '(mrs', e') := shr mrs e n in
  e' = e + Z.max 0 n /\ holds mrs' a (b * 2 ^ Z.max 0 n).
Proof.
  intros Ha Hb H. unfold shr. destruct n as [|p|p].
  - cbn. by rewrite Z.add_0_r, Z.mul_1_r.
  - rewrite Z.max_r by lia. split; [done|].
    rewrite iter_pos_nat, <- (positive_nat_Z p).
    by apply iter_shr_1_holds.
  - rewrite Z.max_l by lia. cbn. by rewrite Z.add_0_r, Z.mul_1_r.
Qed.

(** ** The number of binary digits *)

Lemma digits2_pos_size p : digits2_pos p = Pos.size p.
Proof. induction p as [p IH|p IH|]; cbn; by rewrite ?IH. Qed.

Lemma Zdigits2_bounds m :
  0 < m -> 2 ^ (Zdigits2 m - 1) <= m < 2 ^ Zdigits2 m.
Proof.
  intros Hm. destruct m as [|p|p]; try lia. cbn [Zdigits2].
  rewrite digits2_pos_size.
  pose proof (Pos.size_gt p) as Hgt. pose proof (Pos.size_le p) as Hle.
  assert (Z.pos (2 ^ Pos.size p) = 2 ^ Z.pos (Pos.size p)) as Hpow
    by (by rewrite Pos2Z.inj_pow).
  split.
  - assert (2 ^ Z.pos (Pos.size p) = 2 * 2 ^ (Z.pos (Pos.size p) - 1)) as H2.
    { rewrite <- Z.pow_succ_r by lia. f_equal. lia. }
    lia.
  - lia.
Qed.

Lemma Zdigits2_unique m d :
  2 ^ (d - 1) <= m < 2 ^ d -> 0 < m -> Zdigits2 m = d.
Proof.
  intros [H1 H2] Hm. pose proof (Zdigits2_bounds m Hm) as [H3 H4].
  assert (0 < Zdigits2 m) by (destruct m; cbn; lia).
  assert (0 < d).
  { destruct (Z.lt_trichotomy d 0) as [Hd|[->|Hd]]; [|cbn in H2; lia|done].
    rewrite Z.pow_neg_r in H2 by done. lia. }
  destruct (Z.lt_trichotomy (Zdigits2 m) d) as [Hlt|[Heq|Hgt]]; [|done|].
  - assert (2 ^ Zdigits2 m <= 2 ^ (d - 1))
      by (apply Z.pow_le_mono_r; lia). lia.
  - assert (2 ^ d <= 2 ^ (Zdigits2 m - 1))
      by (apply Z.pow_le_mono_r; lia). lia.
Qed.

End Rounding.

Section RoundRatio.

Implicit Types (a b m e N D : Z) (l : location) (mrs : shr_record).

Lemma Zdigits2_nonneg m : 0 <= Zdigits2 m.
Proof. destruct m; cbn; lia. Qed.

Lemma Zdigits2_pos m : 0 < m -> 0 < Zdigits2 m.
Proof. destruct m; cbn; lia. Qed.

Lemma Zdigits2_shiftr a j :
  0 <= j -> 0 < a / 2 ^ j -> Zdigits2 (a / 2 ^ j) = Zdigits2 a - j.
Proof.
  intros Hj Hq.
  assert (0 < 2 ^ j) as Hp by (by apply Z.pow_pos_nonneg).
  assert (0 < a) as Ha.
  { destruct (Z.lt_ge_cases 0 a); [done|].
    assert (a / 2 ^ j <= 0) by (apply Z.div_le_upper_bound; lia). lia. }
  pose proof (Zdigits2_bounds a Ha) as [H1 H2].
  pose proof (Zdigits2_pos a Ha) as Hd.
  assert (2 ^ j <= a) as Hja.
  { destruct (Z.le_gt_cases (2 ^ j) a); [done|].
    rewrite Z.div_small in Hq by lia. lia. }
  assert (j < Zdigits2 a) as Hjd.
  { destruct (Z.lt_ge_cases j (Zdigits2 a)); [done|].
    assert (2 ^ Zdigits2 a <= 2 ^ j) by (apply Z.pow_le_mono_r; lia). lia. }
  apply Zdigits2_unique; [|done]. split.
  - apply Z.div_le_lower_bound; [done|].
    rewrite <- Z.pow_add_r by lia.
    by replace (j + (Zdigits2 a - j - 1)) with (Zdigits2 a - 1) by lia.
  - apply Z.div_lt_upper_bound; [done|].
    rewrite <- Z.pow_add_r by lia.
    by replace (j + (Zdigits2 a - j)) with (Zdigits2 a) by lia.
Qed.

Lemma Zdigits2_mul_pow2 a j :
  0 < a -> 0 <= j -> Zdigits2 (a * 2 ^ j) = Zdigits2 a + j.
Proof.
  intros Ha Hj.
  assert (0 < 2 ^ j) as Hp by (by apply Z.pow_pos_nonneg).
  pose proof (Zdigits2_bounds a Ha) as [H1 H2].
  pose proof (Zdigits2_pos a Ha) as Hd.
  apply Zdigits2_unique; [|nia]. split.
  - replace (Zdigits2 a + j - 1) with (Zdigits2 a - 1 + j) by lia.
    rewrite Z.pow_add_r by lia. nia.
  - rewrite Z.pow_add_r by lia. nia.
Qed.

Lemma fexp_ge e : -1074 <= fexp prec emax e.
Proof. unfold fexp, emin, prec, emax. lia. Qed.

Lemma fexp_mono e1 e2 :
  e1 <= e2 -> fexp prec emax e1 <= fexp prec emax e2.
Proof. unfold fexp, emin, prec, emax. lia. Qed.

(** ** What [binary_round_aux] computes *)

(** [shr_fexp] moves to the exponent [fexp] asks for, when it is above. *)
Lemma shr_fexp_holds a b e :
  0 <= a -> 0 < b ->
  let j := Z.max 0 (fexp prec emax (Zdigits2 (a / b) + e) - e) in
  exists mrs',
    shr_fexp prec emax (a / b) e (location_of a b) = (mrs', e + j)
    /\ holds mrs' a (b * 2 ^ j).
Proof.
  intros Ha Hb j. unfold shr_fexp.
  pose proof (shr_holds _ a b e (fexp prec emax (Zdigits2 (a / b) + e) - e)
                Ha Hb (holds_of_loc a b)) as H.
  destruct (shr _ _ _) as [mrs' e']. destruct H as [-> H]. eauto.
Qed.

(** The result depends on the record of the first shift only through its
    floor and its location. *)
Lemma binary_round_aux_congr sx m1 e1 l1 m2 e2 l2 mrs1 mrs2 E :
  shr_fexp prec emax m1 e1 l1 = (mrs1, E) ->
  shr_fexp prec emax m2 e2 l2 = (mrs2, E) ->
  shr_m mrs1 = shr_m mrs2 ->
  loc_of_shr_record mrs1 = loc_of_shr_record mrs2 ->
  binary_round_aux prec emax sx m1 e1 l1
  = binary_round_aux prec emax sx m2 e2 l2.
Proof.
  intros H1 H2 Hm Hl. unfold binary_round_aux.
  by rewrite H1, H2, Hm, Hl.
Qed.

(** A floor and a location of [N / D] at an exponent [e] that is not
    above the one [fexp] asks for are rounded as [N / D] is. *)
Lemma binary_round_aux_ratio N D a b e :
  0 < N -> 0 < D -> 0 <= a -> 0 < b -> -1074 <= e ->
  a * (D * 2 ^ (e + 1074)) = N * 2 ^ 1074 * b ->
  Z.max e (fexp prec emax (Zdigits2 (a / b) + e))
  = fexp prec emax (Zdigits2 (N * 2 ^ 1074 / D) - 1074) ->
  binary_round_aux prec emax false (a / b) e (location_of a b)
  = round_ratio N D.
Proof.
  intros HN HD Ha Hb He Hab HE. unfold round_ratio.
  destruct (shr_fexp_holds a b e Ha Hb) as (mrs1 & H1 & [Hm1 Hl1]).
  destruct (shr_fexp_holds (N * 2 ^ 1074) D (-1074) ltac:(lia) HD)
    as (mrs2 & H2 & [Hm2 Hl2]).
  set (E := fexp prec emax (Zdigits2 (N * 2 ^ 1074 / D) - 1074)) in *.
  pose proof (fexp_ge (Zdigits2 (N * 2 ^ 1074 / D) - 1074)) as HEge.
  fold E in HEge.
  replace (Zdigits2 (N * 2 ^ 1074 / D) + -1074)
    with (Zdigits2 (N * 2 ^ 1074 / D) - 1074) in * by lia.
  fold E in H2, Hm2, Hl2.
  assert (e + Z.max 0 (fexp prec emax (Zdigits2 (a / b) + e) - e) = E) as HE1
    by lia.
  assert (-1074 + Z.max 0 (E - -1074) = E) as HE2 by lia.
  rewrite HE1 in H1. rewrite HE2 in H2.
  assert (Z.max 0 (fexp prec emax (Zdigits2 (a / b) + e) - e) = E - e) as Hj1
    by lia.
  assert (Z.max 0 (E - -1074) = E + 1074) as Hj2 by lia.
  rewrite Hj1 in Hm1, Hl1. rewrite Hj2 in Hm2, Hl2.
  assert (0 < 2 ^ (E - e)) by (apply Z.pow_pos_nonneg; lia).
  assert (0 < 2 ^ (E + 1074)) by (apply Z.pow_pos_nonneg; lia).
  assert (0 < 2 ^ (e + 1074)) by (apply Z.pow_pos_nonneg; lia).
  destruct (ratio_eq a (b * 2 ^ (E - e)) (N * 2 ^ 1074) (D * 2 ^ (E + 1074)))
    as [Hq Hl]; [nia|nia| |].
  { replace (E + 1074) with ((e + 1074) + (E - e)) by lia.
    rewrite Z.pow_add_r by lia.
    transitivity (a * (D * 2 ^ (e + 1074)) * 2 ^ (E - e)); [ring|].
    rewrite Hab. ring. }
  eapply binary_round_aux_congr; [exact H1|exact H2|congruence|congruence].
Qed.

(** The same for a Number [m * 2 ^ e]. *)
Lemma binary_round_aux_exact m e :
  0 < m -> -1074 <= e -> e <= 0 ->
  e <= fexp prec emax (Zdigits2 m + e) ->
  binary_round_aux prec emax false m e loc_Exact
  = round_ratio m (2 ^ (- e)).
Proof.
  intros Hm He He0 Hf.
  assert (0 < 2 ^ (- e)) as Hp by (apply Z.pow_pos_nonneg; lia).
  assert (0 < 2 ^ (e + 1074)) as Hp' by (apply Z.pow_pos_nonneg; lia).
  assert (2 ^ 1074 = 2 ^ (- e) * 2 ^ (e + 1074)) as H1074.
  { rewrite <- Z.pow_add_r by lia. f_equal. lia. }
  assert (m * 2 ^ 1074 / 2 ^ (- e) = m * 2 ^ (e + 1074)) as HM0.
  { rewrite H1074.
    replace (m * (2 ^ (- e) * 2 ^ (e + 1074)))
      with (m * 2 ^ (e + 1074) * 2 ^ (- e)) by ring.
    by rewrite Z.div_mul by lia. }
  pose proof (binary_round_aux_ratio m (2 ^ (- e)) m 1 e) as H.
  rewrite Z.div_1_r in H.
  assert (location_of m 1 = loc_Exact) as Hl.
  { unfold location_of. by rewrite Z.mod_1_r. }
  rewrite Hl in H. apply H; try lia.
  - rewrite H1074. ring.
  - rewrite HM0, Zdigits2_mul_pow2 by lia.
    replace (Zdigits2 m + (e + 1074) - 1074) with (Zdigits2 m + e) by lia.
    lia.
Qed.

(** Rounding depends on the ratio only. *)
Lemma round_ratio_scale N D k :
  0 < D -> 0 < k -> round_ratio (N * k) (D * k) = round_ratio N D.
Proof.
  intros HD Hk. unfold round_ratio.
  destruct (ratio_eq (N * k * 2 ^ 1074) (D * k) (N * 2 ^ 1074) D)
    as [-> ->]; [nia|lia|ring|done].
Qed.

Lemma round_ratio_eq N1 D1 N2 D2 :
  0 < D1 -> 0 < D2 -> N1 * D2 = N2 * D1 ->
  round_ratio N1 D1 = round_ratio N2 D2.
Proof.
  intros H1 H2 Heq. unfold round_ratio.
  destruct (ratio_eq (N1 * 2 ^ 1074) D1 (N2 * 2 ^ 1074) D2)
    as [-> ->]; [done|done| |done].
  transitivity (N1 * D2 * 2 ^ 1074); [ring|]. rewrite Heq. ring.
Qed.

End RoundRatio.

Section DecSpec.

(** ** [binary_normalize] on a positive integer *)

Lemma Pos_iter_xO p d : Z.pos (Pos.iter xO p d) = Z.pos p * 2 ^ Z.pos d.
Proof.
  induction d as [|d IH] using Pos.peano_ind.
  - cbn [Pos.iter]. lia.
  - rewrite Pos.iter_succ, Pos2Z.inj_xO, IH, Pos2Z.inj_succ.
    rewrite Z.pow_succ_r by lia. ring.
Qed.

Lemma binary_round_pos p :
  binary_round prec emax false p 0 = round_ratio (Z.pos p) 1.
Proof.
  unfold binary_round, shl_align.
  change (Z.pos (digits2_pos p)) with (Zdigits2 (Z.pos p)).
  pose proof (fexp_ge (Zdigits2 (Z.pos p) + 0)) as Hge.
  destruct (fexp prec emax (Zdigits2 (Z.pos p) + 0) - 0) as [|d|d] eqn:Hd.
  - rewrite (binary_round_aux_exact (Z.pos p) 0) by lia. done.
  - rewrite (binary_round_aux_exact (Z.pos p) 0) by lia. done.
  - set (ez := fexp prec emax (Zdigits2 (Z.pos p) + 0)) in *.
    assert (ez = - Z.pos d) as Hez by lia.
    rewrite Pos_iter_xO.
    rewrite (binary_round_aux_exact (Z.pos p * 2 ^ Z.pos d) ez);
      [|nia|lia|lia|].
    + rewrite Hez, Z.opp_involutive.
      rewrite <- (round_ratio_scale (Z.pos p) 1 (2 ^ Z.pos d)) by lia.
      by rewrite Z.mul_1_l.
    + rewrite Zdigits2_mul_pow2 by lia.
      replace (Zdigits2 (Z.pos p) + Z.pos d + ez)
        with (Zdigits2 (Z.pos p) + 0) by lia.
      fold ez. lia.
Qed.

(** ** [SFdiv] on two positive integers *)

Lemma new_location_place nb r :
  0 < nb -> 0 <= r < nb -> place r nb (new_location nb r).
Proof.
  intros Hnb Hr. unfold new_location, new_location_even, new_location_odd.
  destruct (Z.even nb) eqn:He.
  - destruct (Z.eqb_spec r 0) as [->|H0]; [done|]. cbn.
    destruct (Z.compare_spec (2 * r) nb); lia.
  - destruct (Z.eqb_spec r 0) as [->|H0]; [done|]. cbn.
    assert (Z.odd nb = true) as Ho by (by rewrite <- Z.negb_even, He).
    apply Z.odd_spec in Ho as [k Hk].
    destruct (Z.compare_spec (2 * r + 1) nb); lia.
Qed.

Lemma SFdiv_pos s t :
  SFdiv prec emax (S754_finite false s 0) (S754_finite false t 0)
  = round_ratio (Z.pos s) (Z.pos t).
Proof.
  unfold SFdiv, SFdiv_core_binary.
  set (m1 := Z.pos s). set (m2 := Z.pos t).
  set (d1 := Zdigits2 m1). set (d2 := Zdigits2 m2).
  replace (d1 + 0 - (d2 + 0)) with (d1 - d2) by lia.
  change (0 - 0) with 0.
  set (e' := Z.min (fexp prec emax (d1 - d2)) 0).
  pose proof (fexp_ge (d1 - d2)) as Hge.
  assert (-1074 <= e' <= 0) as He' by lia.
  set (m' := match 0 - e' with
             | 0 => m1
             | Z.pos _ => Z.shiftl m1 (0 - e')
             | Z.neg _ => 0
             end).
  assert (m' = m1 * 2 ^ (- e')) as Hm'.
  { subst m'. destruct (0 - e') as [|q|q] eqn:Hs; [| |lia].
    - replace (- e') with 0 by lia. lia.
    - rewrite Z.shiftl_mul_pow2 by lia. f_equal. f_equal; lia. }
  assert (0 < 2 ^ (- e')) as Hp by (apply Z.pow_pos_nonneg; lia).
  assert (0 < 2 ^ (e' + 1074)) as Hp' by (apply Z.pow_pos_nonneg; lia).
  assert (2 ^ 1074 = 2 ^ (- e') * 2 ^ (e' + 1074)) as H1074.
  { rewrite <- Z.pow_add_r by lia. f_equal; lia. }
  assert (0 < m1) as H1 by done. assert (0 < m2) as H2 by done.
  assert (0 < m') as H' by nia.
  destruct (Z.div_eucl m' m2) as [q r] eqn:Hqr.
  assert (q = m' / m2) as Hq by (unfold Z.div; by rewrite Hqr).
  assert (r = m' mod m2) as Hr by (unfold Z.modulo; by rewrite Hqr).
  assert (new_location m2 r = location_of m' m2) as Hl.
  { symmetry. apply place_location_of; [done|]. rewrite <- Hr.
    apply new_location_place; [done|]. rewrite Hr.
    by apply Z.mod_pos_bound. }
  cbn [xorb]. rewrite Hl, Hq.
  apply binary_round_aux_ratio; try lia.
  { rewrite Hm', H1074. ring. }
  set (M0 := m1 * 2 ^ 1074 / m2).
  assert (m' / m2 = M0 / 2 ^ (e' + 1074)) as HqM.
  { subst M0. rewrite Z.div_div by lia.
    rewrite Hm', H1074.
    replace (m1 * (2 ^ (- e') * 2 ^ (e' + 1074)))
      with (m1 * 2 ^ (- e') * 2 ^ (e' + 1074)) by ring.
    by rewrite Z.div_mul_cancel_r by lia. }
  assert (0 <= m' / m2) as Hq0 by (apply Z.div_pos; lia).
  pose proof (Zdigits2_bounds m1 H1) as [Hm1a Hm1b].
  pose proof (Zdigits2_bounds m2 H2) as [Hm2a Hm2b].
  fold d1 in Hm1a, Hm1b. fold d2 in Hm2a, Hm2b.
  pose proof (Zdigits2_pos m1 H1) as Hd1. fold d1 in Hd1.
  pose proof (Zdigits2_pos m2 H2) as Hd2. fold d2 in Hd2.
  destruct (Z.eq_dec (m' / m2) 0) as [Hz|Hnz].
  - (* the quotient is below the least exponent *)
    assert (m' < m2) as Hlt.
    { destruct (Z.lt_ge_cases m' m2); [done|].
      assert (1 <= m' / m2) by (apply Z.div_le_lower_bound; lia). lia. }
    assert (d1 - 1 - e' < d2) as Hd.
    { destruct (Z.lt_ge_cases (d1 - 1 - e') d2); [done|].
      assert (2 ^ d2 <= 2 ^ (d1 - 1 - e'))
        by (apply Z.pow_le_mono_r; lia).
      assert (2 ^ (d1 - 1 - e') = 2 ^ (d1 - 1) * 2 ^ (- e')) as Hsplit.
      { rewrite <- Z.pow_add_r by lia. f_equal; lia. }
      nia. }
    assert (e' = -1074) as Hemin.
    { unfold e', fexp, emin, prec, emax in *. lia. }
    assert (M0 = 0) as HM0.
    { rewrite Hemin in HqM. change (2 ^ (-1074 + 1074)) with 1 in HqM.
      rewrite Z.div_1_r in HqM. lia. }
    rewrite Hz, HM0, Hemin. cbn [Zdigits2].
    unfold fexp, emin, prec, emax. lia.
  - assert (0 < m' / m2) as Hqpos by lia.
    rewrite HqM in Hqpos |- *.
    rewrite Zdigits2_shiftr by lia.
    replace (Zdigits2 M0 - (e' + 1074) + e') with (Zdigits2 M0 - 1074)
      by lia.
    assert (d1 - d2 <= Zdigits2 M0 - 1074) as Hmag.
    { rewrite <- HqM in Hqpos.
      assert (Zdigits2 (m' / m2) = Zdigits2 M0 - (e' + 1074)) as Hdq
        by (rewrite HqM; apply Zdigits2_shiftr; lia).
      pose proof (Zdigits2_bounds _ Hqpos) as [_ Hub].
      pose proof (Zdigits2_pos _ Hqpos) as Hdpos.
      destruct (Z.le_gt_cases (d1 - d2 - e') (Zdigits2 (m' / m2)));
        [lia|].
      exfalso.
      assert (2 ^ (d1 - d2 - e' - 1) <= m' / m2) as Hlow.
      { apply Z.div_le_lower_bound; [done|].
        assert (2 ^ (d1 - 1) * 2 ^ (- e')
                = 2 ^ d2 * 2 ^ (d1 - d2 - e' - 1)) as Hsplit.
        { rewrite <- !Z.pow_add_r by lia. f_equal; lia. }
        assert (0 < 2 ^ (d1 - d2 - e' - 1))
          by (apply Z.pow_pos_nonneg; lia).
        nia. }
      assert (2 ^ Zdigits2 (m' / m2) <= 2 ^ (d1 - d2 - e' - 1))
        by (apply Z.pow_le_mono_r; lia).
      lia. }
    pose proof (fexp_mono _ _ Hmag). lia.
Qed.

(** ** [dec] *)

(** [dec m e] is [m * 10 ^ e] rounded to the nearest Number. *)
Lemma dec_round_ratio s p :
  0 < s ->
  dec s p
  = if 0 <=? p then round_ratio (s * 10 ^ p) 1
    else round_ratio s (10 ^ (- p)).
Proof.
  intros Hs. unfold dec. destruct s as [|s|s]; try lia.
  destruct (Z.leb_spec 0 p) as [Hp|Hp].
  - assert (0 < 10 ^ p) by (apply Z.pow_pos_nonneg; lia).
    unfold binary_normalize.
    destruct (Z.pos s * 10 ^ p) as [|q|q] eqn:Hq; try lia.
    apply binary_round_pos.
  - assert (0 < 10 ^ (- p)) as H10 by (apply Z.pow_pos_nonneg; lia).
    change (Z.pos s <? 0) with false.
    change (Z.abs (Z.pos s)) with (Z.pos s).
    change (Z.to_pos (Z.pos s)) with s.
    rewrite SFdiv_pos. by rewrite Z2Pos.id by done.
Qed.

(** A trailing zero of the digits can be moved to the exponent. *)
Lemma dec_strip_zero s p : 0 < s -> dec (10 * s) p = dec s (p + 1).
Proof.
  intros Hs. rewrite !dec_round_ratio by lia.
  destruct (Z.leb_spec 0 p) as [Hp|Hp].
  - rewrite (proj2 (Z.leb_le 0 (p + 1))) by lia.
    f_equal. rewrite Z.pow_add_r by lia. ring.
  - assert (0 < 10 ^ (- p)) as H10 by (apply Z.pow_pos_nonneg; lia).
    destruct (Z.leb_spec 0 (p + 1)) as [Hp1|Hp1].
    + assert (p = -1) as -> by lia. cbn.
      apply round_ratio_eq; lia.
    + assert (0 < 10 ^ (- (p + 1))) by (apply Z.pow_pos_nonneg; lia).
      apply round_ratio_eq; [lia|lia|].
      replace (- p) with (1 + - (p + 1)) by lia.
      rewrite Z.pow_add_r by lia. ring.
Qed.

End DecSpec.

Section Nearest.

Implicit Types (N D m e : Z).

(** ** The three steps of [round_ratio] *)

Lemma round_ratio_unfold N D :
  0 < N -> 0 < D ->
  let E := fexp prec emax (Zdigits2 (N * 2 ^ 1074 / D) - 1074) in
  round_ratio N D
  = finish_round
      (round_nearest_even (N * 2 ^ 1074 / (D * 2 ^ (E + 1074)))
         (location_of (N * 2 ^ 1074) (D * 2 ^ (E + 1074))))
      E.
Proof.
  intros HN HD E. unfold round_ratio, binary_round_aux, finish_round.
  destruct (shr_fexp_holds (N * 2 ^ 1074) D (-1074) ltac:(lia) HD)
    as (mrs & -> & [Hm Hl]).
  pose proof (fexp_ge (Zdigits2 (N * 2 ^ 1074 / D) - 1074)) as HE.
  fold E in HE.
  replace (Zdigits2 (N * 2 ^ 1074 / D) + -1074)
    with (Zdigits2 (N * 2 ^ 1074 / D) - 1074) in * by lia.
  fold E in Hm, Hl |- *.
  replace (Z.max 0 (E - -1074)) with (E + 1074) in * by lia.
  replace (-1074 + (E + 1074)) with E by lia.
  by rewrite Hm, Hl.
Qed.

Lemma finish_round_canonical m e :
  0 < m -> fexp prec emax (Zdigits2 m + e) = e -> e <= 971 ->
  finish_round m e = S754_finite false (Z.to_pos m) e.
Proof.
  intros Hm Hf He. unfold finish_round, shr_fexp, shr.
  rewrite Hf, Z.sub_diag. cbn [shr_record_of_loc shr_m].
  destruct m as [|p|p]; try lia. cbn [Z.to_pos].
  by rewrite (proj2 (Z.leb_le e (emax - prec))) by (unfold emax, prec; lia).
Qed.

Lemma finish_round_carry e :
  -1074 <= e -> e + 1 <= 971 ->
  finish_round (2 ^ 53) e = S754_finite false (2 ^ 52) (e + 1).
Proof.
  intros He1 He2. unfold finish_round, shr_fexp, shr.
  change (Zdigits2 (2 ^ 53)) with 54.
  assert (fexp prec emax (54 + e) - e = 1) as ->
    by (unfold fexp, emin, prec, emax; lia).
  cbn [shr_record_of_loc SpecFloat.iter_pos shr_1 shr_m].
  change (2 ^ 53) with (Z.pos (2 ^ 53)). cbn [shr_1 shr_m Z.pow Z.pow_pos].
  by rewrite (proj2 (Z.leb_le (e + 1) (emax - prec)))
    by (unfold emax, prec; lia).
Qed.

(** Rounding a floor at the exponent of [m] gives [m] when the ratio is
    within half a unit of [m]. *)
Lemma round_at_exponent A B m :
  0 < B -> 0 < m ->
  (2 * m - 1) * B < 2 * A < (2 * m + 1) * B ->
  round_nearest_even (A / B) (location_of A B) = m.
Proof.
  intros HB Hm [H1 H2].
  pose proof (location_of_place A B HB) as Hp.
  pose proof (Z.div_mod A B ltac:(lia)) as Hdiv.
  pose proof (Z.mod_pos_bound A B HB) as Hr.
  assert (A / B = m \/ A / B = m - 1) as [Hq|Hq].
  { assert (A / B < m + 1) by (apply Z.div_lt_upper_bound; nia).
    assert (m - 1 <= A / B) by (apply Z.div_le_lower_bound; nia).
    lia. }
  - rewrite Hq in Hdiv |- *.
    destruct (location_of A B) as [|[]]; cbn in Hp |- *; try done; nia.
  - rewrite Hq in Hdiv |- *.
    destruct (location_of A B) as [|[]]; cbn in Hp |- *; try nia.
Qed.

(** ** A ratio close to a Number rounds to it *)

(** [N / D] rounds to the binary64 value [mx * 2 ^ ex] when it is less
    than half a unit in the last place away from it, and less than a
    quarter from below when [mx] is the least significand of 53 bits. *)
Lemma round_ratio_near N D mx ex :
  0 < N -> 0 < D ->
  fexp prec emax (Zdigits2 (Z.pos mx) + ex) = ex -> ex <= 971 ->
  (2 * Z.pos mx - 1) * 2 ^ (ex + 1074) * D < 2 * (N * 2 ^ 1074)
  < (2 * Z.pos mx + 1) * 2 ^ (ex + 1074) * D ->
  (Z.pos mx = 2 ^ 52 -> -1074 < ex ->
   (4 * Z.pos mx - 1) * 2 ^ (ex + 1074) * D < 4 * (N * 2 ^ 1074)) ->
  round_ratio N D = S754_finite false mx ex.
Proof.
  intros HN HD Hvalid Hex [Hlo Hhi] Hquarter.
  rewrite round_ratio_unfold by done. cbv zeta.
  set (A := N * 2 ^ 1074) in *.
  set (m := Z.pos mx) in *. assert (0 < m) as Hm by done.
  assert (-1074 <= ex) as Hex' by (rewrite <- Hvalid; apply fexp_ge).
  set (w := ex + 1074) in *. set (h := 2 ^ w) in *.
  assert (0 < h) as Hh by (apply Z.pow_pos_nonneg; lia).
  assert (0 < A) as HA by (unfold A; nia).
  pose proof (Zdigits2_bounds m Hm) as [Hm1 Hm2].
  pose proof (Zdigits2_pos m Hm) as Hd.
  set (d := Zdigits2 m) in *.
  assert (2 ^ (d + w - 1) = 2 ^ (d - 1) * h) as HdV1.
  { unfold h. rewrite <- Z.pow_add_r by lia. f_equal; lia. }
  assert (2 ^ (d + w) = 2 ^ d * h) as HdV.
  { unfold h. rewrite <- Z.pow_add_r by lia. f_equal; lia. }
  assert (0 < 2 ^ (d - 1)) as Hpd by (apply Z.pow_pos_nonneg; lia).
  assert (2 ^ d = 2 * 2 ^ (d - 1)) as Hd2.
  { rewrite <- Z.pow_succ_r by lia. f_equal; lia. }
  set (E := fexp prec emax (Zdigits2 (A / D) - 1074)).
  assert (E = ex
          \/ (E = ex - 1 /\ m = 2 ^ 52 /\ -1074 < ex /\ A < D * (m * h)))
    as [HE|(HE & Hm52 & Hex1 & HAV)].
  { destruct (Z.le_gt_cases (D * 2 ^ (d + w - 1)) A) as [Hge|Hlt].
    - left. unfold E.
      assert (Zdigits2 (A / D) = d + w) as ->.
      { apply Zdigits2_unique.
        - split.
          + apply Z.div_le_lower_bound; lia.
          + apply Z.div_lt_upper_bound; [lia|]. rewrite HdV. nia.
        - assert (2 ^ (d + w - 1) <= A / D)
            by (apply Z.div_le_lower_bound; lia).
          nia. }
      replace (d + w - 1074) with (d + ex) by lia. done.
    - rewrite HdV1 in Hlt.
      assert (m = 2 ^ (d - 1)) as Hpow by nia.
      destruct (Z.eq_dec w 0) as [Hw|Hw].
      + left. assert (h = 1) as Hh1 by (unfold h; by rewrite Hw).
        rewrite Hh1 in *.
        assert (A / D = m - 1) as HM0.
        { assert (A / D < m) by (apply Z.div_lt_upper_bound; nia).
          assert (m - 1 <= A / D) by (apply Z.div_le_lower_bound; nia).
          lia. }
        unfold E. rewrite HM0.
        assert (d <= 53) as Hd53.
        { unfold fexp, emin, prec, emax in Hvalid. lia. }
        assert (Zdigits2 (m - 1) <= d) as Hdm.
        { destruct (Z.eq_dec (m - 1) 0) as [->|Hnz]; [cbn; lia|].
          pose proof (Zdigits2_bounds (m - 1) ltac:(lia)) as [Hb1 Hb2].
          destruct (Z.le_gt_cases (Zdigits2 (m - 1)) d); [done|].
          assert (2 ^ d <= 2 ^ (Zdigits2 (m - 1) - 1))
            by (apply Z.pow_le_mono_r; lia).
          lia. }
        unfold fexp, emin, prec, emax. lia.
      + right.
        assert (d = 53) as Hd53.
        { unfold fexp, emin, prec, emax in Hvalid. lia. }
        assert (m = 2 ^ 52) as Hm52 by (rewrite Hpow, Hd53; done).
        specialize (Hquarter Hm52 ltac:(lia)).
        split; [|split; [done|split; [lia|nia]]].
        unfold E.
        assert (Zdigits2 (A / D) = d + w - 1) as ->.
        { assert (2 ^ (d + w - 1 - 1) * 2 = 2 ^ (d + w - 1)) as Hhalf.
          { rewrite Z.mul_comm, <- Z.pow_succ_r by lia. f_equal; lia. }
          assert (2 ^ (d + w - 1 - 1) <= A / D) as Hlow.
          { apply Z.div_le_lower_bound; [lia|].
            rewrite HdV1, Hm52 in *. nia. }
          apply Zdigits2_unique.
          - split; [done|].
            apply Z.div_lt_upper_bound; [lia|]. rewrite HdV1. nia.
          - assert (0 < 2 ^ (d + w - 1 - 1))
              by (apply Z.pow_pos_nonneg; lia).
            lia. }
        unfold fexp, emin, prec, emax. lia. }
  - rewrite HE. fold w. fold h.
    rewrite (round_at_exponent A (D * h) m); [|nia|done|nia].
    rewrite finish_round_canonical by done. done.
  - rewrite HE. replace (ex - 1 + 1074) with (w - 1) by lia.
    assert (h = 2 * 2 ^ (w - 1)) as Hh2.
    { unfold h. rewrite <- Z.pow_succ_r by lia. f_equal; lia. }
    set (h' := 2 ^ (w - 1)) in *.
    assert (0 < h') as Hh' by lia.
    specialize (Hquarter Hm52 Hex1).
    rewrite (round_at_exponent A (D * h') (2 ^ 53)); [|nia|done|].
    + rewrite finish_round_carry by lia.
      replace (ex - 1 + 1) with ex by lia.
      f_equal. apply Pos2Z.inj. fold m. by rewrite Hm52.
    + rewrite Hm52, Hh2 in *. split; nia.
Qed.

End Nearest.

Section Shortest.

(** ** Seventeen digits identify a Number *)

Lemma binary64_finite m e :
  binary64 (S754_finite false m e) ->
  fexp prec emax (Zdigits2 (Z.pos m) + e) = e /\ e <= 971
  /\ -1074 <= e /\ Z.pos m < 2 ^ 53.
Proof.
  unfold binary64, valid_binary, bounded, canonical_mantissa.
  intros [H1%Z.eqb_eq H2%Z.leb_le]%andb_true_iff.
  change (Z.pos (digits2_pos m)) with (Zdigits2 (Z.pos m)) in H1.
  split; [done|]. split; [unfold emax, prec in H2; lia|].
  split; [rewrite <- H1; apply fexp_ge|].
  pose proof (Zdigits2_bounds (Z.pos m) ltac:(done)) as [_ Hub].
  assert (Zdigits2 (Z.pos m) <= 53)
    by (unfold fexp, emin, prec, emax in H1; lia).
  assert (2 ^ Zdigits2 (Z.pos m) <= 2 ^ 53)
    by (apply Z.pow_le_mono_r; lia).
  lia.
Qed.

(** Of the two multiples of [Pn / Pd] around [Vn / Vd], the value of
    the binary64 value [m * 2 ^ e], one rounds to it when [Pn / Pd] is
    at most [10 ^ -16] times the value. *)
Lemma candidate_rounds Vn Vd Pn Pd m e :
  0 < Vn -> 0 < Vd -> 0 < Pn -> 0 < Pd ->
  binary64 (S754_finite false m e) ->
  Z.pos m * 2 ^ (e + 1074) * Vd = Vn * 2 ^ 1074 ->
  10 ^ 16 * Pn * Vd <= Vn * Pd ->
  let s := Vn * Pd / (Vd * Pn) in
  (0 < s /\ round_ratio (s * Pn) Pd = S754_finite false m e)
  \/ round_ratio ((s + 1) * Pn) Pd = S754_finite false m e.
Proof.
  intros HVn HVd HPn HPd Hx Hv Hbig. cbv zeta.
  destruct (binary64_finite m e Hx) as (Hvalid & He & He' & Hm53).
  set (H := 2 ^ (e + 1074)) in *.
  assert (0 < H) as HH by (apply Z.pow_pos_nonneg; lia).
  set (T := Vn * Pd) in *. set (B := Vd * Pn) in *.
  assert (0 < B) as HB by (unfold B; nia).
  pose proof (Z.div_mod T B ltac:(lia)) as Hdiv.
  pose proof (Z.mod_pos_bound T B HB) as Hr.
  set (s := T / B) in *. set (r := T mod B) in *.
  assert (0 < 2 ^ 1074) as H1074 by (by apply Z.pow_pos_nonneg).
  set (C := 2 ^ 1074) in *.
  set (X := Pn * C). set (Y := H * Pd).
  assert (0 < X) as HX by (unfold X; nia).
  assert (0 < Y) as HY by (unfold Y; nia).
  assert (10 ^ 16 * X <= Z.pos m * Y) as HXY.
  { unfold X, Y.
    assert (10 ^ 16 * Pn * Vd * C <= Vn * Pd * C) as H1
      by (apply Z.mul_le_mono_nonneg_r; lia).
    assert (Vn * Pd * C = Z.pos m * H * Pd * Vd) as H2.
    { transitivity (Pd * (Vn * C)); [ring|]. rewrite <- Hv. ring. }
    rewrite H2 in H1.
    apply (Z.mul_le_mono_pos_r _ _ Vd); [done|].
    replace (10 ^ 16 * (Pn * C) * Vd) with (10 ^ 16 * Pn * Vd * C) by ring.
    replace (Z.pos m * (H * Pd) * Vd) with (Z.pos m * H * Pd * Vd) by ring.
    done. }
  assert (X < Y) as K1.
  { destruct (Z.lt_ge_cases X Y); [done|].
    assert (Z.pos m * Y < 10 ^ 16 * Y)
      by (apply Z.mul_lt_mono_pos_r; [done|]; change (10 ^ 16) with
            10000000000000000; change (2 ^ 53) with 9007199254740992 in Hm53;
          lia).
    assert (10 ^ 16 * Y <= 10 ^ 16 * X)
      by (apply Z.mul_le_mono_nonneg_l; lia).
    lia. }
  assert (Z.pos m = 2 ^ 52 -> 2 * X < Y) as K2.
  { intros Hm. rewrite Hm in HXY.
    destruct (Z.lt_ge_cases (2 * X) Y); [done|].
    change (10 ^ 16) with 10000000000000000 in HXY.
    change (2 ^ 52) with 4503599627370496 in HXY. lia. }
  assert (s * B = T - r) as HsB by lia.
  assert (forall c, 2 * (c * Pn * C) * Vd = 2 * (c * B) * C)
    as Hmid by (intros c; unfold B; ring).
  assert (forall k, (k * Z.pos m) * H * Pd * Vd = k * T * C) as HmT.
  { intros k. unfold T.
    transitivity (k * Pd * (Z.pos m * H * Vd)); [ring|].
    rewrite Hv. ring. }
  destruct (Z.le_gt_cases (2 * r) B) as [Hlow|Hhigh].
  - left.
    assert (0 < s) as Hs.
    { destruct (Z.lt_ge_cases 0 s); [done|].
      assert (0 <= s) by (apply Z.div_pos; unfold T; nia).
      assert (s = 0) as Hs0 by lia. rewrite Hs0 in HsB.
      assert (10 ^ 16 * B <= T) by (unfold B, T; lia).
      change (10 ^ 16) with 10000000000000000 in *. lia. }
    split; [done|].
    apply round_ratio_near; try done; [nia| |];
      change (2 ^ (e + 1074)) with H; change (2 ^ 1074) with C.
    + split.
      * apply (Z.mul_lt_mono_pos_r Vd); [done|].
        rewrite Hmid, HsB.
        replace ((2 * Z.pos m - 1) * H * Pd * Vd)
          with (2 * Z.pos m * H * Pd * Vd - Y * Vd) by (unfold Y; ring).
        rewrite HmT.
        assert (2 * r * C < Y * Vd); [|lia].
        assert (B * C < Y * Vd)
          by (unfold B, X in *; nia).
        nia.
      * apply (Z.mul_lt_mono_pos_r Vd); [done|].
        rewrite Hmid, HsB.
        replace ((2 * Z.pos m + 1) * H * Pd * Vd)
          with (2 * Z.pos m * H * Pd * Vd + Y * Vd) by (unfold Y; ring).
        rewrite HmT. nia.
    + intros Hm _. specialize (K2 Hm).
      apply (Z.mul_lt_mono_pos_r Vd); [done|].
      replace (4 * (s * Pn * C) * Vd) with (4 * (s * B) * C)
        by (unfold B; ring).
      rewrite HsB.
      replace ((4 * Z.pos m - 1) * H * Pd * Vd)
        with (4 * Z.pos m * H * Pd * Vd - Y * Vd) by (unfold Y; ring).
      rewrite HmT.
      assert (4 * r * C < Y * Vd); [|lia].
      assert (2 * B * C < Y * Vd)
        by (unfold B, X in *; nia).
      nia.
  - right.
    assert (0 <= s) as Hs by (apply Z.div_pos; unfold T; nia).
    assert ((s + 1) * B = T + (B - r)) as HsB1 by lia.
    apply round_ratio_near; try done; [nia| |];
      change (2 ^ (e + 1074)) with H; change (2 ^ 1074) with C.
    + split.
      * apply (Z.mul_lt_mono_pos_r Vd); [done|].
        rewrite Hmid, HsB1.
        replace ((2 * Z.pos m - 1) * H * Pd * Vd)
          with (2 * Z.pos m * H * Pd * Vd - Y * Vd) by (unfold Y; ring).
        rewrite HmT. nia.
      * apply (Z.mul_lt_mono_pos_r Vd); [done|].
        rewrite Hmid, HsB1.
        replace ((2 * Z.pos m + 1) * H * Pd * Vd)
          with (2 * Z.pos m * H * Pd * Vd + Y * Vd) by (unfold Y; ring).
        rewrite HmT.
        assert (2 * (B - r) * C < Y * Vd); [|lia].
        assert (B * C < Y * Vd)
          by (unfold B, X in *; nia).
        nia.
    + intros _ _.
      apply (Z.mul_lt_mono_pos_r Vd); [done|].
      replace (4 * ((s + 1) * Pn * C) * Vd)
        with (4 * ((s + 1) * B) * C) by (unfold B; ring).
      rewrite HsB1.
      replace ((4 * Z.pos m - 1) * H * Pd * Vd)
        with (4 * Z.pos m * H * Pd * Vd - Y * Vd) by (unfold Y; ring).
      rewrite HmT. nia.
Qed.

End Shortest.

Section Binary64.

(** ** Rounding gives binary64 values *)

Lemma Zdigits2_le a b : 0 < a -> a <= b -> Zdigits2 a <= Zdigits2 b.
Proof.
  intros Ha Hab.
  pose proof (Zdigits2_bounds a Ha) as [Ha1 _].
  pose proof (Zdigits2_bounds b ltac:(lia)) as [_ Hb2].
  destruct (Z.le_gt_cases (Zdigits2 a) (Zdigits2 b)); [done|].
  assert (2 ^ Zdigits2 b <= 2 ^ (Zdigits2 a - 1))
    by (apply Z.pow_le_mono_r; [lia|]; pose proof (Zdigits2_nonneg b); lia).
  lia.
Qed.

Lemma finish_round_binary64 R E :
  0 <= R -> -1074 <= E ->
  (0 < R -> E <= fexp prec emax (Zdigits2 R + E)) ->
  binary64 (finish_round R E).
Proof.
  intros HR HE Hf. unfold finish_round.
  destruct (shr_fexp_holds R 1 E HR ltac:(lia)) as (mrs & Hs & [Hm _]).
  rewrite Z.div_1_r in Hs, Hm.
  assert (location_of R 1 = loc_Exact) as Hl
    by (unfold location_of; by rewrite Z.mod_1_r).
  rewrite Hl in Hs. rewrite Hs. rewrite Z.mul_1_l in Hm.
  destruct (shr_m mrs) as [|p|p] eqn:Hp; [done| |done].
  set (f := fexp prec emax (Zdigits2 R + E)) in *.
  set (j := Z.max 0 (f - E)) in *.
  destruct (Z.leb_spec (E + j) (emax - prec)) as [Hle|Hgt]; [|done].
  unfold binary64, valid_binary, bounded, canonical_mantissa.
  apply andb_true_iff. split; [|by apply Z.leb_le].
  apply Z.eqb_eq.
  change (Z.pos (digits2_pos p)) with (Zdigits2 (Z.pos p)).
  assert (0 < R) as HRpos.
  { destruct (Z.eq_dec R 0) as [->|]; [|lia].
    rewrite Z.div_0_l in Hm; [lia|].
    assert (0 < 2 ^ j) by (apply Z.pow_pos_nonneg; lia). lia. }
  specialize (Hf HRpos).
  rewrite Hm, Zdigits2_shiftr by lia.
  replace (Zdigits2 R - j + (E + j)) with (Zdigits2 R + E) by lia.
  fold f. lia.
Qed.

Lemma round_nearest_even_cases m l :
  round_nearest_even m l = m \/ round_nearest_even m l = m + 1.
Proof. destruct l as [|[]]; cbn; auto. destruct (Z.even m); auto. Qed.

Lemma round_ratio_binary64 N D :
  0 < N -> 0 < D -> binary64 (round_ratio N D).
Proof.
  intros HN HD. rewrite round_ratio_unfold by done. cbv zeta.
  set (A := N * 2 ^ 1074).
  assert (0 < A) as HA by (unfold A; nia).
  set (E := fexp prec emax (Zdigits2 (A / D) - 1074)).
  pose proof (fexp_ge (Zdigits2 (A / D) - 1074)) as HE. fold E in HE.
  assert (0 < 2 ^ (E + 1074)) as Hp by (apply Z.pow_pos_nonneg; lia).
  assert (0 <= A / D) as HM0 by (apply Z.div_pos; lia).
  assert (A / (D * 2 ^ (E + 1074)) = A / D / 2 ^ (E + 1074)) as HM
    by (by rewrite Z.div_div by lia).
  set (M := A / (D * 2 ^ (E + 1074))) in *.
  assert (0 <= M) as HM' by (rewrite HM; apply Z.div_pos; lia).
  set (L := location_of A (D * 2 ^ (E + 1074))).
  apply finish_round_binary64; [|done|].
  { destruct (round_nearest_even_cases M L) as [-> | ->]; lia. }
  intros HR.
  destruct (Z.eq_dec M 0) as [HMz|HMnz].
  - assert (E = -1074) as ->; [|apply fexp_ge].
    destruct (Z.eq_dec (A / D) 0) as [Hz|Hnz].
    + unfold E. rewrite Hz. cbn [Zdigits2].
      unfold fexp, emin, prec, emax. lia.
    + assert (A / D < 2 ^ (E + 1074)) as Hlt.
      { destruct (Z.lt_ge_cases (A / D) (2 ^ (E + 1074))); [done|].
        assert (1 <= A / D / 2 ^ (E + 1074))
          by (apply Z.div_le_lower_bound; lia).
        lia. }
      pose proof (Zdigits2_bounds (A / D) ltac:(lia)) as [Hb _].
      assert (Zdigits2 (A / D) <= E + 1074) as Hd.
      { destruct (Z.le_gt_cases (Zdigits2 (A / D)) (E + 1074)); [done|].
        assert (2 ^ (E + 1074) <= 2 ^ (Zdigits2 (A / D) - 1))
          by (apply Z.pow_le_mono_r; lia).
        lia. }
      unfold E, fexp, emin, prec, emax in *. lia.
  - assert (0 < M) as HMpos by lia.
    assert (Zdigits2 M = Zdigits2 (A / D) - (E + 1074)) as HdM
      by (rewrite HM; apply Zdigits2_shiftr; lia).
    assert (Zdigits2 M <= Zdigits2 (round_nearest_even M L)) as Hle.
    { apply Zdigits2_le; [done|].
      destruct (round_nearest_even_cases M L) as [-> | ->]; lia. }
    assert (fexp prec emax (Zdigits2 M + E) = E) as Hcanon.
    { rewrite HdM.
      by replace (Zdigits2 (A / D) - (E + 1074) + E)
        with (Zdigits2 (A / D) - 1074) by lia. }
    rewrite <- Hcanon at 1. apply fexp_mono. lia.
Qed.

Lemma dec_binary64 z e : 0 <= z -> binary64 (dec z e).
Proof.
  intros Hz. destruct (Z.eq_dec z 0) as [->|Hnz]; [done|].
  rewrite dec_round_ratio by lia.
  destruct (0 <=? e) eqn:He.
  - apply Z.leb_le in He. apply round_ratio_binary64; [|done].
    assert (0 < 10 ^ e) by (apply Z.pow_pos_nonneg; lia). nia.
  - apply Z.leb_gt in He. apply round_ratio_binary64; [lia|].
    apply Z.pow_pos_nonneg; lia.
Qed.

Lemma SFopp_binary64 x : binary64 x -> binary64 (SFopp x).
Proof. by destruct x. Qed.

End Binary64.


(** * Decimal numerals *)

Section Strings.

Implicit Types (s : string) (L : list Z) (t : jsstring).

(** ** Strings of the source as code units *)

Lemma js_String a s : js (String a s) = Z.of_N (N_of_ascii a) :: js s.
Proof. reflexivity. Qed.

Lemma js_app s1 s2 : js (s1 +:+ s2) = js s1 ++ js s2.
Proof.
  induction s1 as [|a s1 IH]; [done|].
  change (js (String a s1 +:+ s2))
    with (Z.of_N (N_of_ascii a) :: js (s1 +:+ s2)).
  by rewrite IH.
Qed.

Lemma js_length s : length (js s) = String.length s.
Proof.
  induction s as [|a s IH]; [done|]. rewrite js_String. cbn. by rewrite IH.
Qed.

Lemma js_zeros n : js (zeros n) = replicate n 48.
Proof.
  induction n as [|n IH]; [done|]. cbn [zeros replicate].
  rewrite js_String, IH. done.
Qed.

Lemma js_substring n m s : js (substring n m s) = take m (drop n (js s)).
Proof.
  revert n m. induction s as [|a s IH]; intros n m.
  - destruct n, m; reflexivity.
  - destruct n as [|n].
    + destruct m as [|m]; [done|].
      cbn [substring]. rewrite !js_String, IH. done.
    + cbn [substring]. rewrite js_String, IH. done.
Qed.

(** ** The digits of a numeral *)

Lemma udigits_digits d : is_digits (udigits d).
Proof. induction d; constructor; (lia || done). Qed.

Lemma js_string_of_uint d :
  js (NilEmpty.string_of_uint d) = map digit_char (udigits d).
Proof.
  induction d; cbn [NilEmpty.string_of_uint udigits map];
    rewrite ?js_String, ?IHd; reflexivity.
Qed.

Lemma digits_value_app L1 L2 :
  digits_value 10 (L1 ++ L2)
  = digits_value 10 L1 * 10 ^ Z.of_nat (length L2) + digits_value 10 L2.
Proof.
  unfold digits_value. rewrite fold_left_app.
  generalize (fold_left (fun acc d => 10 * acc + d) L1 0). intros acc.
  revert acc. induction L2 as [|d L2 IH]; intros acc.
  - cbn. lia.
  - cbn [fold_left length]. rewrite IH, (IH (10 * 0 + d)).
    rewrite Nat2Z.inj_succ, Z.pow_succ_r by lia. ring.
Qed.

Lemma digits_value_cons d L :
  digits_value 10 (d :: L)
  = d * 10 ^ Z.of_nat (length L) + digits_value 10 L.
Proof.
  change (d :: L) with ([d] ++ L). rewrite digits_value_app.
  unfold digits_value at 1. cbn. lia.
Qed.

Lemma digits_value_bounds L :
  is_digits L -> 0 <= digits_value 10 L < 10 ^ Z.of_nat (length L).
Proof.
  induction 1 as [|d L Hd _ IH]; [cbn; lia|].
  rewrite digits_value_cons. cbn [length].
  rewrite Nat2Z.inj_succ, Z.pow_succ_r by lia.
  assert (0 < 10 ^ Z.of_nat (length L)) by (apply Z.pow_pos_nonneg; lia).
  nia.
Qed.

Lemma digits_value_zeros n L :
  digits_value 10 (replicate n 0 ++ L) = digits_value 10 L.
Proof.
  induction n as [|n IH]; [done|].
  cbn [replicate app]. rewrite digits_value_cons, IH. lia.
Qed.

Lemma digits_value_replicate n : digits_value 10 (replicate n 0) = 0.
Proof.
  rewrite <- (app_nil_r (replicate n 0)), digits_value_zeros. done.
Qed.

Lemma of_uint_acc_value d acc :
  Z.pos (Pos.of_uint_acc d acc)
  = fold_left (fun a v => 10 * a + v) (udigits d) (Z.pos acc).
Proof.
  revert acc. induction d; intros acc;
    cbn [Pos.of_uint_acc udigits fold_left]; rewrite ?IHd; try done;
    f_equal; lia.
Qed.

Lemma of_uint_value d : Z.of_N (Pos.of_uint d) = digits_value 10 (udigits d).
Proof.
  unfold digits_value.
  induction d; cbn [Pos.of_uint udigits fold_left]; try done;
    rewrite ?IHd; try done;
    cbn [Z.of_N]; rewrite of_uint_acc_value; done.
Qed.

Lemma nzhead_not_D0 d l : Decimal.nzhead d <> Decimal.D0 l.
Proof. induction d; cbn; try done. Qed.

Lemma to_uint_unorm n : Decimal.unorm (N.to_uint n) = N.to_uint n.
Proof.
  rewrite <- (DecimalN.Unsigned.of_to n) at 2.
  symmetry. apply DecimalN.Unsigned.to_of.
Qed.

(** ** The digits of an integer *)

Lemma decimal_digits z : is_digits (decimal z).
Proof. apply udigits_digits. Qed.

Lemma decimal_value z : 0 <= z -> digits_value 10 (decimal z) = z.
Proof.
  intros Hz. unfold decimal. rewrite <- of_uint_value.
  change (Pos.of_uint (N.to_uint (Z.to_N z)))
    with (N.of_uint (N.to_uint (Z.to_N z))).
  rewrite DecimalN.Unsigned.of_to. lia.
Qed.

Lemma js_Z_digits z : js (Z_digits z) = map digit_char (decimal z).
Proof.
  unfold Z_digits, decimal, NilZero.string_of_uint.
  destruct (N.to_uint (Z.to_N z)) eqn:Hd; try apply js_string_of_uint.
  destruct (Z.to_N z); [discriminate Hd|].
  by apply DecimalPos.Unsigned.to_uint_nonnil in Hd.
Qed.

(** A positive integer has a first digit, which is not 0. *)
Lemma decimal_head z :
  0 < z -> exists d0 L, decimal z = d0 :: L /\ 1 <= d0 <= 9.
Proof.
  intros Hz. unfold decimal.
  pose proof (to_uint_unorm (Z.to_N z)) as Hn.
  pose proof (udigits_digits (N.to_uint (Z.to_N z))) as Hd.
  destruct (Z.to_N z) as [|p] eqn:Hp; [lia|].
  assert (N.to_uint (N.pos p) <> Decimal.zero) as Hnz
    by apply DecimalPos.Unsigned.to_uint_nonzero.
  assert (N.to_uint (N.pos p) <> Decimal.Nil) as Hnn
    by apply DecimalPos.Unsigned.to_uint_nonnil.
  unfold Decimal.unorm in Hn.
  pose proof (nzhead_not_D0 (N.to_uint (N.pos p))) as H0.
  destruct (Decimal.nzhead (N.to_uint (N.pos p))) eqn:Hh;
    [by rewrite <- Hn in Hnz|by destruct (H0 u)|..];
    rewrite <- Hn in Hd |- *; cbn [udigits] in Hd |- *;
    do 2 eexists; (split; [reflexivity|lia]).
Qed.

Lemma decimal_length z : length (decimal z) = String.length (Z_digits z).
Proof. by rewrite <- js_length, js_Z_digits, length_map. Qed.

(** The number of digits of a positive integer. *)
Lemma decimal_magnitude z :
  0 < z ->
  10 ^ (Z.of_nat (length (decimal z)) - 1) <= z
  < 10 ^ Z.of_nat (length (decimal z)).
Proof.
  intros Hz. pose proof (decimal_value z ltac:(lia)) as Hv.
  pose proof (decimal_digits z) as Hd.
  destruct (decimal_head z Hz) as (d0 & L & HL & Hd0).
  rewrite HL in Hv, Hd |- *. split.
  - rewrite digits_value_cons in Hv. cbn [length].
    apply Forall_cons in Hd as [_ HdL].
    pose proof (digits_value_bounds L HdL).
    replace (Z.of_nat (S (length L)) - 1) with (Z.of_nat (length L)) by lia.
    assert (0 < 10 ^ Z.of_nat (length L)) by (apply Z.pow_pos_nonneg; lia).
    nia.
  - pose proof (digits_value_bounds _ Hd). lia.
Qed.

End Strings.

(** * The text of a Number *)

Section ShortestDigits.

(** ** The decimal exponent *)

Lemma decimal_exponent_low num den :
  0 < num -> 0 < den ->
  let n := decimal_exponent num den in
  (0 <= n - 17 -> 10 ^ 16 * 10 ^ (n - 17) * den <= num)
  /\ (n - 17 < 0 -> 10 ^ 16 * den <= num * 10 ^ (17 - n)).
Proof.
  intros Hnum Hden. unfold decimal_exponent. cbv zeta.
  destruct (Z.leb_spec den num) as [Hle|Hlt].
  - set (q := num / den).
    assert (0 < q) as Hq.
    { unfold q. apply Z.div_str_pos. lia. }
    rewrite <- decimal_length.
    pose proof (decimal_magnitude q Hq) as [Hlow _].
    set (n := Z.of_nat (length (decimal q))) in *.
    assert (q * den <= num) as Hqd.
    { unfold q. rewrite Z.mul_comm. apply Z.mul_div_le. lia. }
    assert (1 <= n) as Hn.
    { destruct (decimal_head q Hq) as (d0 & L & HL & _).
      unfold n. rewrite HL. cbn [length]. lia. }
    assert (0 < 10 ^ (n - 1)) by (apply Z.pow_pos_nonneg; lia).
    assert (10 ^ (n - 1) * den <= num) as Hbase by nia.
    split; intros Hn17.
    + rewrite <- Z.pow_add_r by lia.
      by replace (16 + (n - 17)) with (n - 1) by lia.
    + assert (10 ^ 16 = 10 ^ (n - 1) * 10 ^ (17 - n)) as ->.
      { rewrite <- Z.pow_add_r by lia. f_equal; lia. }
      assert (0 < 10 ^ (17 - n)) by (apply Z.pow_pos_nonneg; lia).
      replace (10 ^ (n - 1) * 10 ^ (17 - n) * den)
        with (10 ^ (n - 1) * den * 10 ^ (17 - n)) by ring.
      apply Z.mul_le_mono_nonneg_r; lia.
  - set (t := (den - 1) / num).
    assert (0 < t) as Ht.
    { unfold t. apply Z.div_str_pos. lia. }
    rewrite <- decimal_length.
    pose proof (decimal_magnitude t Ht) as [_ Hup].
    set (L := Z.of_nat (length (decimal t))) in *.
    assert (den - 1 < (t + 1) * num) as Htd.
    { unfold t. pose proof (Z.div_mod (den - 1) num ltac:(lia)).
      pose proof (Z.mod_pos_bound (den - 1) num Hnum). nia. }
    assert (0 <= L) by lia.
    split; intros Hn17; [lia|].
    replace (17 - (1 - L)) with (L + 16) by lia.
    rewrite Z.pow_add_r by lia.
    assert (den <= num * 10 ^ L) as Hbase by nia.
    replace (num * (10 ^ L * 10 ^ 16)) with (10 ^ 16 * (num * 10 ^ L))
      by ring.
    apply Z.mul_le_mono_nonneg_l; [done|lia].
Qed.

(** ** Trailing zeros *)

Lemma strip_zeros_dec fuel s p :
  0 < s ->
  let '(s', p') := strip_zeros fuel s p in 0 < s' /\ dec s' p' = dec s p.
Proof.
  revert s p. induction fuel as [|fuel IH]; intros s p Hs; [done|].
  cbn [strip_zeros].
  destruct (Z.eqb_spec (s mod 10) 0) as [Hm|Hm]; [|done].
  destruct (Z.eqb_spec s 0) as [H0|H0]; [lia|]. cbn [andb negb].
  pose proof (Z.div_mod s 10 ltac:(lia)) as Hdiv.
  assert (0 < s / 10) as Hq by lia.
  specialize (IH (s / 10) (p + 1) Hq).
  destruct (strip_zeros fuel (s / 10) (p + 1)) as [s' p'].
  destruct IH as [Hs' Hd]. split; [done|].
  rewrite Hd, <- dec_strip_zero by done. f_equal. lia.
Qed.

(** ** The search for the digits *)

Lemma scaled_floor_nonneg num den p :
  0 < num -> 0 < den -> 0 <= scaled_floor num den p.
Proof.
  intros Hn Hd. unfold scaled_floor.
  destruct (Z.leb_spec 0 p).
  - apply Z.div_pos; [lia|].
    assert (0 < 10 ^ p) by (apply Z.pow_pos_nonneg; lia). nia.
  - apply Z.div_pos; [|lia].
    assert (0 < 10 ^ (- p)) by (apply Z.pow_pos_nonneg; lia). nia.
Qed.

Lemma dec_finite_pos s p m e :
  0 <= s -> dec s p = S754_finite false m e -> 0 < s.
Proof.
  intros Hs Hd. destruct (Z.eq_dec s 0) as [->|]; [discriminate Hd|lia].
Qed.

Lemma digits_candidate_sound m e num den n k s :
  0 < num -> 0 < den ->
  digits_candidate (S754_finite false m e) num den n k = Some s ->
  0 < s /\ dec s (n - k) = S754_finite false m e.
Proof.
  intros Hnum Hden. unfold digits_candidate.
  pose proof (scaled_floor_nonneg num den (n - k) Hnum Hden) as H0.
  set (s0 := scaled_floor num den (n - k)) in *.
  assert (forall s', 0 <= s' -> dec s' (n - k) = S754_finite false m e ->
            0 < s' /\ dec s' (n - k) = S754_finite false m e) as Hok
    by (intros s' ? Hd; split; [by eapply dec_finite_pos|done]).
  destruct (bool_decide_reflect (dec s0 (n - k) = S754_finite false m e))
    as [Hlo|Hlo];
    destruct (bool_decide_reflect
                (dec (s0 + 1) (n - k) = S754_finite false m e))
      as [Hhi|Hhi]; try discriminate.
  - destruct (compare_midpoint num den s0 (n - k));
      [destruct (Z.even s0)|..]; intros [= <-]; apply Hok; (lia || done).
  - intros [= <-]. by apply Hok.
  - intros [= <-]. apply Hok; [lia|done].
Qed.

Lemma shortest_digits_sound fuel m e num den n k :
  0 < num -> 0 < den ->
  is_Some (digits_candidate (S754_finite false m e) num den n
             (k + Z.of_nat fuel)) ->
  let '(s, p) := shortest_digits fuel (S754_finite false m e) num den n k in
  0 < s /\ dec s p = S754_finite false m e.
Proof.
  intros Hnum Hden. revert k.
  induction fuel as [|fuel IH]; intros k Hc; cbn [shortest_digits].
  - rewrite Z.add_0_r in Hc. destruct Hc as [s Hs]. rewrite Hs.
    cbv beta iota.
    exact (digits_candidate_sound _ _ _ _ _ _ _ Hnum Hden Hs).
  - destruct (digits_candidate _ num den n k) as [s|] eqn:Hs.
    + cbv beta iota.
    exact (digits_candidate_sound _ _ _ _ _ _ _ Hnum Hden Hs).
    + apply IH. by replace (k + 1 + Z.of_nat fuel)
        with (k + Z.of_nat (S fuel)) by lia.
Qed.

(** Seventeen digits are enough. *)
Lemma digits_candidate_17 m e num den n :
  0 < num -> 0 < den ->
  binary64 (S754_finite false m e) ->
  Z.pos m * 2 ^ (e + 1074) * den = num * 2 ^ 1074 ->
  (0 <= n - 17 -> 10 ^ 16 * 10 ^ (n - 17) * den <= num) ->
  (n - 17 < 0 -> 10 ^ 16 * den <= num * 10 ^ (17 - n)) ->
  is_Some (digits_candidate (S754_finite false m e) num den n 17).
Proof.
  intros Hnum Hden Hx Hv H1 H2. unfold digits_candidate.
  set (p := n - 17) in *.
  pose proof (scaled_floor_nonneg num den p Hnum Hden) as H0.
  assert (dec (scaled_floor num den p) p = S754_finite false m e
          \/ dec (scaled_floor num den p + 1) p = S754_finite false m e)
    as Hc.
  { unfold scaled_floor in *. destruct (Z.leb_spec 0 p) as [Hp|Hp].
    - assert (0 < 10 ^ p) as H10 by (apply Z.pow_pos_nonneg; lia).
      destruct (candidate_rounds num den (10 ^ p) 1 m e)
        as [[Hs Hr]|Hr]; try done; try lia.
      + left. rewrite Z.mul_1_r in Hs, Hr.
        rewrite dec_round_ratio by done.
        by rewrite (proj2 (Z.leb_le 0 p)) by done.
      + right. rewrite Z.mul_1_r in Hr.
        rewrite dec_round_ratio by lia.
        by rewrite (proj2 (Z.leb_le 0 p)) by done.
    - assert (0 < 10 ^ (- p)) as H10 by (apply Z.pow_pos_nonneg; lia).
      specialize (H2 Hp). replace (17 - n) with (- p) in H2 by lia.
      destruct (candidate_rounds num den 1 (10 ^ (- p)) m e)
        as [[Hs Hr]|Hr]; try done; try lia.
      + left. rewrite Z.mul_1_r in Hs, Hr.
        rewrite dec_round_ratio by done.
        rewrite (proj2 (Z.leb_gt 0 p)) by done. by rewrite Z.mul_1_r in Hr.
      + right. rewrite Z.mul_1_r in Hr.
        rewrite dec_round_ratio by lia.
        rewrite (proj2 (Z.leb_gt 0 p)) by done. by rewrite Z.mul_1_r in Hr. }
  set (s0 := scaled_floor num den p) in *.
  destruct Hc as [Hc|Hc].
  - rewrite (bool_decide_eq_true_2 _ Hc).
    destruct (bool_decide _); [|done].
    destruct (compare_midpoint _ _ _ _); done.
  - rewrite (bool_decide_eq_true_2 (dec (s0 + 1) p = _) Hc).
    destruct (bool_decide _); [|done].
    destruct (compare_midpoint _ _ _ _); done.
Qed.

(** The digits and the exponent that [Number::toString] writes denote the
    Number. *)
Lemma Number_toString_digits m e :
  binary64 (S754_finite false m e) ->
  let num := if 0 <=? e then Z.pos m * 2 ^ e else Z.pos m in
  let den := if 0 <=? e then 1 else 2 ^ (- e) in
  let n := decimal_exponent num den in
  let '(s, p) := shortest_digits 16 (S754_finite false m e) num den n 1 in
  let '(s', p') := strip_zeros 20 s p in
  0 < s' /\ dec s' p' = S754_finite false m e.
Proof.
  intros Hx. cbv zeta.
  destruct (binary64_finite m e Hx) as (_ & _ & He & _).
  set (num := if 0 <=? e then Z.pos m * 2 ^ e else Z.pos m).
  set (den := if 0 <=? e then 1 else 2 ^ (- e)).
  assert (0 < num /\ 0 < den
          /\ Z.pos m * 2 ^ (e + 1074) * den = num * 2 ^ 1074)
    as (Hnum & Hden & Hv).
  { unfold num, den. destruct (Z.leb_spec 0 e) as [H0|H0].
    - assert (0 < 2 ^ e) by (apply Z.pow_pos_nonneg; lia).
      split; [lia|]. split; [lia|].
      rewrite Z.pow_add_r by lia. ring.
    - assert (0 < 2 ^ (- e)) by (apply Z.pow_pos_nonneg; lia).
      split; [lia|]. split; [lia|].
      rewrite <- Z.mul_assoc, <- Z.pow_add_r by lia.
      do 2 f_equal; lia. }
  destruct (decimal_exponent_low num den Hnum Hden) as [H1 H2].
  pose proof (shortest_digits_sound 16 m e num den
                (decimal_exponent num den) 1 Hnum Hden) as Hs.
  destruct (shortest_digits 16 _ num den _ 1) as [s p].
  destruct Hs as [Hs Hd].
  { change (1 + Z.of_nat 16) with 17. by apply digits_candidate_17. }
  pose proof (strip_zeros_dec 20 s p Hs) as Hz.
  destruct (strip_zeros 20 s p) as [s' p'].
  destruct Hz as [Hs' Hd']. split; [done|congruence].
Qed.

End ShortestDigits.

(** * Reading back the text of a Number *)

Lemma is_digit_char v :
  0 <= v <= 9 -> is_digit (digit_char v) = true /\ digit_char v - 48 = v.
Proof.
  intros Hv. unfold is_digit, digit_char. split; [|lia].
  apply andb_true_iff. split; apply Z.leb_le; lia.
Qed.

Lemma span_digits_end t : no_digit t -> span_digits t = ([], t).
Proof. destruct t as [|c t]; [done|]. cbn. by intros ->. Qed.

Lemma span_digits_digits L t :
  is_digits L -> no_digit t -> span_digits (map digit_char L ++ t) = (L, t).
Proof.
  intros HL Ht. induction HL as [|v L Hv _ IH]; cbn [map app].
  - by apply span_digits_end.
  - cbn [span_digits]. destruct (is_digit_char v Hv) as [-> ->].
    by rewrite IH.
Qed.

Lemma number_end_no_digit t : number_end t -> no_digit t.
Proof. destruct t; [done|]. by intros [? _]. Qed.

Lemma parse_exponent_none t :
  number_end t -> Connector.parse_exponent t = Some (0, t).
Proof.
  destruct t as [|c t]; [done|]. intros (_ & _ & H1 & H2).
  unfold Connector.parse_exponent.
  destruct (Z.eqb_spec c 101); [done|]. by destruct (Z.eqb_spec c 69).
Qed.

Lemma is_digits_app L1 L2 : is_digits L1 -> is_digits L2 -> is_digits (L1 ++ L2).
Proof. intros. by apply Forall_app. Qed.

Lemma is_digits_replicate n : is_digits (replicate n 0).
Proof. apply Forall_replicate. lia. Qed.

Lemma map_digit_char_zeros n : replicate n 48 = map digit_char (replicate n 0).
Proof. induction n; cbn; [done|]. by f_equal. Qed.

(** The exponent part that [format_decimal] writes. *)
Lemma parse_exponent_text e t :
  e <> 0 -> no_digit t ->
  Connector.parse_exponent
    (101 :: js ((if e <? 0 then "-" else "+") +:+ Z_digits (Z.abs e))
       ++ t)
  = Some (e, t).
Proof.
  intros He Ht. rewrite js_app, js_Z_digits.
  destruct (decimal_head (Z.abs e)) as (d0 & L & HL & Hd0); [lia|].
  pose proof (decimal_digits (Z.abs e)) as Hds.
  pose proof (decimal_value (Z.abs e)) as Hv.
  unfold Connector.parse_exponent.
  change (101 =? 101) with true. cbn [orb].
  destruct (Z.ltb_spec e 0) as [Hneg|Hpos].
  - change (js "-") with [45]. cbn [app].
    rewrite span_digits_digits by done.
    rewrite HL in *. rewrite Hv by lia. do 2 f_equal. lia.
  - change (js "+") with [43]. cbn [app].
    rewrite span_digits_digits by done.
    rewrite HL in *. rewrite Hv by lia. do 2 f_equal. lia.
Qed.

(** An integer part is well formed when it has no superfluous leading
    zero. *)
Lemma parse_unsigned_integer d0 ip s2 :
  is_digits (d0 :: ip) -> (d0 <> 0 \/ ip = []) ->
  no_digit s2 -> (forall r, s2 <> 46 :: r) ->
  Connector.parse_unsigned (map digit_char (d0 :: ip) ++ s2)
  = '(e, s4) ← Connector.parse_exponent s2;
    Some (dec (digits_value 10 (d0 :: ip)) e, s4).
Proof.
  intros Hip Hz Hs2 Hdot. unfold Connector.parse_unsigned.
  rewrite span_digits_digits by done.
  assert ((d0 =? 0) && negb (bool_decide (ip = [])) = false) as ->.
  { destruct Hz as [Hz| ->]; [|by rewrite andb_comm].
    by destruct (Z.eqb_spec d0 0). }
  assert (match s2 with
          | 46 :: r =>
              let '(fp, s3) := span_digits r in
              match fp with
              | [] => None
              | _ => Some (fp, s3)
              end
          | _ => Some ([], s2)
          end = Some ([], s2)) as ->.
  { destruct s2 as [|c s2]; [done|].
    destruct (Z.eq_dec c 46) as [->|Hc]; [by destruct (Hdot s2)|].
    destruct c as [|p|p]; try done.
    repeat (destruct p as [p|p|]; try done). }
  cbn [mbind option_bind]. rewrite app_nil_r.
  destruct (Connector.parse_exponent s2) as [[e s4]|]; [|done].
  cbn [mbind option_bind length Z.of_nat]. by rewrite Z.sub_0_r.
Qed.

Lemma parse_unsigned_fraction d0 ip fp s3 :
  is_digits (d0 :: ip) -> (d0 <> 0 \/ ip = []) ->
  is_digits fp -> fp <> [] -> no_digit s3 ->
  Connector.parse_unsigned
    (map digit_char (d0 :: ip) ++ 46 :: map digit_char fp ++ s3)
  = '(e, s4) ← Connector.parse_exponent s3;
    Some (dec (digits_value 10 ((d0 :: ip) ++ fp))
            (e - Z.of_nat (length fp)), s4).
Proof.
  intros Hip Hz Hfp Hne Hs3. unfold Connector.parse_unsigned.
  rewrite span_digits_digits by done.
  assert ((d0 =? 0) && negb (bool_decide (ip = [])) = false) as ->.
  { destruct Hz as [Hz| ->]; [|by rewrite andb_comm].
    by destruct (Z.eqb_spec d0 0). }
  rewrite span_digits_digits by done.
  destruct fp as [|f fp]; [done|]. reflexivity.
Qed.

(** The value of an integer followed by zeros. *)
Lemma dec_zeros s j : 0 < s -> 0 <= j -> dec (s * 10 ^ j) 0 = dec s j.
Proof.
  intros Hs Hj. assert (0 < 10 ^ j) by (apply Z.pow_pos_nonneg; lia).
  rewrite !dec_round_ratio by lia.
  rewrite (proj2 (Z.leb_le 0 j)) by done.
  change (0 <=? 0) with true. cbv iota. by rewrite Z.pow_0_r, Z.mul_1_r.
Qed.

(** The exponent form of [format_decimal]. *)
Lemma parse_unsigned_exponent_form s n t :
  0 < s -> number_end t -> n - 1 <> 0 ->
  let ds := Z_digits s in
  let k := Z.of_nat (length (decimal s)) in
  let es := (if n - 1 <? 0 then "-" else "+") +:+ Z_digits (Z.abs (n - 1)) in
  Connector.parse_unsigned
    (js (if k =? 1 then ds +:+ "e" +:+ es
         else substring 0 1 ds +:+ "." +:+ substring 1 (Z.to_nat (k - 1)) ds
              +:+ "e" +:+ es) ++ t)
  = Some (dec s (n - k), t).
Proof.
  intros Hs Ht He ds k es.
  pose proof (number_end_no_digit t Ht) as Htd.
  destruct (decimal_head s Hs) as (d0 & L & HL & Hd0).
  pose proof (decimal_digits s) as Hds.
  pose proof (decimal_value s (Z.lt_le_incl _ _ Hs)) as Hv.
  pose proof (js_Z_digits s) as Hjs. fold ds in Hjs.
  assert (k = 1 + Z.of_nat (length L)) as Hk
    by (unfold k; rewrite HL; cbn [length]; lia).
  rewrite HL in Hds, Hv, Hjs.
  destruct (Z.eqb_spec k 1) as [Hk1|Hk1].
  - assert (L = []) as -> by (destruct L; [done|cbn [length] in Hk; lia]).
    rewrite !js_app, Hjs, <- !app_assoc.
    change (js "e") with [101]. cbn [app].
    change (digit_char d0 :: 101 :: js es ++ t)
      with (map digit_char [d0] ++ 101 :: js es ++ t).
    rewrite parse_unsigned_integer; [|done|by right|done|done].
    unfold es. rewrite parse_exponent_text by done.
    cbn [mbind option_bind]. rewrite Hv. do 3 f_equal. lia.
  - rewrite !js_app, !js_substring, Hjs, <- !app_assoc.
    change (js "e") with [101]. change (js ".") with [46].
    cbn [map drop take app]. rewrite take_0, drop_0. cbn [app].
    replace (Z.to_nat (k - 1)) with (length (map digit_char L))
      by (rewrite length_map; lia).
    rewrite firstn_all.
    change (digit_char d0 :: 46 :: map digit_char L ++ 101 :: js es ++ t)
      with (map digit_char [d0] ++ 46 :: map digit_char L
              ++ 101 :: js es ++ t).
    assert (is_digits [d0] /\ is_digits L) as [H0 HLd].
    { apply Forall_cons in Hds as [? ?]. split; [by constructor|done]. }
    rewrite parse_unsigned_fraction; [|done|by right|done| |done].
    2:{ intros ->. cbn [length] in Hk. lia. }
    unfold es. rewrite parse_exponent_text by done.
    cbn [mbind option_bind app]. rewrite Hv. do 3 f_equal. lia.
Qed.

(** The text that [format_decimal] writes for the digits of [s] and the
    exponent [n] is read back as the value of [s * 10 ^ (n - k)], [k] the
    number of digits. *)
Lemma parse_unsigned_format s n t :
  0 < s -> number_end t ->
  Connector.parse_unsigned (js (format_decimal (Z_digits s) n) ++ t)
  = Some (dec s (n - Z.of_nat (String.length (Z_digits s))), t).
Proof.
  intros Hs Ht.
  pose proof (number_end_no_digit t Ht) as Htd.
  destruct (decimal_head s Hs) as (d0 & L & HL & Hd0).
  pose proof (decimal_digits s) as Hds.
  pose proof (decimal_value s (Z.lt_le_incl _ _ Hs)) as Hv.
  pose proof (decimal_length s) as Hlen.
  pose proof (js_Z_digits s) as Hjs.
  pose proof (parse_unsigned_exponent_form s n t Hs Ht) as Hexp.
  cbv zeta in Hexp.
  unfold format_decimal. rewrite <- Hlen.
  set (k := Z.of_nat (length (decimal s))) in *.
  assert (k = 1 + Z.of_nat (length L)) as Hk
    by (unfold k; rewrite HL; cbn [length]; lia).
  destruct (Z.leb_spec k n) as [Hkn|Hkn];
    [destruct (Z.leb_spec n 21) as [Hn21|Hn21]|]; cbn [andb].
  - (* the digits followed by zeros *)
    rewrite js_app, js_zeros, Hjs, map_digit_char_zeros, <- map_app.
    rewrite HL in *. cbn [app].
    rewrite parse_unsigned_integer; [|
      by apply (is_digits_app (_ :: _)), is_digits_replicate|lia|done|].
    2:{ intros r ->. by destruct Ht as (_ & ? & _). }
    rewrite parse_exponent_none by done. cbn [mbind option_bind].
    change (d0 :: L ++ replicate (Z.to_nat (n - k)) 0)
      with ((d0 :: L) ++ replicate (Z.to_nat (n - k)) 0).
    rewrite digits_value_app, digits_value_replicate, Hv, Z.add_0_r.
    rewrite length_replicate, Z2Nat.id by lia.
    by rewrite dec_zeros by lia.
  - (* more than 21 digits before the point *)
    rewrite andb_false_r.
    rewrite (proj2 (Z.leb_gt n 0)) by lia. rewrite andb_false_r.
    apply Hexp. lia.
  - destruct (Z.ltb_spec 0 n) as [Hn0|Hn0];
      [destruct (Z.leb_spec n 21) as [Hn21|Hn21]|]; cbn [andb].
    + (* the point among the digits *)
      rewrite !js_app, !js_substring, Hjs, <- !app_assoc.
      change (js ".") with [46]. rewrite HL.
      destruct (Z.to_nat n) as [|n'] eqn:Hn'; [lia|].
      cbn [map take drop app].
      rewrite skipn_map, firstn_map.
      assert (is_digits (d0 :: take n' L) /\ is_digits (drop n' L))
        as [Hip Hfp].
      { rewrite HL in Hds. apply Forall_cons in Hds as [? HLd]. split.
        - constructor; [done|]. by apply Forall_take.
        - by apply Forall_drop. }
      rewrite (take_ge (map digit_char (drop n' L)))
        by (rewrite length_map, length_drop; lia).
      change (digit_char d0 :: map digit_char (take n' L) ++ ?x)
        with (map digit_char (d0 :: take n' L) ++ x).
      rewrite parse_unsigned_fraction; [|done|lia|done| |done].
      2:{ intros Hnil. apply (f_equal length) in Hnil.
          rewrite length_drop in Hnil. cbn [length] in Hnil. lia. }
      rewrite parse_exponent_none by done. cbn [mbind option_bind].
      change ((d0 :: take n' L) ++ drop n' L)
        with (d0 :: take n' L ++ drop n' L).
      rewrite take_drop, <- HL, Hv, length_drop. do 3 f_equal. lia.
    + rewrite (proj2 (Z.leb_gt n 0)) by lia. rewrite andb_false_r.
      apply Hexp. lia.
    + destruct (Z.ltb_spec (-6) n) as [Hn6|Hn6]; cbn [andb].
      * (* zeros between the point and the digits *)
        rewrite (proj2 (Z.leb_le n 0)) by done.
        rewrite !js_app, js_zeros, Hjs, map_digit_char_zeros, <- map_app.
        change (js "0.") with [48; 46].
        rewrite <- !app_assoc. cbn [app].
        change (48 :: 46 :: ?x) with (map digit_char [0] ++ 46 :: x).
        rewrite parse_unsigned_fraction;
          [|by constructor|by right|
           by apply is_digits_app; [apply is_digits_replicate|]| |done].
        2:{ rewrite HL. by destruct (Z.to_nat (- n)). }
        rewrite parse_exponent_none by done. cbn [mbind option_bind].
        change ([0] ++ ?x) with (replicate 1 0 ++ x).
        rewrite !digits_value_zeros, Hv, length_app, length_replicate.
        do 3 f_equal. fold k. lia.
      * apply Hexp. lia.
Qed.

(** * A Number written and read back *)

Lemma SFeqb_finite sg m e :
  SFeqb (S754_finite sg m e) (S754_finite sg m e) = true.
Proof.
  unfold SFeqb, SFcompare.
  destruct sg; by rewrite Z.compare_refl, Pos.compare_cont_refl.
Qed.

Lemma parse_number_unsigned c r :
  c <> 45 ->
  Connector.parse_number (c :: r) = Connector.parse_unsigned (c :: r).
Proof.
  intros Hc. unfold Connector.parse_number.
  destruct c as [|p|p]; try done.
  repeat (destruct p as [p|p|]; try done).
Qed.

Lemma binary64_sign sg m e :
  binary64 (S754_finite sg m e) -> binary64 (S754_finite false m e).
Proof. done. Qed.

(** The text of a finite Number, followed by something that does not
    continue a number, is read back as that Number; [-0], which is
    written [0], is read back as [+0]. *)
Lemma parse_number_toString x t :
  binary64 x -> isFinite x = true -> number_end t ->
  exists x',
    Connector.parse_number (js (Number_toString x) ++ t) = Some (x', t)
    /\ SFeqb x x' = true.
Proof.
  intros Hx Hfin Ht. destruct x as [sg| | |sg m e]; try done.
  - exists (S754_zero false). split; [|by destruct sg].
    change (js (Number_toString (S754_zero sg)) ++ t) with (48 :: t).
    rewrite parse_number_unsigned by done.
    change (48 :: t) with (map digit_char [0] ++ t).
    rewrite parse_unsigned_integer;
      [|by constructor|by right|by apply number_end_no_digit|].
    2:{ intros r ->. by destruct Ht as (_ & ? & _). }
    by rewrite parse_exponent_none.
  - exists (S754_finite sg m e). split; [|apply SFeqb_finite].
    pose proof (Number_toString_digits m e (binary64_sign sg m e Hx)) as Hd.
    cbv zeta in Hd. unfold Number_toString.
    destruct (shortest_digits _ _ _ _ _ _) as [s p].
    destruct (strip_zeros _ _ _) as [s' p'].
    destruct Hd as [Hs' Hd].
    pose proof (parse_unsigned_format s'
                  (p' + Z.of_nat (String.length (Z_digits s'))) t Hs' Ht)
      as Hparse.
    replace (p' + Z.of_nat (String.length (Z_digits s'))
             - Z.of_nat (String.length (Z_digits s'))) with p' in Hparse
      by lia.
    rewrite Hd in Hparse.
    destruct sg.
    + rewrite js_app. change (js "-") with [45]. cbn [app].
      unfold Connector.parse_number. by rewrite Hparse.
    + change (EmptyString +:+ ?x) with x.
      destruct (format_decimal_head (Z_digits s')
                  (p' + Z.of_nat (String.length (Z_digits s')))
                  (Z_digits_head s')) as (a & r & Hf & Ha).
      rewrite Hf in *. rewrite js_String in *. cbn [app] in *.
      rewrite parse_number_unsigned; [done|].
      intros Hc. by rewrite Hc in Ha.
Qed.


(** * Reading back the canonical serialization *)

(** ** Strings *)

Lemma digit_value_hex_lower v :
  0 <= v < 16 -> digit_value 16 (hex_lower v) = Some v.
Proof.
  intros Hv. unfold digit_value, hex_lower.
  destruct (Z.ltb_spec v 10).
  - rewrite (proj2 (Z.leb_le 48 (48 + v))),
      (proj2 (Z.leb_le (48 + v) 57)) by lia.
    cbn [andb]. rewrite (proj2 (Z.ltb_lt _ 16)) by lia. f_equal. lia.
  - rewrite (proj2 (Z.leb_gt (87 + v) 57)) by lia.
    rewrite andb_false_r.
    rewrite (proj2 (Z.leb_le 97 (87 + v))),
      (proj2 (Z.leb_le (87 + v) 102)) by lia.
    cbn [andb]. rewrite (proj2 (Z.ltb_lt _ 16)) by lia. f_equal. lia.
Qed.

Lemma is_char16_bounds c : is_char16 c = true -> 0 <= c < 65536.
Proof. unfold is_char16. intros [? ?]%andb_true_iff. lia. Qed.

Lemma parse_chars_unicode c r :
  0 <= c < 65536 ->
  Connector.parse_chars (UnicodeEscape c ++ r)
  = '(t, rest) ← Connector.parse_chars r; Some (c :: t, rest).
Proof.
  intros Hc. unfold UnicodeEscape. cbn [app Connector.parse_chars].
  change (92 =? 34) with false. change (92 =? 92) with true.
  change (117 =? 117) with true. cbv iota.
  unfold Connector.hex4.
  rewrite !digit_value_hex_lower by (apply Z.mod_pos_bound; lia).
  cbn [mbind option_bind].
  replace (4096 * (c / 4096 mod 16) + 256 * (c / 256 mod 16)
           + 16 * (c / 16 mod 16) + c mod 16) with c; [done|].
  Z.div_mod_to_equations. lia.
Qed.

Lemma parse_chars_plain c r :
  32 <= c -> c <> 34 -> c <> 92 ->
  Connector.parse_chars (c :: r)
  = '(t, rest) ← Connector.parse_chars r; Some (c :: t, rest).
Proof.
  intros H1 H2 H3. cbn [Connector.parse_chars].
  destruct (Z.eqb_spec c 34); [done|]. destruct (Z.eqb_spec c 92); [done|].
  by rewrite (proj2 (Z.ltb_ge c 32)).
Qed.

Lemma parse_chars_unit c r :
  0 <= c < 65536 ->
  Connector.parse_chars (quote_code_unit c ++ r)
  = '(t, rest) ← Connector.parse_chars r; Some (c :: t, rest).
Proof.
  intros Hc. unfold quote_code_unit.
  repeat (match goal with
          | |- context [?a =? ?b] =>
              destruct (Z.eqb_spec a b) as [->|?]; [reflexivity|]
          end).
  destruct (Z.ltb_spec c 32).
  - by apply parse_chars_unicode.
  - by apply parse_chars_plain.
Qed.

(** The characters that [QuoteJSONString] writes between the quotes are
    read back as the string. *)
Lemma parse_chars_quote_code_points s t :
  wf_jsstring s ->
  Connector.parse_chars (quote_code_points s ++ 34 :: t) = Some (s, t).
Proof.
  intros Hs.
  assert (forall n s, (length s <= n)%nat -> wf_jsstring s ->
            Connector.parse_chars (quote_code_points s ++ 34 :: t)
            = Some (s, t)) as H; [|by apply (H (length s))].
  clear s Hs. induction n as [|n IH]; intros s Hn Hs.
  { destruct s; [done|cbn in Hn; lia]. }
  destruct s as [|c r]; [done|].
  unfold wf_jsstring in Hs. cbn [forallb] in Hs.
  apply andb_true_iff in Hs as [Hc Hr].
  pose proof (is_char16_bounds c Hc) as Hcb.
  cbn [length] in Hn. cbn [quote_code_points].
  assert (forall c, is_lead c || is_trail c = true ->
            32 <= c /\ c <> 34 /\ c <> 92) as Hsur.
  { intros c'. unfold is_lead, is_trail. intros H. lia. }
  destruct (is_lead c) eqn:Hlead.
  - destruct r as [|d r'].
    + rewrite parse_chars_unicode by done. reflexivity.
    + destruct (is_trail d) eqn:Htrail.
      * cbn [forallb] in Hr. apply andb_true_iff in Hr as [Hd Hr'].
        cbn [app].
        destruct (Hsur c) as (? & ? & ?); [by rewrite Hlead|].
        destruct (Hsur d) as (? & ? & ?); [by rewrite Htrail, orb_true_r|].
        rewrite !parse_chars_plain by done.
        rewrite IH; [done|cbn [length] in Hn; lia|done].
      * rewrite <- app_assoc, parse_chars_unicode by done.
        rewrite IH; [done|lia|done].
  - destruct (is_trail c) eqn:Htrail.
    + rewrite <- app_assoc, parse_chars_unicode by done.
      rewrite IH; [done|lia|done].
    + rewrite <- app_assoc, parse_chars_unit by done.
      rewrite IH; [done|lia|done].
Qed.


(** ** Values *)

(** The text of a finite Number starts with a digit or a minus sign. *)
Lemma Number_toString_head x :
  isFinite x = true ->
  exists c r,
    js (Number_toString x) = c :: r /\ (is_digit c = true \/ c = 45).
Proof.
  destruct x as [sg| | |sg m e]; try done; intros _.
  - exists 48, []. by split; [|left].
  - unfold Number_toString.
    destruct (shortest_digits _ _ _ _ _ _) as [s p].
    destruct (strip_zeros _ _ _) as [s' p'].
    destruct (format_decimal_head (Z_digits s')
                (p' + Z.of_nat (String.length (Z_digits s')))
                (Z_digits_head s')) as (a & r & -> & Ha).
    destruct sg.
    + rewrite js_app. change (js "-") with [45]. cbn [app].
      do 2 eexists. split; [reflexivity|by right].
    + change (EmptyString +:+ ?y) with y. rewrite js_String.
      do 2 eexists. split; [reflexivity|by left].
Qed.

Lemma parse_value_number c r :
  is_digit c = true \/ c = 45 ->
  Connector.parse_value (c :: r)
  = '(x, rest) ← Connector.parse_number (c :: r); Some (JNum x, rest).
Proof.
  intros Hc.
  assert (c <> 34 /\ c <> 116 /\ c <> 102 /\ c <> 110) as (H1 & H2 & H3 & H4).
  { unfold is_digit in Hc. lia. }
  clear Hc. unfold Connector.parse_value.
  destruct c as [|p|p]; try done.
  repeat (destruct p as [p|p|]; try done).
Qed.

Lemma skip_ws_head c r :
  Connector.is_ws c = false -> Connector.skip_ws (c :: r) = c :: r.
Proof. intros H. cbn [Connector.skip_ws]. by rewrite H. Qed.

(** A value of a validated configuration, a string or a finite number,
    is read back as a value equal to it. *)
Lemma parse_value_written v text t :
  wf_value v -> binary64_value v -> written_as_is v = true ->
  SerializeJSONProperty v = Some text -> number_end t ->
  exists w,
    Connector.parse_value (text ++ t) = Some (w, t)
    /\ strict_equal v w = true
    /\ Connector.skip_ws (text ++ t) = text ++ t.
Proof.
  intros Hwf Hb Hw Htext Ht. destruct v as [| | |x|s]; try done.
  - cbn [written_as_is] in Hw. cbn [binary64_value] in Hb.
    assert (text = js (Number_toString x)) as ->
      by (destruct x; try done; cbn [SerializeJSONProperty] in Htext;
          symmetry; exact (inj Some _ _ Htext)).
    destruct (parse_number_toString x t Hb Hw Ht) as (x' & Hp & Heq).
    destruct (Number_toString_head x Hw) as (c & r & Hcr & Hc).
    rewrite Hcr in *. cbn [app] in *. exists (JNum x').
    rewrite parse_value_number, Hp by done. split; [done|]. split; [done|].
    apply skip_ws_head. unfold Connector.is_ws, is_digit in *.
    destruct Hc as [Hc| ->]; [|done]. lia.
  - cbn [SerializeJSONProperty] in Htext. apply (inj Some) in Htext as <-.
    exists (JStr s). unfold QuoteJSONString. rewrite <- !app_assoc.
    cbn [app]. unfold Connector.parse_value.
    rewrite parse_chars_quote_code_points by done.
    split; [done|]. split; [|done].
    cbn [strict_equal]. by apply bool_decide_eq_true_2.
Qed.

(** ** Members *)

(** A member, a key and a value, followed by a comma or by the closing
    brace. *)
Lemma parse_member fuel k v text t :
  wf_value v -> binary64_value v -> written_as_is v = true ->
  SerializeJSONProperty v = Some text ->
  number_end t -> Connector.skip_ws t = t ->
  exists w,
    strict_equal v w = true
    /\ Connector.parse_members (S fuel)
         ((QuoteJSONString (js k) ++ [58] ++ text) ++ t)
       = match t with
         | 44 :: s4 =>
             rest ← Connector.parse_members fuel s4; Some ((js k, w) :: rest)
         | 125 :: s4 =>
             if bool_decide (Connector.skip_ws s4 = []) then Some [(js k, w)]
             else None
         | _ => None
         end.
Proof.
  intros Hwf Hb Hw Htext Ht Hws.
  destruct (parse_value_written v text t Hwf Hb Hw Htext Ht)
    as (w & Hp & Heq & Hskip).
  exists w. split; [done|].
  unfold QuoteJSONString. rewrite <- !app_assoc. cbn [app].
  cbn [Connector.parse_members].
  rewrite skip_ws_head by done.
  rewrite parse_chars_quote_code_points by apply wf_jsstring_js.
  cbn [mbind option_bind]. rewrite skip_ws_head by done.
  rewrite Hskip, Hp. cbn [mbind option_bind]. by rewrite Hws.
Qed.

Lemma JSON_member_length kv member :
  JSON_member kv = Some member -> (1 <= length member)%nat.
Proof.
  unfold JSON_member. destruct (SerializeJSONProperty kv.2); [|done].
  intros [= <-]. unfold QuoteJSONString. cbn [app Datatypes.length]. lia.
Qed.

Lemma join_comma_cons x y rest :
  join_comma (x :: y :: rest) = x ++ [44] ++ join_comma (y :: rest).
Proof. done. Qed.

Lemma join_comma_length parts :
  Forall (fun p => (1 <= length p)%nat) parts ->
  (length parts <= length (join_comma parts))%nat.
Proof.
  induction 1 as [|x parts Hx Hp IH]; [done|].
  destruct parts as [|y rest]; [done|].
  rewrite join_comma_cons, !length_app. cbn [length] in *.
  unfold jsstring in *. lia.
Qed.

Lemma readable_member kv :
  readable kv ->
  exists text,
    SerializeJSONProperty kv.2 = Some text
    /\ JSON_member kv = Some (QuoteJSONString (js kv.1) ++ [58] ++ text).
Proof.
  intros (_ & _ & Hw). unfold JSON_member.
  destruct kv as [k [| | |x|s]]; try done; cbn [snd fst] in *.
  - destruct x; try done; eexists; split; reflexivity.
  - eexists; split; reflexivity.
Qed.

Lemma parse_members_members fuel c :
  Forall readable c -> c <> [] -> (length c <= fuel)%nat ->
  exists doc,
    Connector.parse_members fuel (join_comma (omap JSON_member c) ++ [125])
    = Some doc
    /\ same_fields c doc.
Proof.
  intros Hc. revert fuel.
  induction Hc as [|kv c Hkv Hc IH]; intros fuel Hne Hfuel; [done|].
  destruct fuel as [|fuel]; [cbn [length] in Hfuel; lia|].
  cbn [length] in Hfuel.
  destruct (readable_member kv Hkv) as (text & Htext & Hm).
  destruct Hkv as (Hwf & Hb & Hw).
  cbn [omap list_omap]. rewrite Hm.
  destruct c as [|kv' c].
  - cbn [omap list_omap join_comma].
    destruct (parse_member fuel kv.1 kv.2 text [125] Hwf Hb Hw Htext)
      as (w & Heq & Hp); [done|done|].
    rewrite Hp. cbn [Connector.skip_ws].
    rewrite bool_decide_eq_true_2 by done.
    eexists. split; [reflexivity|]. by repeat constructor.
  - destruct (IH fuel) as (doc & Hdoc & Hsame); [done|lia|].
    pose proof (Forall_inv Hc) as Hkv'.
    destruct (readable_member kv' Hkv') as (text' & _ & Hm').
    cbn [omap list_omap] in *. rewrite Hm' in *.
    rewrite join_comma_cons.
    rewrite <- (app_assoc (QuoteJSONString (js kv.1) ++ [58] ++ text)),
      <- (app_assoc [44]).
    destruct (parse_member fuel kv.1 kv.2 text
                ([44] ++ join_comma
                   ((QuoteJSONString (js kv'.1) ++ [58] ++ text')
                    :: omap JSON_member c) ++ [125])
                Hwf Hb Hw Htext)
      as (w & Heq & Hp); [done|done|].
    exists ((js kv.1, w) :: doc). split; [|by constructor].
    etrans; [exact Hp|]. cbn [app].
    etrans; [exact (f_equal
                      (fun o => o ≫= (fun rest => Some ((js kv.1, w) :: rest)))
                      Hdoc)|].
    done.
Qed.

Lemma omap_member_length c :
  Forall readable c -> length (omap JSON_member c) = length c.
Proof.
  induction 1 as [|kv c Hkv Hc IH]; [done|].
  destruct (readable_member kv Hkv) as (text & _ & Hm).
  cbn [omap list_omap]. rewrite Hm. cbn [length]. by f_equal.
Qed.

Lemma omap_member_nonempty (c : JSObject) :
  Forall (fun p : jsstring => (1 <= length p)%nat) (omap JSON_member c).
Proof.
  induction c as [|kv c IH]; [constructor|].
  cbn [omap list_omap]. destruct (JSON_member kv) eqn:Hm; [|done].
  constructor; [by eapply JSON_member_length|done].
Qed.

(** The canonical serialization of a validated configuration is read back
    as an object with the same fields. *)
Lemma parse_JSON_stringify c :
  Forall readable c ->
  exists doc,
    Connector.parse (JSON_stringify c) = Some doc /\ same_fields c doc.
Proof.
  intros Hc. unfold JSON_stringify, Connector.parse. cbn [app].
  rewrite skip_ws_head by done.
  destruct c as [|kv c]; [by exists []; split; [|constructor]|].
  destruct (parse_members_members
              (length (join_comma (omap JSON_member (kv :: c)) ++ [125]))
              (kv :: c) Hc) as (doc & Hdoc & Hsame); [done| |].
  { rewrite length_app.
    pose proof (join_comma_length _ (omap_member_nonempty (kv :: c))) as Hlen.
    rewrite omap_member_length in Hlen by done.
    unfold jsstring in *. lia. }
  exists doc. split; [|done]. rewrite <- Hdoc.
  destruct (readable_member kv (Forall_inv Hc)) as (text & _ & Hm).
  cbn [omap list_omap]. rewrite Hm.
  destruct (omap JSON_member c) as [|m ms].
  - cbn [join_comma]. unfold QuoteJSONString. rewrite <- !app_assoc.
    cbn [app]. by rewrite skip_ws_head by done.
  - rewrite join_comma_cons. unfold QuoteJSONString. rewrite <- !app_assoc.
    cbn [app]. by rewrite skip_ws_head by done.
Qed.


(** * The numbers of a validated configuration are binary64 values *)

Lemma digit_value_nonneg base c v : digit_value base c = Some v -> 0 <= v.
Proof.
  unfold digit_value.
  destruct (Z.leb_spec 48 c), (Z.leb_spec c 57), (Z.leb_spec 97 c),
    (Z.leb_spec c 102), (Z.leb_spec 65 c), (Z.leb_spec c 70); cbn [andb];
    match goal with
    | |- context [?a <? base] => destruct (Z.ltb_spec a base)
    end; intros [= <-]; lia.
Qed.

Lemma mapM_digit_value_nonneg base s ds :
  mapM (digit_value base) s = Some ds -> Forall (fun v => 0 <= v) ds.
Proof.
  intros H%mapM_Some_1. induction H as [|c v s ds Hc _ IH]; constructor.
  - by eapply digit_value_nonneg.
  - done.
Qed.

Lemma digits_value_nonneg base ds :
  0 <= base -> Forall (fun v => 0 <= v) ds -> 0 <= digits_value base ds.
Proof.
  intros Hb Hds. unfold digits_value.
  assert (forall acc, 0 <= acc ->
            0 <= fold_left (fun acc d => base * acc + d) ds acc) as H;
    [|by apply H].
  induction Hds as [|d ds Hd _ IH]; intros acc Hacc; [done|].
  cbn [fold_left]. apply IH. nia.
Qed.

Lemma span_digits_nonneg s : Forall (fun v => 0 <= v) (span_digits s).1.
Proof.
  induction s as [|c s IH]; [constructor|]. cbn [span_digits].
  destruct (is_digit c) eqn:Hc; [|constructor].
  destruct (span_digits s) as [ds r]. cbn [fst] in *.
  constructor; [|done]. unfold is_digit in Hc. lia.
Qed.

Lemma all_digits_nonneg base s z :
  0 <= base -> all_digits base s = Some z -> 0 <= z.
Proof.
  intros Hb. unfold all_digits. destruct s as [|c s]; [done|].
  destruct (mapM _ _) as [ds|] eqn:Hds; [|done]. intros [= <-].
  apply digits_value_nonneg; [done|]. by eapply mapM_digit_value_nonneg.
Qed.

Lemma StrUnsignedDecimalLiteral_binary64 s x :
  StrUnsignedDecimalLiteral s = Some x -> binary64 x.
Proof.
  unfold StrUnsignedDecimalLiteral.
  destruct (bool_decide _); [by intros [= <-]|].
  pose proof (span_digits_nonneg s) as Hip.
  destruct (span_digits s) as [ip r1]. cbn [fst] in Hip.
  assert (exists fp r2,
            match r1 with
            | 46 :: r => span_digits r
            | _ => ([], r1)
            end = (fp, r2) /\ Forall (fun v => 0 <= v) fp)
    as (fp & r2 & -> & Hfp).
  { assert (forall r, exists fp r2,
              span_digits r = (fp, r2) /\ Forall (fun v => 0 <= v) fp) as Hsp.
    { intros r. pose proof (span_digits_nonneg r) as Hr.
      destruct (span_digits r) as [fp r2]. by exists fp, r2. }
    assert (exists fp r2,
              ([], r1) = (fp, r2) /\ Forall (fun v : Z => 0 <= v) fp) as Hnil
      by (by exists [], r1).
    destruct r1 as [|c r]; [done|].
    destruct c as [|p|p]; try done.
    repeat (destruct p as [p|p|]; try done). }
  assert (Forall (fun v => 0 <= v) (ip ++ fp)) as Hds by by apply Forall_app.
  destruct (ip ++ fp) as [|d ds] eqn:Hl; [done|].
  destruct (ExponentPart r2) as [e|]; [|done]. intros [= <-].
  apply dec_binary64. by apply digits_value_nonneg.
Qed.

Lemma StrDecimalLiteral_binary64 s x :
  StrDecimalLiteral s = Some x -> binary64 x.
Proof.
  unfold StrDecimalLiteral. destruct s as [|c r]; [done|].
  destruct (c =? 43); [apply StrUnsignedDecimalLiteral_binary64|].
  destruct (c =? 45); [|apply StrUnsignedDecimalLiteral_binary64].
  destruct (StrUnsignedDecimalLiteral r) as [y|] eqn:Hy; [|done].
  intros [= <-]. apply SFopp_binary64.
  by eapply StrUnsignedDecimalLiteral_binary64.
Qed.

Lemma int_all_digits_binary64 base s x :
  0 <= base -> int <$> all_digits base s = Some x -> binary64 x.
Proof.
  intros Hb. destruct (all_digits base s) as [z|] eqn:Hz; [|done].
  intros [= <-]. apply dec_binary64. by eapply all_digits_nonneg.
Qed.

Lemma NonDecimalIntegerLiteral_binary64 s x :
  NonDecimalIntegerLiteral s = Some x -> binary64 x.
Proof.
  unfold NonDecimalIntegerLiteral.
  destruct s as [|c0 [|c r]]; try done.
  destruct (negb _); [done|].
  repeat (destruct (_ || _);
          [by apply int_all_digits_binary64|]).
  done.
Qed.

Lemma StringToNumber_binary64 s : binary64 (StringToNumber s).
Proof.
  unfold StringToNumber. destruct (trim s) as [|c r]; [done|].
  unfold StrNumericLiteral.
  destruct (NonDecimalIntegerLiteral (c :: r)) as [x|] eqn:Hx.
  - by eapply NonDecimalIntegerLiteral_binary64.
  - destruct (StrDecimalLiteral (c :: r)) as [x|] eqn:Hy; [|done].
    by eapply StrDecimalLiteral_binary64.
Qed.

Lemma Number_binary64 v : binary64_value v -> binary64 (Number v).
Proof.
  destruct v as [| |[]|x|s]; try done. intros _.
  apply StringToNumber_binary64.
Qed.

Lemma _parse_binary64 t p d v issues :
  binary64_type t -> binary64_value d -> _parse t p d = (OK v, issues) ->
  binary64_value v.
Proof.
  revert d. induction t as [|values|coerce checks|t IH dv]; intros d Ht Hd.
  - destruct d; cbn; intros [=]. by subst.
  - destruct d; cbn; try (intros [=]; fail). case_bool_decide; intros [=].
    by subst.
  - unfold _parse, ZodNumber_parse, invalid.
    assert (binary64_value (if coerce then JNum (Number d) else d)) as Hx
      by (destruct coerce; [by apply Number_binary64|done]).
    destruct (if coerce then JNum (Number d) else d) as [| | |x|];
      try (intros [=]; fail).
    destruct (isNaN x); [by intros [=]|].
    destruct (flat_map _ _); intros [=]. by subst.
  - destruct Ht as [Hdv Ht]. cbn [_parse]. apply IH; [done|].
    by destruct d.
Qed.

Lemma StrategySchema_binary64_type :
  Forall (fun kt : string * ZodType => binary64_type kt.2)
    (shape StrategySchema).
Proof.
  cbn [shape StrategySchema z.object].
  repeat (constructor; [by vm_compute|]). constructor.
Qed.

(** Validation gives numbers that are binary64 values: those of the form,
    the defaults of the schema, and what [Number] makes of a string. *)
Lemma safeParse_binary64 (form : gmap string JSValue) c :
  binary64_form form -> safeParse StrategySchema form = Success c ->
  Forall (fun kv => binary64_value kv.2) c.
Proof.
  intros Hf Hc%StrategySchema_Success.
  pose proof StrategySchema_binary64_type as Ht.
  induction Hc as [|kt kv sh c [_ Hr] _ IH]; [constructor|].
  apply Forall_cons in Ht as [Hkt Ht]. constructor; [|by apply IH].
  unfold field_result in Hr. eapply _parse_binary64; [exact Hkt| |exact Hr].
  destruct (form !! kt.1) as [d|] eqn:Hd; [|done].
  by apply (Hf _ _ Hd).
Qed.

(** * The round trip of a validated configuration *)

Lemma binary64_form_initial : binary64_form initial_form.
Proof.
  intros k v Hkv. unfold initial_form in Hkv.
  apply elem_of_list_to_map_2 in Hkv.
  repeat (apply elem_of_cons in Hkv as [[= -> ->]|Hkv]; [by vm_compute|]).
  by apply elem_of_nil in Hkv.
Qed.

(** Every value of a validated configuration is a string or a finite
    number. *)
Lemma safeParse_written_as_is (form : gmap string JSValue) c :
  safeParse StrategySchema form = Success c ->
  Forall (fun kv => written_as_is kv.2 = true) c.
Proof.
  intros Hc%StrategySchema_Success.
  pose proof StrategySchema_closed as Ht.
  induction Hc as [|kt kv sh c [_ Hr] _ IH]; [constructor|].
  apply Forall_cons in Ht as [Hkt Ht]. constructor; [|by apply IH].
  unfold field_result in Hr. by eapply _parse_written_as_is.
Qed.

Lemma safeParse_readable (form : gmap string JSValue) c :
  wf_form form -> binary64_form form ->
  safeParse StrategySchema form = Success c -> Forall readable c.
Proof.
  intros Hf Hb Hc.
  pose proof (safeParse_wf form c Hf Hc) as H1.
  pose proof (safeParse_binary64 form c Hb Hc) as H2.
  pose proof (safeParse_written_as_is form c Hc) as H3.
  unfold wf_object in H1. clear Hc.
  induction c as [|kv c IH]; [constructor|].
  apply Forall_cons in H1 as [? ?], H2 as [? ?], H3 as [? ?].
  constructor; [done|by apply IH].
Qed.

(** C1 as stated fails, in two ways.  Without [window] the payload is
    empty: it does not decode to the serialization, whatever equality
    of fields is meant.  And in a browser, a field that holds [-0] is
    written [0] and read back as [+0], which is equal to [-0] as a number
    but is not the same value. *)
Lemma roundtrip_fails_as_stated :
  ~ (forall env (form : gmap string JSValue) c,
       wf_form form -> binary64_form form ->
       safeParse StrategySchema form = Success c ->
       exists payload doc,
         toBase64 env c = Some payload
         /\ Connector.decode payload = Some (JSON_stringify c)
         /\ Connector.parse (JSON_stringify c) = Some doc
         /\ same_fields c doc)
  /\ ~ (forall (form : gmap string JSValue) c,
          wf_form form -> binary64_form form ->
          safeParse StrategySchema form = Success c ->
          exists payload doc,
            toBase64 Browser c = Some payload
            /\ Connector.decode payload = Some (JSON_stringify c)
            /\ Connector.parse (JSON_stringify c) = Some doc
            /\ Forall2 (fun kv kw => js kv.1 = kw.1 /\ kv.2 = kw.2) c doc).
Proof.
  split.
  - intros H.
    destruct (H Server initial_form default_config wf_form_initial
                binary64_form_initial)
      as (payload & doc & Hp & Hd & _); [by vm_compute|].
    injection Hp as <-. vm_compute in Hd. discriminate Hd.
  - intros H.
    set (form := <["riskPerTradePct" := JStr (js "-0")]> initial_form).
    assert (wf_form form) as Hwf.
    { apply map_Forall_insert_2; [done|apply wf_form_initial]. }
    assert (binary64_form form) as Hb.
    { apply map_Forall_insert_2; [done|apply binary64_form_initial]. }
    destruct (safeParse StrategySchema form) as [c|issues] eqn:Hc;
      [|by vm_compute in Hc].
    destruct (H form c Hwf Hb Hc) as (payload & doc & _ & _ & Hdoc & Hsame).
    vm_compute in Hc. injection Hc as Hc. subst c.
    vm_compute in Hdoc. apply (inj Some) in Hdoc. subst doc.
    do 2 apply Forall2_cons_1 in Hsame as [_ Hsame].
    apply Forall2_cons_1 in Hsame as [[_ Hv] _].
    discriminate Hv.
Qed.

(** C1, amended: in a browser, for every configuration obtained by
    validating a form, the encoder returns a payload; decoding the
    payload (base 64, then UTF-8) gives back the serialization of the
    configuration; and parsing that serialization as structured data
    gives an object with the same keys in the same order, each value
    equal to that of the configuration: strings are the same, numbers
    are equal as numbers. *)
Theorem payload_roundtrip (form : gmap string JSValue) c :
  wf_form form -> binary64_form form ->
  safeParse StrategySchema form = Success c ->
  exists payload doc,
    toBase64 Browser c = Some payload
    /\ Connector.decode payload = Some (JSON_stringify c)
    /\ Connector.parse (JSON_stringify c) = Some doc
    /\ same_fields c doc.
Proof.
  intros Hf Hb Hc.
  destruct (toBase64_Browser c) as (payload & Hp & _ & Hd);
    [by eapply safeParse_wf|].
  destruct (parse_JSON_stringify c) as (doc & Hdoc & Hsame);
    [by eapply safeParse_readable|].
  by exists payload, doc.
Qed.

Lemma payload_roundtrip_witness :
  exists payload doc,
    toBase64 Browser default_config = Some payload
    /\ Connector.decode payload = Some (JSON_stringify default_config)
    /\ Connector.parse (JSON_stringify default_config) = Some doc
    /\ same_fields default_config doc.
Proof.
  apply (payload_roundtrip initial_form default_config wf_form_initial
           binary64_form_initial).
  vm_compute. reflexivity.
Defined.
